(** * autolemetry-go: event queue, circuit breaker, token bucket

    A shallow embedding of the asynchronous event-delivery queue
    (package [subscribers]), of the generic circuit breaker (package
    [circuitbreaker]), of the token-bucket rate limiter (package
    [ratelimit]) and of the places of package [autolemetry] that use them
    ([Start], [IsTracingEnabled], [GetTraceID], [GetSpanID], the global event
    tracker), together with the properties the specification states about
    them and further properties read off the code.

    Conventions.
    - Go's [int] and [time.Duration] are 64-bit two's-complement integers:
      they are carried as [Z] and every arithmetic result is passed through
      [wrap64].
    - A [time.Time] is an instant counted in nanoseconds from the zero
      [Time]; [time.Time{}] is [0] and [IsZero] tests for it.
    - [time.Now()] is not a function of the program state: every call site
      receives its reading from outside (an argument, or an oracle indexed by
      the number of readings made so far).
    - Go's [float64] is the primitive binary64 type [float]; what its
      operations compute is read through [Prim2SF] on [spec_float]. *)

From Stdlib Require Import ZArith Lia Bool List Ascii String.
From Stdlib Require Floats Uint63.
From stdpp Require Import gmap strings list fin_maps.

Local Open Scope Z_scope.

(* ===================================================================== *)
(** ** Machine integers and time                                          *)
(* ===================================================================== *)

Module GoInt.

Definition min_int64 : Z := - 2 ^ 63.
Definition max_int64 : Z := 2 ^ 63 - 1.

(** Two's-complement wrap-around of a 64-bit signed result. *)
Definition wrap64 (z : Z) : Z := (z + 2 ^ 63) mod 2 ^ 64 - 2 ^ 63.

(** Saturation, as [time.Time.Sub] does on overflow. *)
Definition sat64 (z : Z) : Z :=
  if z <? min_int64 then min_int64
  else if max_int64 <? z then max_int64
  else z.

Definition in_int64 (z : Z) : Prop := min_int64 <= z <= max_int64.

End GoInt.

Module GoTime.
Import GoInt.

Definition Time := Z.
Definition Duration := Z.

Definition Nanosecond : Duration := 1.
Definition Millisecond : Duration := 1000000.
Definition Second : Duration := 1000000000.

(** [time.Time{}] *)
Definition zeroTime : Time := 0.
Definition IsZero (t : Time) : bool := t =? 0.
(** [t.Before(u)] *)
Definition Before (t u : Time) : bool := t <? u.
(** [t.Add(d)] *)
Definition Add (t : Time) (d : Duration) : Time := t + d.
(** [t.Sub(u)]: the difference, saturated to the range of a Duration. *)
Definition Sub (t u : Time) : Duration := sat64 (t - u).
(** [time.Since(t)] is [time.Now().Sub(t)]; [now] is the clock reading. *)
Definition Since (now t : Time) : Duration := Sub now t.

End GoTime.

(* ===================================================================== *)
(** ** package circuitbreaker                                             *)
(* ===================================================================== *)

Module CircuitBreaker.
Import GoInt GoTime.

(** [type State int] with its three constants. *)
Inductive State : Type :=
| StateClosed
| StateOpen
| StateHalfOpen.

Definition State_eqb (a b : State) : bool :=
  match a, b with
  | StateClosed, StateClosed => true
  | StateOpen, StateOpen => true
  | StateHalfOpen, StateHalfOpen => true
  | _, _ => false
  end.

(** [State.String] *)
Definition State_String (s : State) : string :=
  match s with
  | StateClosed => "closed"
  | StateOpen => "open"
  | StateHalfOpen => "half-open"
  end.

(** [type CircuitBreaker struct] (the mutex is not data). *)
Record CircuitBreaker : Type := mkCircuitBreaker {
  state : State;
  failureCount : Z;
  successCount : Z;
  failureThreshold : Z;
  successThreshold : Z;
  timeout : Duration;
  lastStateChange : Time
}.

(** [NewCircuitBreaker]; [now] is the reading of [time.Now()]. *)
Definition NewCircuitBreaker (failureThreshold successThreshold : Z)
    (timeout : Duration) (now : Time) : CircuitBreaker :=
  {| state := StateClosed;
     failureCount := 0;
     successCount := 0;
     failureThreshold := failureThreshold;
     successThreshold := successThreshold;
     timeout := timeout;
     lastStateChange := now |}.

(** [cb.setState(state)]; [now] is the reading of [time.Now()]. *)
Definition setState (now : Time) (s : State) (cb : CircuitBreaker) : CircuitBreaker :=
  {| state := s;
     failureCount := failureCount cb;
     successCount := successCount cb;
     failureThreshold := failureThreshold cb;
     successThreshold := successThreshold cb;
     timeout := timeout cb;
     lastStateChange := now |}.

Definition set_failureCount (n : Z) (cb : CircuitBreaker) : CircuitBreaker :=
  {| state := state cb;
     failureCount := n;
     successCount := successCount cb;
     failureThreshold := failureThreshold cb;
     successThreshold := successThreshold cb;
     timeout := timeout cb;
     lastStateChange := lastStateChange cb |}.

Definition set_successCount (n : Z) (cb : CircuitBreaker) : CircuitBreaker :=
  {| state := state cb;
     failureCount := failureCount cb;
     successCount := n;
     failureThreshold := failureThreshold cb;
     successThreshold := successThreshold cb;
     timeout := timeout cb;
     lastStateChange := lastStateChange cb |}.

(** [cb.Allow()].  [now] is the clock reading inside [time.Since], [now']
    the later reading made by [setState] when the breaker half-opens. *)
Definition Allow (now now' : Time) (cb : CircuitBreaker) : bool * CircuitBreaker :=
  match state cb with
  | StateClosed => (true, cb)
  | StateOpen =>
      if timeout cb <? Since now (lastStateChange cb)
      then (true, setState now' StateHalfOpen cb)
      else (false, cb)
  | StateHalfOpen => (true, cb)
  end.

(** [cb.RecordSuccess()] *)
Definition RecordSuccess (now : Time) (cb : CircuitBreaker) : CircuitBreaker :=
  match state cb with
  | StateHalfOpen =>
      let cb1 := set_successCount (wrap64 (successCount cb + 1)) cb in
      if successThreshold cb1 <=? successCount cb1
      then set_failureCount 0 (set_successCount 0 (setState now StateClosed cb1))
      else cb1
  | _ => set_failureCount 0 cb
  end.

(** [cb.RecordFailure()] *)
Definition RecordFailure (now : Time) (cb : CircuitBreaker) : CircuitBreaker :=
  let cb1 := set_successCount 0 (set_failureCount (wrap64 (failureCount cb + 1)) cb) in
  if failureThreshold cb1 <=? failureCount cb1
  then setState now StateOpen cb1
  else cb1.

End CircuitBreaker.

(* ===================================================================== *)
(** ** Formatting of trace and span identifiers                           *)
(* ===================================================================== *)

(** What [Queue.Track] uses of the standard library and of the tracing SDK
    ([go.opentelemetry.io/otel/trace]), neither of which is part of this
    repository.
    - [trace.TraceID] is [[16]byte], [trace.SpanID] is [[8]byte]; both have a
      method [String() string] returning [hex.EncodeToString] of the bytes
      (the logging adapters of this repository call it), and [IsValid]
      holds when some byte is non-zero.
    - [fmt]: for the verbs that are valid for strings ([%s %q %v %x %X]) an
      operand that implements [String() string] is formatted by invoking
      that method and formatting the resulting string with the verb; [%x] of
      a string is the lower-case hex encoding of its bytes, and a width with
      the [0] flag pads on the left with zeros. *)
Module GoFmt.

Definition ldigits : list ascii := list_ascii_of_string "0123456789abcdef".

Definition hex_digit (n : N) : ascii := nth (N.to_nat n) ldigits "0"%char.

(** The two digits of one byte, high nibble first. *)
Definition hex_byte (b : N) (rest : string) : string :=
  String (hex_digit (N.shiftr b 4)) (String (hex_digit (N.land b 15)) rest).

(** [hex.EncodeToString] *)
Fixpoint EncodeToString (bs : list Byte.byte) : string :=
  match bs with
  | [] => EmptyString
  | b :: bs' => hex_byte (Byte.to_N b) (EncodeToString bs')
  end.

(** [%x] applied to a string: every byte of the string, two digits each. *)
Fixpoint fmtSx (s : string) : string :=
  match s with
  | EmptyString => EmptyString
  | String c s' => hex_byte (N_of_ascii c) (fmtSx s')
  end.

Fixpoint writePadding (n : nat) (rest : string) : string :=
  match n with
  | O => rest
  | S n' => String "0"%char (writePadding n' rest)
  end.

(** [fmt.Sprintf("%0<wid>x", v)] for an operand [v] whose [String()] is
    [str]. *)
Definition Sprintf_0x_Stringer (wid : nat) (str : string) : string :=
  let enc := fmtSx str in
  writePadding (wid - String.length enc) enc.

End GoFmt.

Module Trace.
Import GoFmt.

Definition TraceID := list Byte.byte.
Definition SpanID := list Byte.byte.

Definition ID_IsValid (id : list Byte.byte) : bool :=
  existsb (fun b => negb (Byte.eqb b Byte.x00)) id.

Definition ID_String (id : list Byte.byte) : string := EncodeToString id.

Record SpanContext : Type := mkSpanContext {
  sc_TraceID : TraceID;
  sc_SpanID : SpanID
}.

Definition SpanContext_IsValid (sc : SpanContext) : bool :=
  ID_IsValid (sc_TraceID sc) && ID_IsValid (sc_SpanID sc).

Record Span : Type := mkSpan {
  IsRecording : bool;
  GetSpanContext : SpanContext
}.

(** The span [trace.SpanFromContext] returns for a context that holds none. *)
Definition noopSpan : Span :=
  {| IsRecording := false; GetSpanContext := mkSpanContext [] [] |}.

(** A [context.Context], as far as [Track] reads it: the span stored by the
    tracing SDK and the value under [operationNameKey]. *)
Record Context : Type := mkContext {
  ctx_span : option Span;
  ctx_operationName : option string
}.

Definition Background : Context :=
  {| ctx_span := None; ctx_operationName := None |}.

Definition SpanFromContext (ctx : Context) : Span :=
  match ctx_span ctx with
  | Some sp => sp
  | None => noopSpan
  end.

(** [autolemetry.GetOperationName] *)
Definition GetOperationName (ctx : Context) : string :=
  match ctx_operationName ctx with
  | Some v => v
  | None => ""
  end.

End Trace.

(* ===================================================================== *)
(** ** package subscribers: the delivery queue                            *)
(* ===================================================================== *)

Module Subscribers.
Import GoInt GoTime GoFmt Trace.

(** Values of type [any] held in a property bag. *)
Inductive any : Type :=
| AString (s : string)
| AInt (z : Z)
| ABool (b : bool).

(** A registered [Subscriber]: the object it points to and the name of its
    dynamic type, which is what [fmt.Sprintf("%T", sub)] prints. *)
Record Subscriber : Type := mkSubscriber {
  sub_addr : nat;
  sub_type : string
}.

Definition Subscriber_eqb (a b : Subscriber) : bool :=
  Nat.eqb (sub_addr a) (sub_addr b) && String.eqb (sub_type a) (sub_type b).

Record queuedEvent : Type := mkQueuedEvent {
  name : string;
  properties : gmap string any;
  operation : string
}.

Record QueueConfig : Type := mkQueueConfig {
  QueueSize : Z;
  FlushInterval : Duration;
  CircuitThreshold : Z;
  BackoffMin : Duration;
  BackoffMax : Duration;
  CircuitReset : Duration
}.

(** [type Queue struct].  The channel [events] is its buffered content
    (oldest first), its capacity and whether it has been closed; the
    [WaitGroup] is whether the consumer goroutine has returned. *)
Record Queue : Type := mkQueue {
  events : list queuedEvent;
  events_cap : Z;
  events_closed : bool;
  subscribers : list Subscriber;
  wg_done : bool;
  closed : bool;
  cbThreshold : Z;
  flushTick : Duration;
  flushTick_stopped : bool;
  workerErrs : gmap string Z;
  nextAllowed : gmap string Time;
  backoff : gmap string Duration;
  backoffMin : Duration;
  backoffMax : Duration;
  cbReset : Duration
}.

(** What the queue does to the outside. *)
Inductive Diagnostic : Type :=
| QueueFull (event : string)
| SubscriberError (id : string)
| CircuitOpen (id : string) (errCount : Z) (bo : Duration).

Inductive Obs : Type :=
| ObsSend (now : Time) (sub : Subscriber) (event : string)
    (props : gmap string any) (ok : bool)
| ObsClose (sub : Subscriber)
| ObsPrint (d : Diagnostic).

(** What the outside does to the queue: the clock, and the result of every
    [Send] and [Close].  [clock n] is the [n]-th reading of [time.Now()];
    [send_ok n sub event props] tells whether the [Send] made right after
    reading [n] returns nil. *)
Record World : Type := mkWorld {
  clock : nat -> Time;
  send_ok : nat -> Subscriber -> string -> gmap string any -> bool;
  close_ok : Subscriber -> bool
}.

(** The queue together with the number of clock readings made and the
    actions observed so far (oldest first). *)
Record Sys : Type := mkSys {
  queue : Queue;
  readings : nat;
  observed : list Obs
}.

Inductive Outcome (A : Type) : Type :=
| Returned (a : A)
| Panicked (msg : string).
Arguments Returned {A} a.
Arguments Panicked {A} msg.

Definition set_events (evs : list queuedEvent) (q : Queue) : Queue :=
  mkQueue evs (events_cap q) (events_closed q) (subscribers q) (wg_done q)
    (closed q) (cbThreshold q) (flushTick q) (flushTick_stopped q)
    (workerErrs q) (nextAllowed q) (backoff q) (backoffMin q) (backoffMax q)
    (cbReset q).

Definition set_events_closed (b : bool) (q : Queue) : Queue :=
  mkQueue (events q) (events_cap q) b (subscribers q) (wg_done q)
    (closed q) (cbThreshold q) (flushTick q) (flushTick_stopped q)
    (workerErrs q) (nextAllowed q) (backoff q) (backoffMin q) (backoffMax q)
    (cbReset q).

Definition set_wg_done (b : bool) (q : Queue) : Queue :=
  mkQueue (events q) (events_cap q) (events_closed q) (subscribers q) b
    (closed q) (cbThreshold q) (flushTick q) (flushTick_stopped q)
    (workerErrs q) (nextAllowed q) (backoff q) (backoffMin q) (backoffMax q)
    (cbReset q).

Definition set_closed (b : bool) (q : Queue) : Queue :=
  mkQueue (events q) (events_cap q) (events_closed q) (subscribers q) (wg_done q)
    b (cbThreshold q) (flushTick q) (flushTick_stopped q)
    (workerErrs q) (nextAllowed q) (backoff q) (backoffMin q) (backoffMax q)
    (cbReset q).

Definition set_flushTick_stopped (b : bool) (q : Queue) : Queue :=
  mkQueue (events q) (events_cap q) (events_closed q) (subscribers q) (wg_done q)
    (closed q) (cbThreshold q) (flushTick q) b
    (workerErrs q) (nextAllowed q) (backoff q) (backoffMin q) (backoffMax q)
    (cbReset q).

(** The three health maps are always written together. *)
Definition set_health (errs : gmap string Z) (next : gmap string Time)
    (bo : gmap string Duration) (q : Queue) : Queue :=
  mkQueue (events q) (events_cap q) (events_closed q) (subscribers q) (wg_done q)
    (closed q) (cbThreshold q) (flushTick q) (flushTick_stopped q)
    errs next bo (backoffMin q) (backoffMax q) (cbReset q).

Definition on_queue (f : Queue -> Queue) (s : Sys) : Sys :=
  mkSys (f (queue s)) (readings s) (observed s).

Definition emit (o : Obs) (s : Sys) : Sys :=
  mkSys (queue s) (readings s) (observed s ++ [o]).

Definition tick_clock (s : Sys) : Sys :=
  mkSys (queue s) (S (readings s)) (observed s).

(** Reading a Go map at a missing key gives the zero value. *)
Definition at_key (m : gmap string Z) (id : string) : Z := default 0 (m !! id).

(** [NewQueueWithConfig] *)
Definition NewQueueWithConfig (cfg : QueueConfig) (subs : list Subscriber) : Queue :=
  let size := if QueueSize cfg <=? 0 then 1000 else QueueSize cfg in
  let flush := if FlushInterval cfg <=? 0 then Second else FlushInterval cfg in
  let thr := if CircuitThreshold cfg <=? 0 then 5 else CircuitThreshold cfg in
  let bmin := if BackoffMin cfg <=? 0 then 100 * Millisecond else BackoffMin cfg in
  let bmax := if BackoffMax cfg <=? 0 then 5 * Second else BackoffMax cfg in
  let reset := if CircuitReset cfg <=? 0 then 10 * Second else CircuitReset cfg in
  {| events := [];
     events_cap := size;
     events_closed := false;
     subscribers := subs;
     wg_done := false;
     closed := false;
     cbThreshold := thr;
     flushTick := flush;
     flushTick_stopped := false;
     workerErrs := ∅;
     nextAllowed := ∅;
     backoff := ∅;
     backoffMin := bmin;
     backoffMax := bmax;
     cbReset := reset |}.

(** [NewQueue] *)
Definition NewQueue (subs : list Subscriber) : Queue :=
  NewQueueWithConfig (mkQueueConfig 0 0 0 0 0 0) subs.

(** The system right after construction. *)
Definition boot (q : Queue) : Sys := mkSys q 0 [].

(** The properties [Track] enqueues: a copy of the caller's, enriched. *)
Definition enrich (ctx : Context) (properties : gmap string any) : gmap string any :=
  let props := properties in
  let span := SpanFromContext ctx in
  let props :=
    if IsRecording span then
      let sc := GetSpanContext span in
      if SpanContext_IsValid sc then
        <["span_id" := AString (Sprintf_0x_Stringer 16 (ID_String (sc_SpanID sc)))]>
          (<["trace_id" := AString (Sprintf_0x_Stringer 32 (ID_String (sc_TraceID sc)))]>
             props)
      else props
    else props in
  let opName := GetOperationName ctx in
  if String.eqb opName "" then props
  else <["operation.name" := AString opName]> props.

(** [Queue.Track].  The select with a default case never waits: a send on a
    closed channel panics, a send on a channel with room succeeds, and
    otherwise the default case runs. *)
Definition Track (ctx : Context) (name : string) (properties : gmap string any)
    (s : Sys) : Outcome Sys :=
  let props := enrich ctx properties in
  let opName := GetOperationName ctx in
  let q := queue s in
  if events_closed q then Panicked "send on closed channel"
  else if Z.of_nat (length (events q)) <? events_cap q
  then Returned (on_queue (set_events (events q ++ [mkQueuedEvent name props opName])) s)
  else Returned (emit (ObsPrint (QueueFull name)) s).

(** [minDuration] *)
Definition minDuration (a b : Duration) : Duration := if a <? b then a else b.

(** The backoff a failure at this moment imposes on [id] (the local [bo] of
    [deliver]). *)
Definition failure_wait (q : Queue) (id : string) : Duration :=
  let bo := at_key (backoff q) id in
  let bo := if bo =? 0 then backoffMin q else bo in
  if backoffMax q <? bo then backoffMax q else bo.

(** The branch [err != nil] of [deliver], under the lock. *)
Definition record_failure (now : Time) (id : string) (q : Queue) : Queue :=
  let errCount := wrap64 (at_key (workerErrs q) id + 1) in
  let bo := failure_wait q id in
  let nextWait := Add now bo in
  set_health (<[id := errCount]> (workerErrs q))
    (<[id := nextWait]> (nextAllowed q))
    (<[id := minDuration (wrap64 (bo * 2)) (backoffMax q)]> (backoff q)) q.

(** The branch [err == nil] of [deliver]. *)
Definition record_success (id : string) (q : Queue) : Queue :=
  set_health (<[id := 0]> (workerErrs q))
    (<[id := zeroTime]> (nextAllowed q))
    (<[id := backoffMin q]> (backoff q)) q.

(** The test that makes [deliver] skip a subscriber. *)
Definition in_backoff (now : Time) (q : Queue) (id : string) : bool :=
  let next := at_key (nextAllowed q) id in
  negb (IsZero next) && Before now next.

(** One iteration of the loop of [deliver]. *)
Definition deliver_to (w : World) (event : queuedEvent) (s : Sys) (sub : Subscriber) : Sys :=
  let id := sub_type sub in
  let n := readings s in
  let now := clock w n in
  let s := tick_clock s in
  if in_backoff now (queue s) id then s
  else
    let ok := send_ok w n sub (name event) (properties event) in
    let s := emit (ObsSend now sub (name event) (properties event) ok) s in
    if ok then on_queue (record_success id) s
    else
      let s := emit (ObsPrint (SubscriberError id)) s in
      let bo := failure_wait (queue s) id in
      let s := on_queue (record_failure now id) s in
      let errCount := at_key (workerErrs (queue s)) id in
      if cbThreshold (queue s) <=? errCount
      then emit (ObsPrint (CircuitOpen id errCount bo)) s
      else s.

(** [Queue.deliver] *)
Definition deliver (w : World) (event : queuedEvent) (s : Sys) : Sys :=
  fold_left (deliver_to w event) (subscribers (queue s)) s.

(** The loop of [resetIfNeeded] over the keys of [workerErrs]. *)
Definition reset_ids (ids : list string) (q : Queue) : Queue :=
  fold_right
    (fun id q =>
       set_health (<[id := 0]> (workerErrs q))
         (<[id := zeroTime]> (nextAllowed q))
         (<[id := backoffMin q]> (backoff q)) q)
    q ids.

(** [Queue.resetIfNeeded] *)
Definition resetIfNeeded (q : Queue) : Queue :=
  if cbReset q <=? 0 then q
  else reset_ids (map fst (map_to_list (workerErrs q))) q.

(** The consumer goroutine of [start], one turn of its select at a time.
    [worker_recv] is the case that receives from [events]: it delivers the
    oldest buffered event, or returns when the channel is closed and empty
    (with an open, empty channel the case is not ready and nothing
    happens). *)
Definition worker_recv (w : World) (s : Sys) : Sys :=
  if wg_done (queue s) then s
  else
    match events (queue s) with
    | ev :: rest => deliver w ev (on_queue (set_events rest) s)
    | [] =>
        if events_closed (queue s) then on_queue (set_wg_done true) s else s
    end.

(** [worker_tick] is the case that receives from [flushTick.C]. *)
Definition worker_tick (s : Sys) : Sys :=
  if wg_done (queue s) then s else on_queue resetIfNeeded s.

(** What the consumer does once the channel is closed, until it returns:
    it delivers the [evs] still buffered, in order.  A tick that the ticker
    had already sent may be received on the way; [tick_at = Some i] says it
    is received before the [i]-th remaining event. *)
Fixpoint drain (w : World) (evs : list queuedEvent) (tick_at : option nat)
    (s : Sys) : Sys :=
  let s := match tick_at with Some O => worker_tick s | _ => s end in
  let tick_at' := match tick_at with Some (S i) => Some i | _ => None end in
  match evs with
  | [] => on_queue (set_wg_done true) s
  | ev :: rest =>
      drain w rest tick_at' (deliver w ev (on_queue (set_events rest) s))
  end.

(** The loop that closes the subscribers; the error is discarded. *)
Definition close_all (w : World) (subs : list Subscriber) (s : Sys) : Sys :=
  fold_left (fun s sub => let _ := close_ok w sub in emit (ObsClose sub) s) subs s.

(** [Queue.Shutdown]; the result is the returned error ([None] for nil). *)
Definition Shutdown (w : World) (tick_at : option nat) (s : Sys)
    : Outcome (option string * Sys) :=
  if closed (queue s) then Returned (None, s)
  else
    let s := on_queue (set_closed true) s in
    if events_closed (queue s) then Panicked "close of closed channel"
    else
      let s := on_queue (set_events_closed true) s in
      let s := on_queue (set_flushTick_stopped true) s in
      let s := if wg_done (queue s) then s
               else drain w (events (queue s)) tick_at s in
      let s := close_all w (subscribers (queue s)) s in
      Returned (None, s).

(** The calls made on a queue and the turns of its consumer. *)
Inductive Op : Type :=
| OpTrack (ctx : Context) (name : string) (properties : gmap string any)
| OpRecv
| OpTick
| OpShutdown (tick_at : option nat).

Definition step (w : World) (op : Op) (s : Sys) : Outcome Sys :=
  match op with
  | OpTrack ctx name properties => Track ctx name properties s
  | OpRecv => Returned (worker_recv w s)
  | OpTick => Returned (worker_tick s)
  | OpShutdown tick_at =>
      match Shutdown w tick_at s with
      | Returned (_, s') => Returned s'
      | Panicked msg => Panicked msg
      end
  end.

Fixpoint run (w : World) (ops : list Op) (s : Sys) : Outcome Sys :=
  match ops with
  | [] => Returned s
  | op :: ops' =>
      match step w op s with
      | Returned s' => run w ops' s'
      | Panicked msg => Panicked msg
      end
  end.

End Subscribers.

(* ===================================================================== *)
(** ** Reading the observations and the reachable states                  *)
(* ===================================================================== *)

Module QueueObs.
Import GoInt GoTime GoFmt Trace Subscribers.

Definition is_print (o : Obs) : Prop :=
  match o with ObsPrint _ => True | _ => False end.

(** Two queues that differ in the three health maps at most. *)
Definition same_but_health (q q' : Queue) : Prop :=
  exists errs next bo, q' = set_health errs next bo q.

(** The subscribers closed, in order. *)
Definition closes (obs : list Obs) : list Subscriber :=
  flat_map (fun o => match o with ObsClose sub => [sub] | _ => [] end) obs.

(** The events handed to [sub]'s [Send], in order. *)
Definition sent_to (sub : Subscriber) (obs : list Obs)
    : list (string * gmap string any) :=
  flat_map
    (fun o =>
       match o with
       | ObsSend _ sub' event props _ =>
           if Subscriber_eqb sub sub' then [(event, props)] else []
       | _ => []
       end) obs.

(** A state of the system that some sequence of calls and consumer turns
    produces from a newly built queue. *)
Definition reachable (w : World) (s : Sys) : Prop :=
  exists cfg subs ops,
    run w ops (boot (NewQueueWithConfig cfg subs)) = Returned s.

(** The channel is closed exactly when [Shutdown] has run, the consumer
    returns only after that, and no subscriber is closed before. *)
Definition lifecycle_ok (s : Sys) : Prop :=
  events_closed (queue s) = closed (queue s) /\
  (wg_done (queue s) = true -> closed (queue s) = true) /\
  (closed (queue s) = false -> closes (observed s) = []).

(** Sample values for the closed instances below: two webhook subscribers,
    an in-memory one, and a world whose clock advances by one millisecond
    per reading and in which exactly the subscriber at address 1 fails. *)
Definition webhookA : Subscriber := mkSubscriber 1 "*subscribers.WebhookSubscriber".
Definition webhookB : Subscriber := mkSubscriber 2 "*subscribers.WebhookSubscriber".
Definition inMemory : Subscriber := mkSubscriber 3 "*subscribers.InMemorySubscriber".

Definition sample_world : World :=
  {| clock := fun n => 1700000000 * Second + Z.of_nat n * Millisecond;
     send_ok := fun _ sub _ _ => negb (Nat.eqb (sub_addr sub) 1);
     close_ok := fun _ => true |}.

Definition default_config : QueueConfig := mkQueueConfig 0 0 0 0 0 0.

(** A recording span with a valid span context, and a context that carries
    it together with an operation name. *)
Definition sample_trace_id : TraceID :=
  [Byte.x71; Byte.x30; Byte.xbb; Byte.x6d; Byte.x5b; Byte.xb4; Byte.xef; Byte.x40;
   Byte.xa1; Byte.xb2; Byte.xc3; Byte.xd4; Byte.xe5; Byte.xf6; Byte.x07; Byte.x18].
Definition sample_span_id : SpanID :=
  [Byte.x00; Byte.xf0; Byte.x67; Byte.xaa; Byte.x0b; Byte.xa9; Byte.x02; Byte.xb7].
Definition sample_ctx : Context :=
  {| ctx_span := Some (mkSpan true (mkSpanContext sample_trace_id sample_span_id));
     ctx_operationName := Some "checkout" |}.

Definition sample_event : queuedEvent :=
  mkQueuedEvent "order.completed" {[ "amount" := AInt 42 ]} "".

(** Thirty-two, or sixteen, lower-case hex characters. *)
Definition is_lower_hex (c : ascii) : bool :=
  existsb (Ascii.eqb c) ldigits.
Definition lower_hex_of_length (n : nat) (v : option any) : Prop :=
  exists str, v = Some (AString str) /\ String.length str = n /\
    forallb is_lower_hex (list_ascii_of_string str) = true.

Definition always_fails (w : World) (sub : Subscriber) : Prop :=
  forall n event props, send_ok w n sub event props = false.

Definition always_succeeds (w : World) (sub : Subscriber) : Prop :=
  forall n event props, send_ok w n sub event props = true.

(** Isolation of B from A on the queues that register exactly these two
    subscribers, in either order: in every state such a queue reaches, B's
    record is not in backoff; an event handed to [deliver] is sent to B,
    once; and an iteration for A whose clock reading lies before A's
    [nextAllowed] sends nothing. *)
Definition isolated (w : World) (A B : Subscriber) : Prop :=
  forall cfg subs ops s ev,
    subs = [A; B] \/ subs = [B; A] ->
    run w ops (boot (NewQueueWithConfig cfg subs)) = Returned s ->
    at_key (nextAllowed (queue s)) (sub_type B) = 0 /\
    sent_to B (observed (deliver w ev s)) =
      sent_to B (observed s) ++ [(name ev, properties ev)] /\
    (forall s',
       in_backoff (clock w (readings s')) (queue s') (sub_type A) = true ->
       observed (deliver_to w ev s' A) = observed s').

Definition isolation_claim (w : World) (A B : Subscriber) : Prop :=
  always_fails w A -> always_succeeds w B -> isolated w A B.

(** The queue registers exactly A and B, and B's record is clear. *)
Definition B_clear (A B : Subscriber) (s : Sys) : Prop :=
  (subscribers (queue s) = [A; B] \/ subscribers (queue s) = [B; A]) /\
  at_key (nextAllowed (queue s)) (sub_type B) = 0.

(** A configuration, or a queue, with another circuit reset interval. *)
Definition with_CircuitReset (r : Duration) (cfg : QueueConfig) : QueueConfig :=
  mkQueueConfig (QueueSize cfg) (FlushInterval cfg) (CircuitThreshold cfg)
    (BackoffMin cfg) (BackoffMax cfg) r.

Definition set_cbReset (r : Duration) (q : Queue) : Queue :=
  mkQueue (events q) (events_cap q) (events_closed q) (subscribers q) (wg_done q)
    (closed q) (cbThreshold q) (flushTick q) (flushTick_stopped q)
    (workerErrs q) (nextAllowed q) (backoff q) (backoffMin q) (backoffMax q) r.

Definition outcome_map {A B : Type} (f : A -> B) (o : Outcome A) : Outcome B :=
  match o with
  | Returned a => Returned (f a)
  | Panicked msg => Panicked msg
  end.


Definition successes_of (id : string) (obs : list Obs) : list Time :=
  flat_map
    (fun o =>
       match o with
       | ObsSend now sub _ _ true =>
           if String.eqb (sub_type sub) id then [now] else []
       | _ => []
       end) obs.




(** The configuration for which doubling a backoff cannot overflow. *)
Definition backoff_config_ok (q : Queue) : Prop :=
  0 < backoffMin q /\ 0 < backoffMax q /\ 2 * backoffMax q <= max_int64.


(** A world whose clock advances by one second per reading, and a queue
    with default tuning, one always-failing webhook subscriber and two
    events already buffered. *)
Definition slow_world : World :=
  {| clock := fun n => 1700000000 * Second + Z.of_nat n * Second;
     send_ok := fun _ sub _ _ => negb (Nat.eqb (sub_addr sub) 1);
     close_ok := fun _ => true |}.

Definition two_buffered : Sys :=
  mkSys (set_events [sample_event; sample_event] (NewQueue [webhookA])) 0 [].

End QueueObs.

(* ===================================================================== *)
(** ** float64                                                            *)
(* ===================================================================== *)

(** Go's [float64] is IEEE-754 binary64 with round-to-nearest-even: the
    primitive type [float], whose operations are specified on [spec_float]
    by [Prim2SF].  The predicates below read a [spec_float]. *)
Module Binary64.
Import Floats.

Abbreviation fexp64 := (fexp prec emax).
Abbreviation emin64 := (-1074).

(** Not a NaN and not below zero (an infinity is allowed). *)
Definition nonneg (x : spec_float) : Prop :=
  match x with
  | S754_zero _ => True
  | S754_finite false _ _ => True
  | S754_infinity false => True
  | _ => False
  end.

(** A zero or a positive finite number. *)
Definition finite_nonneg (x : spec_float) : Prop :=
  match x with
  | S754_zero _ => True
  | S754_finite false _ _ => True
  | _ => False
  end.

(** A zero, or a positive finite number of exponent at most [K]. *)
Definition exp_le (K : Z) (x : spec_float) : Prop :=
  match x with
  | S754_zero _ => True
  | S754_finite false _ e => e <= K
  | _ => False
  end.

(** [1.0] and [1e9]. *)
Definition one64 : spec_float := S754_finite false 4503599627370496 (-52).
Definition billion64 : spec_float := S754_finite false 8388608000000000 (-23).

End Binary64.

(* ===================================================================== *)
(** ** package ratelimit                                                  *)
(* ===================================================================== *)

Module TokenBucket.
Import GoInt GoTime Floats.

(** The conversion [float64(n)] of an [int] or [int64] [n]. *)
Definition float64_of_int (z : Z) : float :=
  match z with
  | Z0 => 0%float
  | Zpos _ => of_uint63 (Uint63.of_Z z)
  | Zneg p =>
      if z =? min_int64 then (- (of_uint63 (Uint63.of_Z (2 ^ 62)) * 2))%float
      else (- of_uint63 (Uint63.of_Z (Z.pos p)))%float
  end.

(** [Duration.Seconds] of package [time]:
    [sec := d / Second; nsec := d % Second;
     return float64(sec) + float64(nsec)/1e9]. *)
Definition Seconds (d : Duration) : float :=
  let sec := Z.quot d Second in
  let nsec := Z.rem d Second in
  (float64_of_int sec + float64_of_int nsec / 1000000000)%float.

(** [type TokenBucket struct] (the mutex is not data). *)
Record TokenBucket : Type := mkTokenBucket {
  rate : float;
  burst : Z;
  tokens : float;
  lastUpdate : Time
}.

(** [NewTokenBucket]; [now] is the reading of [time.Now()]. *)
Definition NewTokenBucket (rate : float) (burst : Z) (now : Time) : TokenBucket :=
  mkTokenBucket rate burst (float64_of_int burst) now.

(** [min] of the package: [if a < b { return a }; return b]. *)
Definition min (a b : float) : float := if (a <? b)%float then a else b.

(** [TokenBucket.Allow]; [now] is the reading of [time.Now()].  The sum
    [tb.tokens+elapsed*tb.rate] is evaluated with a rounding after the
    product and another after the sum. *)
Definition Allow (now : Time) (tb : TokenBucket) : bool * TokenBucket :=
  let elapsed := Seconds (Sub now (lastUpdate tb)) in
  let tokens' := min (float64_of_int (burst tb)) (tokens tb + elapsed * rate tb)%float in
  if (1 <=? tokens')%float
  then (true, mkTokenBucket (rate tb) (burst tb) (tokens' - 1)%float now)
  else (false, mkTokenBucket (rate tb) (burst tb) tokens' now).

End TokenBucket.

(* ===================================================================== *)
(** ** Reading a token bucket                                             *)
(* ===================================================================== *)

Module TokenBucketObs.
Import GoInt GoTime Floats TokenBucket.

(** The amount of tokens after the refill of [Allow], before any is
    taken: the sum of the tokens held and of what the elapsed time earns,
    clamped to the capacity. *)
Definition refilled (now : Time) (tb : TokenBucket) : float :=
  min (float64_of_int (burst tb))
      (tokens tb + Seconds (Sub now (lastUpdate tb)) * rate tb)%float.

(** [0 <= tokens <= burst] *)
Definition within_bounds (tb : TokenBucket) : Prop :=
  (0 <=? tokens tb)%float = true /\
  (tokens tb <=? float64_of_int (burst tb))%float = true.

(** A number that is neither a NaN, nor negative, nor an infinity. *)
Definition finite_nonneg_float (x : float) : Prop :=
  (0 <=? x)%float = true /\ (x <? infinity)%float = true.

(** One call of [Allow], made no earlier than the last update, keeps the
    bounds. *)
Definition invariant_preserved (now : Time) (tb : TokenBucket) : Prop :=
  lastUpdate tb <= now -> within_bounds tb -> within_bounds (snd (Allow now tb)).

End TokenBucketObs.

(* ===================================================================== *)
(** ** Sequences of calls on a circuit breaker                            *)
(* ===================================================================== *)

Module CircuitBreakerRuns.
Import GoInt GoTime CircuitBreaker.

(** A call made on a breaker, with the clock readings it makes. *)
Inductive Call : Type :=
| CallAllow (now now' : Time)
| CallRecordSuccess (now : Time)
| CallRecordFailure (now : Time).

Definition call (c : Call) (cb : CircuitBreaker) : CircuitBreaker :=
  match c with
  | CallAllow now now' => snd (Allow now now' cb)
  | CallRecordSuccess now => RecordSuccess now cb
  | CallRecordFailure now => RecordFailure now cb
  end.

Definition calls (cs : list Call) (cb : CircuitBreaker) : CircuitBreaker :=
  fold_left (fun cb c => call c cb) cs cb.

(** [RecordFailure], or [RecordSuccess], called once at each of the clock
    readings [ts], in order, with no other call in between. *)
Definition failures (ts : list Time) (cb : CircuitBreaker) : CircuitBreaker :=
  fold_left (fun cb t => RecordFailure t cb) ts cb.

Definition successes (ts : list Time) (cb : CircuitBreaker) : CircuitBreaker :=
  fold_left (fun cb t => RecordSuccess t cb) ts cb.

(** What the counters of a breaker are in each state. *)
Definition counters_ok (cb : CircuitBreaker) : Prop :=
  match state cb with
  | StateClosed => 0 <= failureCount cb < failureThreshold cb /\ successCount cb = 0
  | StateOpen => successCount cb = 0
  | StateHalfOpen => 0 <= successCount cb < successThreshold cb
  end.

End CircuitBreakerRuns.
(* ===================================================================== *)
(** ** Sequences of calls on a token bucket                               *)
(* ===================================================================== *)

Module TokenBucketRuns.
Import GoInt GoTime Floats Binary64 TokenBucket TokenBucketObs.

(** [Allow] called once at each of the clock readings [nows], in order:
    the answers, and the bucket that is left. *)
Fixpoint Allows (nows : list Time) (tb : TokenBucket) : list bool * TokenBucket :=
  match nows with
  | [] => ([], tb)
  | now :: rest =>
      let '(ok, tb1) := Allow now tb in
      let '(oks, tb2) := Allows rest tb1 in
      (ok :: oks, tb2)
  end.

(** Clock readings that never go back: each is no earlier than [t] and
    than the readings before it. *)
Fixpoint from_time (t : Time) (nows : list Time) : Prop :=
  match nows with
  | [] => True
  | now :: rest => t <= now /\ from_time now rest
  end.

(** The number [x] is the integer [k], which is not negative. *)
Definition holds_int (k : Z) (x : spec_float) : Prop :=
  match x with
  | S754_zero false => k = 0
  | S754_finite false m e => -52 <= e /\ Z.pos m * 2 ^ (e + 52) = k * 2 ^ 52
  | _ => False
  end.

End TokenBucketRuns.
(* ===================================================================== *)
(** ** Reading the runs of a queue                                        *)
(* ===================================================================== *)

Module QueueRuns.
Import GoInt GoTime GoFmt Trace Subscribers QueueObs.

(** The parameters a queue is built with, which nothing writes later. *)
Definition same_tuning (q q' : Queue) : Prop :=
  events_cap q' = events_cap q /\
  subscribers q' = subscribers q /\
  cbThreshold q' = cbThreshold q /\
  flushTick q' = flushTick q /\
  backoffMin q' = backoffMin q /\
  backoffMax q' = backoffMax q /\
  cbReset q' = cbReset q.

(** The buffer holds no more than the capacity of the channel. *)
Definition within_capacity (s : Sys) : Prop :=
  Z.of_nat (length (events (queue s))) <= events_cap (queue s).

(** The three health maps have the same keys: a key missing from
    [workerErrs] is missing from the other two. *)
Definition health_keys_ok (q : Queue) : Prop :=
  forall id, workerErrs q !! id = None ->
    nextAllowed q !! id = None /\ backoff q !! id = None.

(** A configuration, or a queue, with another circuit threshold. *)
Definition with_CircuitThreshold (t : Z) (cfg : QueueConfig) : QueueConfig :=
  mkQueueConfig (QueueSize cfg) (FlushInterval cfg) t
    (BackoffMin cfg) (BackoffMax cfg) (CircuitReset cfg).

Definition set_cbThreshold (t : Z) (q : Queue) : Queue :=
  mkQueue (events q) (events_cap q) (events_closed q) (subscribers q) (wg_done q)
    (closed q) t (flushTick q) (flushTick_stopped q)
    (workerErrs q) (nextAllowed q) (backoff q) (backoffMin q) (backoffMax q)
    (cbReset q).

(** What is observed apart from the diagnostics printed: the calls of
    [Send] with their results, and the calls of [Close]. *)
Definition is_action (o : Obs) : bool :=
  match o with ObsPrint _ => false | _ => true end.

Definition actions (obs : list Obs) : list Obs := List.filter is_action obs.

(** Two states that differ in the circuit threshold and in the
    diagnostics printed, at most. *)
Definition same_but_threshold (s s' : Sys) : Prop :=
  (exists t, queue s' = set_cbThreshold t (queue s)) /\
  readings s' = readings s /\
  actions (observed s') = actions (observed s).

Definition same_outcome (o o' : Outcome Sys) : Prop :=
  match o, o' with
  | Returned s, Returned s' => same_but_threshold s s'
  | Panicked msg, Panicked msg' => msg = msg'
  | _, _ => False
  end.

(** A world in which every [Send] returns nil. *)
Definition all_succeed (w : World) : Prop :=
  forall n sub event props, send_ok w n sub event props = true.

(** Such a world, with a clock that advances by one millisecond per
    reading. *)
Definition calm_world : World :=
  {| clock := fun n => 1700000000 * Second + Z.of_nat n * Millisecond;
     send_ok := fun _ _ _ _ => true;
     close_ok := fun _ => true |}.

(** No destination is waiting. *)
Definition none_waiting (s : Sys) : Prop :=
  forall id, at_key (nextAllowed (queue s)) id = 0.

(** No backoff stored is negative. *)
Definition backoffs_nonneg (q : Queue) : Prop :=
  forall id, 0 <= at_key (backoff q) id.

(** What [Send] is handed for an event. *)
Definition payload (ev : queuedEvent) : string * gmap string any :=
  (name ev, properties ev).

End QueueRuns.
(* ===================================================================== *)
(** ** package autolemetry: trace identifiers and the gate of [Start]     *)
(* ===================================================================== *)

Module Autolemetry.
Import GoInt GoTime GoFmt Trace.

(** [GetTraceID] *)
Definition GetTraceID (ctx : Context) : string :=
  let span := SpanFromContext ctx in
  if IsRecording span then
    let sc := GetSpanContext span in
    if SpanContext_IsValid sc
    then Sprintf_0x_Stringer 32 (ID_String (sc_TraceID sc))
    else ""
  else "".

(** [GetSpanID] *)
Definition GetSpanID (ctx : Context) : string :=
  let span := SpanFromContext ctx in
  if IsRecording span then
    let sc := GetSpanContext span in
    if SpanContext_IsValid sc
    then Sprintf_0x_Stringer 16 (ID_String (sc_SpanID sc))
    else ""
  else "".

(** The package variables [globalRateLimiter] and [globalCircuitBreaker]:
    nil, or the limiter and the breaker that [Init] stored. *)
Record Globals : Type := mkGlobals {
  globalRateLimiter : option TokenBucket.TokenBucket;
  globalCircuitBreaker : option CircuitBreaker.CircuitBreaker
}.

(** The span [Start] returns: [&noopSpan{}], or [&spanImpl{span}] around
    the span of the tracer. *)
Inductive StartSpan : Type :=
| NoopSpan
| SpanImpl (span : Span).

(** What [Start] hands to [debugPrint] and [debugSpanStart], and what
    [End] of the span it returns hands to [debugPrint]. *)
Inductive StartDebug : Type :=
| DebugRateLimited (name : string)
| DebugCircuitOpen (name : string)
| DebugSpanStart (sc : SpanContext) (name : string)
| DebugSpanEnd (sc : SpanContext).

(** The clock readings a call of [Start] makes: one in [Allow] of the
    limiter; in [Allow] of the breaker, one in [time.Since] and one in
    [setState]. *)
Record StartClock : Type := mkStartClock {
  now_limiter : Time;
  now_breaker : Time;
  now_breaker' : Time
}.

(** [Start].  [tracer ctx name] is the span that
    [otel.GetTracerProvider().Tracer(tracerName).Start(ctx, name)] creates,
    which it stores in the context it returns. *)
Definition Start (tracer : Context -> string -> Span) (clk : StartClock)
    (g : Globals) (ctx : Context) (name : string)
    : Globals * list StartDebug * (Context * StartSpan) :=
  let rl := match globalRateLimiter g with
            | Some tb =>
                let r := TokenBucket.Allow (now_limiter clk) tb in
                (fst r, Some (snd r))
            | None => (true, None)
            end in
  if negb (fst rl)
  then (mkGlobals (snd rl) (globalCircuitBreaker g), [DebugRateLimited name],
        (ctx, NoopSpan))
  else
    let cb := match globalCircuitBreaker g with
              | Some cb =>
                  let r := CircuitBreaker.Allow (now_breaker clk) (now_breaker' clk) cb in
                  (fst r, Some (snd r))
              | None => (true, None)
              end in
    if negb (fst cb)
    then (mkGlobals (snd rl) (snd cb), [DebugCircuitOpen name], (ctx, NoopSpan))
    else
      let span := tracer ctx name in
      let ctx := mkContext (Some span) (Some name) in
      (mkGlobals (snd rl) (snd cb),
       if IsRecording span then [DebugSpanStart (GetSpanContext span) name] else [],
       (ctx, SpanImpl span)).

(** Calls of [Start], one after the other: the package variables left and
    everything printed. *)
Definition Starts (tracer : Context -> string -> Span)
    (calls : list (StartClock * Context * string)) (g : Globals)
    : Globals * list StartDebug :=
  fold_left
    (fun acc c =>
       let '(clk, ctx, name) := c in
       let r := Start tracer clk (fst acc) ctx name in
       (fst (fst r), snd acc ++ snd (fst r)))
    calls (g, []).

(** [IsRecording] of the span [Start] returns. *)
Definition StartSpan_IsRecording (sp : StartSpan) : bool :=
  match sp with
  | NoopSpan => false
  | SpanImpl span => IsRecording span
  end.

(** [End] of the span [Start] returns: what it prints (the span of the
    tracer is ended outside this model). *)
Definition StartSpan_End (sp : StartSpan) : list StartDebug :=
  match sp with
  | NoopSpan => []
  | SpanImpl span =>
      if IsRecording span then [DebugSpanEnd (GetSpanContext span)] else []
  end.

(** [IsTracingEnabled]: the span it starts is ended as it returns. *)
Definition IsTracingEnabled (tracer : Context -> string -> Span) (clk : StartClock)
    (g : Globals) (ctx : Context) : Globals * list StartDebug * bool :=
  let r := Start tracer clk g ctx "_check" in
  let span := snd (snd r) in
  (fst (fst r), snd (fst r) ++ StartSpan_End span, StartSpan_IsRecording span).

Definition is_DebugCircuitOpen (d : StartDebug) : Prop :=
  match d with DebugCircuitOpen _ => True | _ => False end.

End Autolemetry.
(* ===================================================================== *)
(** ** package autolemetry: the global event tracker                      *)
(* ===================================================================== *)

Module AutolemetryEvents.
Import GoInt GoTime GoFmt Trace Subscribers QueueObs.

(** The package variable [globalTracker] is nil or the queue that [Init]
    built from the subscribers of the configuration: [option Sys]. *)

(** [autolemetry.Track] *)
Definition Track (ctx : Context) (event : string) (properties : gmap string any)
    (tracker : option Sys) : Outcome (option Sys) :=
  match tracker with
  | Some s => outcome_map Some (Subscribers.Track ctx event properties s)
  | None => Returned None
  end.

(** What the [cleanup] function returned by [Init] does to the global
    tracker: the tracker it leaves, and the queue it has shut down, if
    any. *)
Definition cleanup (w : World) (tick_at : option nat) (tracker : option Sys)
    : Outcome (option Sys * option Sys) :=
  match tracker with
  | Some s =>
      match Subscribers.Shutdown w tick_at s with
      | Returned (_, s') => Returned (None, Some s')
      | Panicked msg => Panicked msg
      end
  | None => Returned (None, None)
  end.

End AutolemetryEvents.

(* ===================================================================== *)
(** * Properties                                                          *)
(* ===================================================================== *)

Module GoIntSpec.
Import GoInt GoTime.

Lemma wrap64_small z : in_int64 z -> wrap64 z = z.
Proof.
  unfold in_int64, wrap64, min_int64, max_int64. intros H.
  rewrite Z.mod_small; lia.
Qed.

Lemma wrap64_range z : in_int64 (wrap64 z).
Proof.
  unfold in_int64, wrap64, min_int64, max_int64.
  pose proof (Z.mod_pos_bound (z + 2 ^ 63) (2 ^ 64)). lia.
Qed.

Lemma Since_gt (now t d : Z) :
  min_int64 <= d < max_int64 -> (d < Since now t <-> d < now - t).
Proof.
  unfold Since, Sub, sat64, min_int64, max_int64. intros Hd.
  destruct (Z.ltb_spec (now - t) (- 2 ^ 63)); [lia|].
  destruct (Z.ltb_spec (2 ^ 63 - 1) (now - t)); lia.
Qed.

End GoIntSpec.

Module CircuitBreakerSpec.
Import GoInt GoTime GoIntSpec CircuitBreaker.

(** Allow never touches the counters: the failure counter that tripped the
    breaker is still there when the breaker half-opens. *)
Lemma Allow_keeps_counters now now' cb :
  failureCount (snd (Allow now now' cb)) = failureCount cb /\
  successCount (snd (Allow now now' cb)) = successCount cb.
Proof.
  unfold Allow. destruct (state cb); simpl; auto.
  destruct (timeout cb <? Since now (lastStateChange cb)); simpl; auto.
Qed.

(** C3: in the HalfOpen state RecordFailure takes the general failure path.
    It increments the failure counter (Go's [++] on an int) and clears the
    success counter; the breaker goes back to Open exactly when the
    incremented counter has reached failureThreshold, and otherwise stays
    HalfOpen with its transition time untouched.  The transitions out of
    Closed do not reset the failure counter: Allow, which performs the Open
    to HalfOpen transition, leaves it as it is, and so does a success in
    HalfOpen that does not yet close the breaker. *)
Theorem RecordFailure_HalfOpen_general_path (now : Time) (cb : CircuitBreaker) :
  state cb = StateHalfOpen ->
  failureCount (RecordFailure now cb) = wrap64 (failureCount cb + 1) /\
  successCount (RecordFailure now cb) = 0 /\
  (state (RecordFailure now cb) = StateOpen <->
     failureThreshold cb <= wrap64 (failureCount cb + 1)) /\
  (state (RecordFailure now cb) = StateHalfOpen <->
     wrap64 (failureCount cb + 1) < failureThreshold cb) /\
  (wrap64 (failureCount cb + 1) < failureThreshold cb ->
     lastStateChange (RecordFailure now cb) = lastStateChange cb) /\
  (forall (n n' : Time) (c : CircuitBreaker),
     failureCount (snd (Allow n n' c)) = failureCount c) /\
  (forall (n : Time) (c : CircuitBreaker),
     state c = StateHalfOpen ->
     wrap64 (successCount c + 1) < successThreshold c ->
     failureCount (RecordSuccess n c) = failureCount c).
Proof.
  intros Hs. unfold RecordFailure. cbn [failureThreshold failureCount set_successCount set_failureCount].
  assert (HA : forall (n n' : Time) (c : CircuitBreaker),
             failureCount (snd (Allow n n' c)) = failureCount c)
    by (intros n n' c; apply Allow_keeps_counters).
  assert (HS : forall (n : Time) (c : CircuitBreaker),
             state c = StateHalfOpen ->
             wrap64 (successCount c + 1) < successThreshold c ->
             failureCount (RecordSuccess n c) = failureCount c).
  { intros n c Hc Hlt. unfold RecordSuccess. rewrite Hc. cbn.
    destruct (Z.leb_spec (successThreshold c) (wrap64 (successCount c + 1)));
      [lia|reflexivity]. }
  destruct (Z.leb_spec (failureThreshold cb) (wrap64 (failureCount cb + 1))) as [Hle|Hlt];
    cbn; rewrite ?Hs.
  - repeat split; try reflexivity; try lia; try discriminate; assumption.
  - repeat split; try reflexivity; try lia; try discriminate; assumption.
Qed.

Lemma RecordFailure_HalfOpen_general_path_witness :
  state (RecordFailure 50 (mkCircuitBreaker StateHalfOpen 0 1 3 2 100 7)) = StateHalfOpen <->
  wrap64 (0 + 1) < 3.
Proof.
  exact (proj1 (proj2 (proj2 (proj2
    (RecordFailure_HalfOpen_general_path 50
       (mkCircuitBreaker StateHalfOpen 0 1 3 2 100 7) eq_refl))))).
Defined.

(** A success recorded while the breaker is Open or Closed is what clears
    the failure counter. *)
Remark RecordSuccess_clears_failures (now : Time) (cb : CircuitBreaker) :
  state cb <> StateHalfOpen -> failureCount (RecordSuccess now cb) = 0.
Proof. intros H. unfold RecordSuccess. destruct (state cb); [reflexivity..|contradiction]. Qed.

(** The path Closed -> Open -> HalfOpen leaves the counter at the threshold,
    so on that path the first failure of a probe reopens the breaker. *)
Remark reopen_after_trip (now now' t : Time) (cb : CircuitBreaker) :
  state cb = StateOpen ->
  failureThreshold cb <= failureCount cb ->
  in_int64 (failureCount cb + 1) ->
  timeout cb < Since now (lastStateChange cb) ->
  state (snd (Allow now now' cb)) = StateHalfOpen /\
  state (RecordFailure t (snd (Allow now now' cb))) = StateOpen.
Proof.
  intros Hs Hc Hr Ht. unfold Allow. rewrite Hs.
  destruct (Z.ltb_spec (timeout cb) (Since now (lastStateChange cb))); [|lia].
  cbn. split; [reflexivity|].
  unfold RecordFailure. cbn.
  rewrite wrap64_small by exact Hr.
  destruct (Z.leb_spec (failureThreshold cb) (failureCount cb + 1)); [reflexivity|lia].
Qed.

(** C7: the breaker built with failureThreshold = 3, successThreshold = 2 and
    timeout = 100ms.  It starts Closed and is still Closed after two
    failures; the third failure opens it.  While at most 100ms have passed
    since that transition Allow returns false and changes nothing; once more
    than 100ms have passed Allow returns true and the breaker is HalfOpen;
    from there one success keeps it HalfOpen and the second closes it. *)
Theorem breaker_3_2_100ms (t0 t1 t2 t3 a a' b b' s1 s2 : Time) :
  a - t3 <= 100 * Millisecond ->
  100 * Millisecond < b - t3 ->
  let cb0 := NewCircuitBreaker 3 2 (100 * Millisecond) t0 in
  let cb2 := RecordFailure t2 (RecordFailure t1 cb0) in
  let cb3 := RecordFailure t3 cb2 in
  let cb4 := snd (Allow b b' cb3) in
  state cb0 = StateClosed /\
  state cb2 = StateClosed /\
  state cb3 = StateOpen /\
  Allow a a' cb3 = (false, cb3) /\
  fst (Allow b b' cb3) = true /\
  state cb4 = StateHalfOpen /\
  state (RecordSuccess s1 cb4) = StateHalfOpen /\
  state (RecordSuccess s2 (RecordSuccess s1 cb4)) = StateClosed.
Proof.
  intros Ha Hb. cbv zeta.
  assert (Hd : min_int64 <= 100 * Millisecond < max_int64)
    by (unfold min_int64, max_int64, Millisecond; lia).
  assert (Hopen : RecordFailure t3 (RecordFailure t2 (RecordFailure t1
            (NewCircuitBreaker 3 2 (100 * Millisecond) t0)))
          = mkCircuitBreaker StateOpen 3 0 3 2 (100 * Millisecond) t3) by reflexivity.
  rewrite Hopen.
  assert (HA : Allow a a' (mkCircuitBreaker StateOpen 3 0 3 2 (100 * Millisecond) t3)
               = (false, mkCircuitBreaker StateOpen 3 0 3 2 (100 * Millisecond) t3)).
  { unfold Allow. cbn [state timeout lastStateChange].
    destruct (Z.ltb_spec (100 * Millisecond) (Since a t3)) as [H|H]; [|reflexivity].
    apply Since_gt in H; [lia|exact Hd]. }
  assert (HB : Allow b b' (mkCircuitBreaker StateOpen 3 0 3 2 (100 * Millisecond) t3)
               = (true, mkCircuitBreaker StateHalfOpen 3 0 3 2 (100 * Millisecond) b')).
  { unfold Allow. cbn [state timeout lastStateChange].
    destruct (Z.ltb_spec (100 * Millisecond) (Since b t3)) as [H|H]; [reflexivity|].
    assert (100 * Millisecond < Since b t3) by (apply Since_gt; [exact Hd|lia]). lia. }
  rewrite HA, HB. repeat split; reflexivity.
Qed.

Lemma breaker_3_2_100ms_witness :
  state (RecordSuccess 400000000 (RecordSuccess 300000000
    (snd (Allow 250000000 250000001
       (RecordFailure 30 (RecordFailure 20 (RecordFailure 10
          (NewCircuitBreaker 3 2 (100 * Millisecond) 0)))))))) = StateClosed.
Proof.
  assert (Ha : 40 - 30 <= 100 * Millisecond) by (vm_compute; discriminate).
  assert (Hb : 100 * Millisecond < 250000000 - 30) by (vm_compute; reflexivity).
  exact (proj2 (proj2 (proj2 (proj2 (proj2 (proj2 (proj2
    (breaker_3_2_100ms 0 10 20 30 40 41 250000000 250000001 300000000 400000000
       Ha Hb)))))))).
Defined.

End CircuitBreakerSpec.

Module QueueSpec.
Import GoInt GoTime GoIntSpec GoFmt Trace Subscribers QueueObs.

(** *** What an iteration of [deliver] can do *)

Lemma deliver_to_cases w ev s sub :
  let id := sub_type sub in
  let now := clock w (readings s) in
  (in_backoff now (queue s) id = true /\
   deliver_to w ev s sub = tick_clock s)
  \/
  (in_backoff now (queue s) id = false /\
   send_ok w (readings s) sub (name ev) (properties ev) = true /\
   deliver_to w ev s sub =
     mkSys (record_success id (queue s)) (S (readings s))
       (observed s ++ [ObsSend now sub (name ev) (properties ev) true]))
  \/
  (in_backoff now (queue s) id = false /\
   send_ok w (readings s) sub (name ev) (properties ev) = false /\
   exists tail,
     Forall is_print tail /\
     deliver_to w ev s sub =
       mkSys (record_failure now id (queue s)) (S (readings s))
         (observed s ++ ObsSend now sub (name ev) (properties ev) false :: tail)).
Proof.
  cbv zeta. unfold deliver_to. cbn [tick_clock queue readings observed].
  destruct (in_backoff (clock w (readings s)) (queue s) (sub_type sub)) eqn:Hb.
  - left. split; reflexivity.
  - right.
    destruct (send_ok w (readings s) sub (name ev) (properties ev)) eqn:Hok.
    + left. repeat split; reflexivity.
    + right. repeat split.
      unfold emit, on_queue. cbn [queue readings observed].
      match goal with |- context [if ?c then _ else _] => destruct c end.
      * eexists. split; cycle 1.
        { unfold tick_clock. cbn [queue readings observed].
          f_equal. rewrite <- !app_assoc. reflexivity. }
        cbn. repeat constructor.
      * eexists. split; cycle 1.
        { unfold tick_clock. cbn [queue readings observed].
          f_equal. rewrite <- !app_assoc. reflexivity. }
        cbn. repeat constructor.
Qed.

Lemma same_but_health_refl q : same_but_health q q.
Proof. exists (workerErrs q), (nextAllowed q), (backoff q). destruct q; reflexivity. Qed.

Lemma same_but_health_trans q1 q2 q3 :
  same_but_health q1 q2 -> same_but_health q2 q3 -> same_but_health q1 q3.
Proof.
  intros (e1 & n1 & b1 & ->) (e2 & n2 & b2 & ->).
  exists e2, n2, b2. reflexivity.
Qed.

Lemma deliver_to_frame w ev s sub :
  same_but_health (queue s) (queue (deliver_to w ev s sub)).
Proof.
  destruct (deliver_to_cases w ev s sub) as [[_ ->]|[(_ & _ & ->)|(_ & _ & tail & _ & ->)]];
    cbn [queue tick_clock].
  - apply same_but_health_refl.
  - eexists _, _, _. reflexivity.
  - eexists _, _, _. reflexivity.
Qed.

Lemma fold_deliver_to_frame w ev subs s :
  same_but_health (queue s) (queue (fold_left (deliver_to w ev) subs s)).
Proof.
  revert s. induction subs as [|sub subs IH]; intros s; cbn [fold_left].
  - apply same_but_health_refl.
  - eapply same_but_health_trans; [apply deliver_to_frame|apply IH].
Qed.

Lemma deliver_frame w ev s : same_but_health (queue s) (queue (deliver w ev s)).
Proof. apply fold_deliver_to_frame. Qed.

Lemma reset_ids_frame ids q : same_but_health q (reset_ids ids q).
Proof.
  induction ids as [|id ids IH]; cbn [reset_ids fold_right].
  - apply same_but_health_refl.
  - eapply same_but_health_trans; [exact IH|]. eexists _, _, _. reflexivity.
Qed.

Lemma resetIfNeeded_frame q : same_but_health q (resetIfNeeded q).
Proof.
  unfold resetIfNeeded. destruct (cbReset q <=? 0).
  - apply same_but_health_refl.
  - apply reset_ids_frame.
Qed.

Lemma worker_tick_frame s : same_but_health (queue s) (queue (worker_tick s)).
Proof.
  unfold worker_tick. destruct (wg_done (queue s)).
  - apply same_but_health_refl.
  - apply resetIfNeeded_frame.
Qed.

Lemma same_but_health_fields q q' :
  same_but_health q q' ->
  events q' = events q /\ events_cap q' = events_cap q /\
  events_closed q' = events_closed q /\ subscribers q' = subscribers q /\
  wg_done q' = wg_done q /\ closed q' = closed q /\
  cbThreshold q' = cbThreshold q /\ flushTick q' = flushTick q /\
  flushTick_stopped q' = flushTick_stopped q /\
  backoffMin q' = backoffMin q /\ backoffMax q' = backoffMax q /\
  cbReset q' = cbReset q.
Proof. intros (e & n & b & ->). repeat split. Qed.

Ltac frame_fields H :=
  let F := fresh "F" in
  pose proof (same_but_health_fields _ _ H) as F;
  destruct F as (? & ? & ? & ? & ? & ? & ? & ? & ? & ? & ? & ?).

(** *** The consumer's last run *)

Lemma worker_tick_step_fields tick_at s :
  same_but_health (queue s)
    (queue (match tick_at with Some O => worker_tick s | _ => s end)).
Proof.
  destruct tick_at as [[|i]|];
    [apply worker_tick_frame|apply same_but_health_refl..].
Qed.

Lemma drain_fields w evs : forall tick_at s,
  events (queue s) = evs ->
  events (queue (drain w evs tick_at s)) = [] /\
  wg_done (queue (drain w evs tick_at s)) = true /\
  closed (queue (drain w evs tick_at s)) = closed (queue s) /\
  events_closed (queue (drain w evs tick_at s)) = events_closed (queue s) /\
  subscribers (queue (drain w evs tick_at s)) = subscribers (queue s).
Proof.
  induction evs as [|ev rest IH]; intros tick_at s He; cbn [drain].
  - pose proof (worker_tick_step_fields tick_at s) as F. frame_fields F.
    cbn. repeat split; congruence.
  - pose proof (worker_tick_step_fields tick_at s) as F. frame_fields F.
    set (s1 := match tick_at with Some O => worker_tick s | _ => s end) in *.
    pose proof (deliver_frame w ev (on_queue (set_events rest) s1)) as G.
    frame_fields G. cbn in *.
    match goal with |- context [drain w rest ?t ?x] =>
      destruct (IH t x) as (I1 & I2 & I3 & I4 & I5); [congruence|] end.
    repeat split; congruence.
Qed.

(** *** Invariants of the system

    A property of the system that every elementary action keeps is kept by
    delivery, by the consumer, by [Track] and [Shutdown] when they return,
    and so by every run. *)

Section Invariant.

Variable w : World.
Variable P : Sys -> Prop.

Hypothesis P_set_events :
  forall s evs, P s -> P (on_queue (set_events evs) s).
Hypothesis P_queue_full :
  forall s event, P s -> P (emit (ObsPrint (QueueFull event)) s).
Hypothesis P_deliver_to :
  forall s ev sub, P s -> In sub (subscribers (queue s)) -> P (deliver_to w ev s sub).
Hypothesis P_reset :
  forall s, P s -> P (on_queue resetIfNeeded s).
Hypothesis P_wg_done :
  forall s, P s -> events_closed (queue s) = true ->
    P (on_queue (set_wg_done true) s).
Hypothesis P_shutdown_flags :
  forall s, P s -> closed (queue s) = false ->
    P (on_queue (set_flushTick_stopped true)
         (on_queue (set_events_closed true) (on_queue (set_closed true) s))).
Hypothesis P_close_all :
  forall s, P s -> closed (queue s) = true ->
    P (close_all w (subscribers (queue s)) s).

Lemma inv_fold_deliver_to ev subs : forall s,
  P s -> incl subs (subscribers (queue s)) ->
  P (fold_left (deliver_to w ev) subs s).
Proof.
  induction subs as [|sub subs IH]; intros s Hs Hin; cbn [fold_left]; [exact Hs|].
  apply IH.
  - apply P_deliver_to; [exact Hs|]. apply Hin. left. reflexivity.
  - pose proof (deliver_to_frame w ev s sub) as F. frame_fields F.
    intros x Hx. replace (subscribers (queue (deliver_to w ev s sub)))
      with (subscribers (queue s)) by congruence.
    apply Hin. right. exact Hx.
Qed.

Lemma inv_deliver ev s : P s -> P (deliver w ev s).
Proof. intros Hs. apply inv_fold_deliver_to; [exact Hs|apply incl_refl]. Qed.

Lemma inv_worker_tick s : P s -> P (worker_tick s).
Proof. unfold worker_tick. destruct (wg_done (queue s)); auto. Qed.

Lemma inv_worker_recv s : P s -> P (worker_recv w s).
Proof.
  unfold worker_recv. intros Hs.
  destruct (wg_done (queue s)); [exact Hs|].
  destruct (events (queue s)) as [|ev rest].
  - destruct (events_closed (queue s)) eqn:E; auto.
  - apply inv_deliver, P_set_events, Hs.
Qed.

Lemma inv_drain evs : forall tick_at s,
  P s -> events_closed (queue s) = true -> P (drain w evs tick_at s).
Proof.
  induction evs as [|ev rest IH]; intros tick_at s Hs Hc; cbn [drain].
  - assert (T : events_closed (queue (worker_tick s)) = true).
    { pose proof (worker_tick_frame s) as F. frame_fields F. congruence. }
    destruct tick_at as [[|i]|]; auto using inv_worker_tick.
  - set (s1 := match tick_at with Some O => worker_tick s | _ => s end).
    assert (H1 : P s1 /\ events_closed (queue s1) = true).
    { subst s1. destruct tick_at as [[|i]|]; auto. split; [apply inv_worker_tick, Hs|].
      pose proof (worker_tick_frame s) as F. frame_fields F. congruence. }
    destruct H1 as [P1 C1].
    apply IH; [apply inv_deliver, P_set_events, P1|].
    pose proof (deliver_frame w ev (on_queue (set_events rest) s1)) as F.
    frame_fields F. cbn in *. congruence.
Qed.

Lemma inv_Track ctx name properties s s' :
  P s -> Track ctx name properties s = Returned s' -> P s'.
Proof.
  unfold Track. intros Hs.
  destruct (events_closed (queue s)); [discriminate|].
  destruct (_ <? _); intros [= <-]; auto.
Qed.

Lemma inv_Shutdown tick_at s r s' :
  P s -> Shutdown w tick_at s = Returned (r, s') -> P s'.
Proof.
  unfold Shutdown. intros Hs.
  destruct (closed (queue s)) eqn:Hc; [intros [= <- <-]; exact Hs|].
  cbn [queue on_queue events_closed set_closed].
  destruct (events_closed (queue s)); [discriminate|].
  intros [= <- <-].
  match goal with |- P (close_all w (subscribers (queue ?x)) ?x) => apply (P_close_all x) end;
  cbn [wg_done queue on_queue set_flushTick_stopped set_events_closed set_closed events];
  destruct (wg_done (queue s)).
  - apply (P_shutdown_flags s Hs Hc).
  - apply inv_drain; [apply (P_shutdown_flags s Hs Hc)|reflexivity].
  - reflexivity.
  - match goal with |- context [drain w ?e ?t ?x] =>
      destruct (drain_fields w e t x eq_refl) as (_ & _ & -> & _) end.
    reflexivity.
Qed.

Lemma inv_step op s s' : P s -> step w op s = Returned s' -> P s'.
Proof.
  destruct op as [ctx name props| | |tick_at]; cbn [step]; intros Hs.
  - apply inv_Track, Hs.
  - intros [= <-]. apply inv_worker_recv, Hs.
  - intros [= <-]. apply inv_worker_tick, Hs.
  - destruct (Shutdown w tick_at s) as [[r s1]|msg] eqn:E; [|discriminate].
    intros [= <-]. eapply inv_Shutdown; eauto.
Qed.

Lemma inv_run ops : forall s s', P s -> run w ops s = Returned s' -> P s'.
Proof.
  induction ops as [|op ops IH]; intros s s' Hs; cbn [run].
  - intros [= <-]. exact Hs.
  - destruct (step w op s) as [s1|msg] eqn:E; [|discriminate].
    apply IH. eapply inv_step; eauto.
Qed.

End Invariant.

(** *** Observations only grow, and only [Shutdown] closes subscribers *)

Lemma closes_app a b : closes (a ++ b) = closes a ++ closes b.
Proof. unfold closes. apply flat_map_app. Qed.

Lemma closes_prints tail : Forall is_print tail -> closes tail = [].
Proof.
  induction 1 as [|o tail Ho _ IH]; [reflexivity|].
  destruct o; cbn in *; try contradiction. exact IH.
Qed.

Lemma closes_map_ObsClose subs : closes (map ObsClose subs) = subs.
Proof.
  induction subs as [|sub subs IH]; [reflexivity|].
  cbn. unfold closes in IH. rewrite IH. reflexivity.
Qed.

Lemma deliver_to_obs w ev s sub :
  exists d, observed (deliver_to w ev s sub) = observed s ++ d /\ closes d = [].
Proof.
  destruct (deliver_to_cases w ev s sub) as [[_ ->]|[(_ & _ & ->)|(_ & _ & tail & Ht & ->)]];
    cbn [observed tick_clock].
  - exists []. rewrite app_nil_r. split; reflexivity.
  - eexists. split; reflexivity.
  - eexists. split; [reflexivity|]. cbn. apply closes_prints, Ht.
Qed.

Lemma fold_deliver_to_obs w ev subs : forall s,
  exists d, observed (fold_left (deliver_to w ev) subs s) = observed s ++ d /\ closes d = [].
Proof.
  induction subs as [|sub subs IH]; intros s; cbn [fold_left].
  - exists []. rewrite app_nil_r. split; reflexivity.
  - destruct (deliver_to_obs w ev s sub) as (d1 & H1 & C1).
    destruct (IH (deliver_to w ev s sub)) as (d2 & H2 & C2).
    exists (d1 ++ d2). rewrite H2, H1, <- app_assoc. split; [reflexivity|].
    rewrite closes_app, C1, C2. reflexivity.
Qed.

Lemma deliver_obs w ev s :
  exists d, observed (deliver w ev s) = observed s ++ d /\ closes d = [].
Proof. apply fold_deliver_to_obs. Qed.

Lemma worker_tick_obs s : observed (worker_tick s) = observed s.
Proof. unfold worker_tick. destruct (wg_done (queue s)); reflexivity. Qed.

Lemma worker_recv_obs w s :
  exists d, observed (worker_recv w s) = observed s ++ d /\ closes d = [].
Proof.
  unfold worker_recv.
  destruct (wg_done (queue s)); [exists []; rewrite app_nil_r; auto|].
  destruct (events (queue s)) as [|ev rest].
  - exists []. rewrite app_nil_r. destruct (events_closed (queue s)); auto.
  - apply (deliver_obs w ev (on_queue (set_events rest) s)).
Qed.

Lemma drain_obs w evs : forall tick_at s,
  exists d, observed (drain w evs tick_at s) = observed s ++ d /\ closes d = [].
Proof.
  induction evs as [|ev rest IH]; intros tick_at s; cbn [drain].
  - exists []. rewrite app_nil_r. split; [|reflexivity]. cbn.
    destruct tick_at as [[|i]|]; auto using worker_tick_obs.
  - set (s1 := match tick_at with Some O => worker_tick s | _ => s end).
    assert (O1 : observed s1 = observed s).
    { subst s1. destruct tick_at as [[|i]|]; auto using worker_tick_obs. }
    destruct (deliver_obs w ev (on_queue (set_events rest) s1)) as (d1 & H1 & C1).
    match goal with |- context [drain w rest ?t ?x] =>
      destruct (IH t x) as (d2 & H2 & C2) end.
    exists (d1 ++ d2). rewrite H2, H1. cbn [observed on_queue]. rewrite O1, <- app_assoc.
    split; [reflexivity|]. rewrite closes_app, C1, C2. reflexivity.
Qed.

Lemma close_all_eq w subs : forall s,
  close_all w subs s =
  mkSys (queue s) (readings s) (observed s ++ map ObsClose subs).
Proof.
  unfold close_all.
  induction subs as [|sub subs IH]; intros s; cbn [fold_left map].
  - rewrite app_nil_r. destruct s; reflexivity.
  - rewrite IH. unfold emit. cbn [queue readings observed].
    rewrite <- app_assoc. reflexivity.
Qed.

(** *** The life cycle *)

Lemma lifecycle_ok_boot cfg subs : lifecycle_ok (boot (NewQueueWithConfig cfg subs)).
Proof. repeat split; cbn; congruence. Qed.

Lemma lifecycle_ok_run w ops s s' :
  lifecycle_ok s -> run w ops s = Returned s' -> lifecycle_ok s'.
Proof.
  apply (inv_run w lifecycle_ok); unfold lifecycle_ok.
  - intros s0 evs H. exact H.
  - intros s0 event (H1 & H2 & H3). cbn [queue emit observed]. repeat split; auto.
    intros Hc. rewrite closes_app, (H3 Hc). reflexivity.
  - intros s0 ev sub (H1 & H2 & H3) _.
    pose proof (deliver_to_frame w ev s0 sub) as F. frame_fields F.
    destruct (deliver_to_obs w ev s0 sub) as (d & Hd & Cd).
    split; [congruence|]. split; [intros Hw; etransitivity; [|apply H2]; congruence|].
    intros Hc. rewrite Hd, closes_app, Cd, H3 by congruence. reflexivity.
  - intros s0 (H1 & H2 & H3).
    pose proof (resetIfNeeded_frame (queue s0)) as F. frame_fields F.
    cbn [queue on_queue observed].
    split; [congruence|]. split; [intros Hw; etransitivity; [|apply H2]; congruence|].
    intros Hc. apply H3. congruence.
  - intros s0 (H1 & H2 & H3) Hc. cbn. repeat split; congruence.
  - intros s0 (H1 & H2 & H3) Hc. cbn. repeat split; congruence.
  - intros s0 (H1 & H2 & H3) Hc. rewrite close_all_eq. cbn. repeat split; congruence.
Qed.

Lemma reachable_lifecycle_ok w s : reachable w s -> lifecycle_ok s.
Proof.
  intros (cfg & subs & ops & Hrun).
  eapply lifecycle_ok_run; [apply lifecycle_ok_boot|exact Hrun].
Qed.

(** What [Shutdown] does to a queue that has not been shut down. *)
Lemma Shutdown_first w tick_at s :
  lifecycle_ok s -> closed (queue s) = false ->
  exists s1 d,
    Shutdown w tick_at s = Returned (None, s1) /\
    observed s1 = observed s ++ d ++ map ObsClose (subscribers (queue s)) /\
    closes d = [] /\
    events (queue s1) = [] /\
    wg_done (queue s1) = true /\
    closed (queue s1) = true /\
    events_closed (queue s1) = true /\
    subscribers (queue s1) = subscribers (queue s).
Proof.
  intros (H1 & H2 & H3) Hc. unfold Shutdown. rewrite Hc.
  cbn [queue on_queue events_closed set_closed]. rewrite H1, Hc.
  cbn [wg_done queue on_queue set_flushTick_stopped set_events_closed set_closed events].
  destruct (wg_done (queue s)) eqn:Hw; [specialize (H2 eq_refl); congruence|].
  match goal with |- context [drain w ?e ?t ?x] =>
    destruct (drain_fields w e t x eq_refl) as (D1 & D2 & D3 & D4 & D5);
    destruct (drain_obs w e t x) as (d & Hd & Cd);
    set (s2 := drain w e t x) in * end.
  cbn in D3, D4, D5, Hd.
  exists (close_all w (subscribers (queue s2)) s2), d.
  rewrite close_all_eq. cbn [queue observed].
  rewrite Hd, D5, <- app_assoc. repeat split; auto.
Qed.

(** Once shut down, nothing closes a subscriber again. *)
Lemma closed_step w op s s' :
  closed (queue s) = true -> step w op s = Returned s' ->
  closed (queue s') = true /\ closes (observed s') = closes (observed s).
Proof.
  intros Hc. destruct op as [ctx name props| | |tick_at]; cbn [step].
  - unfold Track. destruct (events_closed (queue s)); [discriminate|].
    destruct (_ <? _); intros [= <-]; cbn; split; auto.
    rewrite closes_app. cbn. apply app_nil_r.
  - intros [= <-]. destruct (worker_recv_obs w s) as (d & Hd & Cd).
    rewrite Hd, closes_app, Cd, app_nil_r. split; [|reflexivity].
    unfold worker_recv. destruct (wg_done (queue s)); [exact Hc|].
    destruct (events (queue s)) as [|ev rest].
    + destruct (events_closed (queue s)); exact Hc.
    + pose proof (deliver_frame w ev (on_queue (set_events rest) s)) as F.
      frame_fields F. cbn in *. congruence.
  - intros [= <-]. rewrite worker_tick_obs. split; [|reflexivity].
    pose proof (worker_tick_frame s) as F. frame_fields F. congruence.
  - unfold Shutdown. rewrite Hc. intros [= <-]. auto.
Qed.

Lemma closed_run w ops : forall s s',
  closed (queue s) = true -> run w ops s = Returned s' ->
  closed (queue s') = true /\ closes (observed s') = closes (observed s).
Proof.
  induction ops as [|op ops IH]; intros s s' Hc; cbn [run].
  - intros [= <-]. auto.
  - destruct (step w op s) as [s1|msg] eqn:E; [|discriminate].
    destruct (closed_step w op s s1 Hc E) as [Hc1 Ho1].
    intros Hr. destruct (IH s1 s' Hc1 Hr) as [Hc2 Ho2].
    split; congruence.
Qed.

(** *** Track *)

(** On a queue whose channel is open [Track] returns: with room in the
    buffer the enriched event is appended, and on a full buffer the event is
    dropped with a diagnostic and the queue is left as it was. *)
Lemma Track_open ctx name properties s :
  events_closed (queue s) = false ->
  exists s', Track ctx name properties s = Returned s' /\
    ((Z.of_nat (length (events (queue s))) < events_cap (queue s) /\
      events (queue s') =
        events (queue s) ++
          [mkQueuedEvent name (enrich ctx properties) (GetOperationName ctx)] /\
      observed s' = observed s)
     \/
     (events_cap (queue s) <= Z.of_nat (length (events (queue s))) /\
      queue s' = queue s /\
      observed s' = observed s ++ [ObsPrint (QueueFull name)])).
Proof.
  intros Hc. unfold Track. rewrite Hc.
  destruct (Z.ltb_spec (Z.of_nat (length (events (queue s)))) (events_cap (queue s))).
  - eexists. split; [reflexivity|]. left. cbn. auto.
  - eexists. split; [reflexivity|]. right. cbn. auto.
Qed.

Lemma Track_closed ctx name properties s :
  events_closed (queue s) = true ->
  Track ctx name properties s = Panicked "send on closed channel".
Proof. intros Hc. unfold Track. rewrite Hc. reflexivity. Qed.

(** C1: on a queue that has been shut down the claim does not hold of the
    code.  For every newly built queue, Shutdown returns nil and leaves the
    channel closed; a Track call made afterwards does not drop the event, it
    panics with "send on closed channel" (the send case of its select is
    taken on a closed channel, the default case is not). *)
Theorem Track_after_Shutdown_panics
    (w : World) (cfg : QueueConfig) (subs : list Subscriber)
    (tick_at : option nat) (ctx : Context) (name : string)
    (properties : gmap string any) :
  exists s1,
    Shutdown w tick_at (boot (NewQueueWithConfig cfg subs)) = Returned (None, s1) /\
    Track ctx name properties s1 = Panicked "send on closed channel".
Proof.
  destruct (Shutdown_first w tick_at (boot (NewQueueWithConfig cfg subs))
              (lifecycle_ok_boot cfg subs) eq_refl)
    as (s1 & d & H1 & _ & _ & _ & _ & _ & Hc & _).
  exists s1. split; [exact H1|]. apply Track_closed, Hc.
Qed.

(** The same from any reachable state: after a Shutdown that returned,
    every Track panics. *)
Lemma Track_after_any_Shutdown w tick_at s r s1 ctx name properties :
  reachable w s ->
  Shutdown w tick_at s = Returned (r, s1) ->
  Track ctx name properties s1 = Panicked "send on closed channel".
Proof.
  intros Hr HS. pose proof (reachable_lifecycle_ok w s Hr) as L.
  apply Track_closed.
  destruct (closed (queue s)) eqn:Hc.
  - unfold Shutdown in HS. rewrite Hc in HS. injection HS as <- <-.
    destruct L as (L1 & _). congruence.
  - destruct (Shutdown_first w tick_at s L Hc) as (s1' & d & H1 & _ & _ & _ & _ & _ & Hc' & _).
    rewrite H1 in HS. injection HS as <- <-. exact Hc'.
Qed.

(** *** Shutdown *)

(** C6: Shutdown is idempotent.  On any reachable queue that has not been
    shut down, the first Shutdown returns nil; what it adds to the observed
    actions is the consumer's last deliveries, which close nothing, followed
    by one Close per registered subscriber, in registration order, whatever
    each Close returns; the buffer is then empty and the consumer has
    returned.  A further Shutdown returns nil and changes nothing, and in
    no later run is a subscriber closed again. *)
Theorem Shutdown_idempotent (w : World) (tick_at tick_at' : option nat) (s : Sys) :
  reachable w s ->
  closed (queue s) = false ->
  exists s1 d,
    Shutdown w tick_at s = Returned (None, s1) /\
    observed s1 = observed s ++ d ++ map ObsClose (subscribers (queue s)) /\
    closes d = [] /\
    closes (observed s1) = subscribers (queue s) /\
    events (queue s1) = [] /\
    wg_done (queue s1) = true /\
    Shutdown w tick_at' s1 = Returned (None, s1) /\
    (forall ops s2, run w ops s1 = Returned s2 ->
       closes (observed s2) = subscribers (queue s)).
Proof.
  intros Hr Hc. pose proof (reachable_lifecycle_ok w s Hr) as L.
  destruct (Shutdown_first w tick_at s L Hc)
    as (s1 & d & H1 & H2 & H3 & H4 & H5 & H6 & H7 & H8).
  assert (HC : closes (observed s1) = subscribers (queue s)).
  { destruct L as (_ & _ & L3).
    rewrite H2, !closes_app, H3, (L3 Hc), closes_map_ObsClose. reflexivity. }
  exists s1, d. repeat split; auto.
  - unfold Shutdown. rewrite H6. reflexivity.
  - intros ops s2 Hrun. destruct (closed_run w ops s1 s2 H6 Hrun) as [_ ->]. exact HC.
Qed.

Lemma Shutdown_idempotent_witness :
  exists s1 d,
    Shutdown sample_world None (boot (NewQueue [webhookA; inMemory])) = Returned (None, s1) /\
    observed s1 = [] ++ d ++ [ObsClose webhookA; ObsClose inMemory] /\
    closes d = [] /\
    closes (observed s1) = [webhookA; inMemory] /\
    events (queue s1) = [] /\
    wg_done (queue s1) = true /\
    Shutdown sample_world (Some 0%nat) s1 = Returned (None, s1) /\
    (forall ops s2, run sample_world ops s1 = Returned s2 ->
       closes (observed s2) = [webhookA; inMemory]).
Proof.
  apply (Shutdown_idempotent sample_world None (Some 0%nat)
           (boot (NewQueue [webhookA; inMemory]))).
  - exists default_config, [webhookA; inMemory], []. reflexivity.
  - reflexivity.
Defined.

(** *** Enrichment *)

Lemma hex_byte_length b rest :
  String.length (hex_byte b rest) = S (S (String.length rest)).
Proof. reflexivity. Qed.

Lemma EncodeToString_length bs :
  String.length (EncodeToString bs) = (2 * length bs)%nat.
Proof.
  induction bs as [|b bs IH]; [reflexivity|].
  cbn [EncodeToString length]. rewrite hex_byte_length, IH. lia.
Qed.

Lemma fmtSx_length str :
  String.length (fmtSx str) = (2 * String.length str)%nat.
Proof.
  induction str as [|c str IH]; [reflexivity|].
  cbn [fmtSx String.length]. rewrite hex_byte_length, IH. lia.
Qed.

Lemma writePadding_length n rest :
  String.length (writePadding n rest) = (n + String.length rest)%nat.
Proof. induction n as [|n IH]; cbn; [reflexivity|]. rewrite IH. reflexivity. Qed.

(** The formatted identifier is four characters per byte, never fewer than
    the requested width. *)
Lemma Sprintf_0x_Stringer_length wid (id : list Byte.byte) :
  String.length (Sprintf_0x_Stringer wid (ID_String id)) =
  Nat.max wid (4 * length id).
Proof.
  unfold Sprintf_0x_Stringer, ID_String.
  rewrite writePadding_length, fmtSx_length, EncodeToString_length. lia.
Qed.

(** With a recording span and a valid span context both keys are set, to
    strings of 64 and 32 characters for a 16-byte trace id and an 8-byte
    span id. *)
Lemma enrich_recording ctx properties sp :
  ctx_span ctx = Some sp ->
  IsRecording sp = true ->
  SpanContext_IsValid (GetSpanContext sp) = true ->
  enrich ctx properties !! "trace_id" =
    Some (AString (Sprintf_0x_Stringer 32 (ID_String (sc_TraceID (GetSpanContext sp))))) /\
  enrich ctx properties !! "span_id" =
    Some (AString (Sprintf_0x_Stringer 16 (ID_String (sc_SpanID (GetSpanContext sp))))).
Proof.
  intros Hsp Hrec Hval. unfold enrich, SpanFromContext. rewrite Hsp, Hrec, Hval.
  destruct (String.eqb (GetOperationName ctx) "").
  - split.
    + rewrite lookup_insert_ne by discriminate. apply lookup_insert_eq.
    + apply lookup_insert_eq.
  - split.
    + rewrite !lookup_insert_ne by discriminate. apply lookup_insert_eq.
    + rewrite lookup_insert_ne by discriminate. apply lookup_insert_eq.
Qed.

(** Without a recording span, or with an invalid span context, neither key
    is touched. *)
Lemma enrich_not_recording ctx properties :
  IsRecording (SpanFromContext ctx) &&
    SpanContext_IsValid (GetSpanContext (SpanFromContext ctx)) = false ->
  enrich ctx properties !! "trace_id" = properties !! "trace_id" /\
  enrich ctx properties !! "span_id" = properties !! "span_id".
Proof.
  intros H. unfold enrich.
  assert (E : (if IsRecording (SpanFromContext ctx)
           then if SpanContext_IsValid (GetSpanContext (SpanFromContext ctx))
                then <["span_id" := AString (Sprintf_0x_Stringer 16
                         (ID_String (sc_SpanID (GetSpanContext (SpanFromContext ctx)))))]>
                       (<["trace_id" := AString (Sprintf_0x_Stringer 32
                         (ID_String (sc_TraceID (GetSpanContext (SpanFromContext ctx)))))]>
                          properties)
                else properties
           else properties) = properties).
  { destruct (IsRecording (SpanFromContext ctx)); [|reflexivity].
    destruct (SpanContext_IsValid _); [discriminate|reflexivity]. }
  rewrite E.
  destruct (String.eqb (GetOperationName ctx) ""); [auto|].
  split; rewrite lookup_insert_ne by discriminate; reflexivity.
Qed.

(** C5: the first half of the claim does not hold of the code.  Track is
    called with a context carrying a recording span whose trace id is
    7130bb6d5bb4ef40a1b2c3d4e5f60718 and whose span id is 00f067aa0ba902b7.
    The event is enqueued, and its trace_id property is not those 32
    characters but the 64 characters that spell them in hex once more (and
    span_id is 32 characters, not 16): TraceID and SpanID implement String(),
    so the verb x formats the string that method returns. *)
Theorem Track_trace_id_hex_of_hex :
  exists s1 ev,
    Track sample_ctx "order.completed" {[ "amount" := AInt 42 ]}
      (boot (NewQueue [inMemory])) = Returned s1 /\
    events (queue s1) = [ev] /\
    ID_String sample_trace_id = "7130bb6d5bb4ef40a1b2c3d4e5f60718" /\
    ID_String sample_span_id = "00f067aa0ba902b7" /\
    properties ev !! "trace_id" =
      Some (AString "3731333062623664356262346566343061316232633364346535663630373138") /\
    properties ev !! "span_id" =
      Some (AString "30306630363761613062613930326237") /\
    ~ lower_hex_of_length 32 (properties ev !! "trace_id") /\
    ~ lower_hex_of_length 16 (properties ev !! "span_id").
Proof.
  eexists. eexists. split; [reflexivity|]. split; [reflexivity|].
  split; [reflexivity|]. split; [reflexivity|].
  assert (T : properties (mkQueuedEvent "order.completed"
                (enrich sample_ctx {[ "amount" := AInt 42 ]})
                (GetOperationName sample_ctx)) !! "trace_id" =
      Some (AString "3731333062623664356262346566343061316232633364346535663630373138"))
    by (vm_compute; reflexivity).
  assert (S : properties (mkQueuedEvent "order.completed"
                (enrich sample_ctx {[ "amount" := AInt 42 ]})
                (GetOperationName sample_ctx)) !! "span_id" =
      Some (AString "30306630363761613062613930326237"))
    by (vm_compute; reflexivity).
  split; [exact T|]. split; [exact S|]. rewrite T, S.
  split; intros (str & [= <-] & Hlen & _); vm_compute in Hlen; discriminate.
Qed.

(** *** Health records *)

Lemma at_key_insert_eq (m : gmap string Z) id v : at_key (<[id := v]> m) id = v.
Proof. unfold at_key. rewrite lookup_insert_eq. reflexivity. Qed.

Lemma at_key_insert_ne (m : gmap string Z) id id' v :
  id <> id' -> at_key (<[id := v]> m) id' = at_key m id'.
Proof. intros H. unfold at_key. rewrite lookup_insert_ne by exact H. reflexivity. Qed.

Lemma record_failure_at now id q :
  at_key (workerErrs (record_failure now id q)) id = wrap64 (at_key (workerErrs q) id + 1) /\
  at_key (nextAllowed (record_failure now id q)) id = now + failure_wait q id /\
  at_key (backoff (record_failure now id q)) id =
    minDuration (wrap64 (failure_wait q id * 2)) (backoffMax q).
Proof. unfold record_failure, Add. cbn. rewrite !at_key_insert_eq. auto. Qed.

Lemma record_failure_other now id id' q :
  id <> id' ->
  at_key (workerErrs (record_failure now id q)) id' = at_key (workerErrs q) id' /\
  at_key (nextAllowed (record_failure now id q)) id' = at_key (nextAllowed q) id' /\
  at_key (backoff (record_failure now id q)) id' = at_key (backoff q) id'.
Proof. intros H. unfold record_failure. cbn. rewrite !at_key_insert_ne by exact H. auto. Qed.

Lemma record_success_at id q :
  at_key (workerErrs (record_success id q)) id = 0 /\
  at_key (nextAllowed (record_success id q)) id = 0 /\
  at_key (backoff (record_success id q)) id = backoffMin q.
Proof. unfold record_success, zeroTime. cbn. rewrite !at_key_insert_eq. auto. Qed.

Lemma record_success_other id id' q :
  id <> id' ->
  at_key (workerErrs (record_success id q)) id' = at_key (workerErrs q) id' /\
  at_key (nextAllowed (record_success id q)) id' = at_key (nextAllowed q) id' /\
  at_key (backoff (record_success id q)) id' = at_key (backoff q) id'.
Proof. intros H. unfold record_success. cbn. rewrite !at_key_insert_ne by exact H. auto. Qed.

(** C9: the health records are keyed by the name of the subscriber's dynamic
    type.  Take a queue whose registered subscribers are A then B, of the
    same dynamic type.  If A is attempted and its Send fails, and the clock
    reading made for B falls within the wait just imposed, then B is skipped:
    the delivery observes the failed Send to A and diagnostics, nothing else,
    whatever B's Send would have returned; and the one record under the
    shared type name, which is B's record too, holds A's failure. *)
Theorem shared_health_record (w : World) (ev : queuedEvent) (s : Sys) (A B : Subscriber) :
  subscribers (queue s) = [A; B] ->
  sub_type A = sub_type B ->
  in_backoff (clock w (readings s)) (queue s) (sub_type A) = false ->
  send_ok w (readings s) A (name ev) (properties ev) = false ->
  clock w (readings s) + failure_wait (queue s) (sub_type A) <> 0 ->
  clock w (S (readings s)) < clock w (readings s) + failure_wait (queue s) (sub_type A) ->
  exists tail,
    Forall is_print tail /\
    observed (deliver w ev s) =
      observed s ++
        ObsSend (clock w (readings s)) A (name ev) (properties ev) false :: tail /\
    queue (deliver w ev s) = record_failure (clock w (readings s)) (sub_type A) (queue s) /\
    at_key (workerErrs (queue (deliver w ev s))) (sub_type B) =
      wrap64 (at_key (workerErrs (queue s)) (sub_type A) + 1) /\
    at_key (nextAllowed (queue (deliver w ev s))) (sub_type B) =
      clock w (readings s) + failure_wait (queue s) (sub_type A) /\
    in_backoff (clock w (S (readings s))) (queue (deliver w ev s)) (sub_type B) = true.
Proof.
  intros Hsubs Hty Hnb Hfail Hnz Hlt.
  unfold deliver. rewrite Hsubs. cbn [fold_left].
  destruct (deliver_to_cases w ev s A) as [[E _]|[(_ & E & _)|(_ & _ & tail & Ht & EA)]];
    [congruence..|].
  rewrite EA.
  destruct (record_failure_at (clock w (readings s)) (sub_type A) (queue s)) as (R1 & R2 & R3).
  assert (HB : in_backoff (clock w (S (readings s)))
                 (record_failure (clock w (readings s)) (sub_type A) (queue s))
                 (sub_type B) = true).
  { unfold in_backoff, IsZero, Before. rewrite <- Hty, R2.
    apply andb_true_iff. split.
    - apply negb_true_iff, Z.eqb_neq, Hnz.
    - apply Z.ltb_lt, Hlt. }
  match goal with |- context [deliver_to w ev ?x B] =>
    destruct (deliver_to_cases w ev x B) as [[_ EB]|[(E & _)|(E & _)]];
      cbn [queue readings] in *; [rewrite EB|congruence..] end.
  cbn [tick_clock queue observed].
  exists tail. rewrite <- Hty, R1, R2. rewrite <- Hty in HB. repeat split; auto.
Qed.

Lemma shared_health_record_witness :
  exists tail,
    Forall is_print tail /\
    observed (deliver sample_world sample_event (boot (NewQueue [webhookA; webhookB]))) =
      [] ++ ObsSend (clock sample_world 0) webhookA "order.completed"
              {[ "amount" := AInt 42 ]} false :: tail /\
    queue (deliver sample_world sample_event (boot (NewQueue [webhookA; webhookB]))) =
      record_failure (clock sample_world 0) (sub_type webhookA)
        (NewQueue [webhookA; webhookB]) /\
    at_key (workerErrs (queue (deliver sample_world sample_event
              (boot (NewQueue [webhookA; webhookB]))))) (sub_type webhookB) =
      wrap64 (at_key (workerErrs (NewQueue [webhookA; webhookB])) (sub_type webhookA) + 1) /\
    at_key (nextAllowed (queue (deliver sample_world sample_event
              (boot (NewQueue [webhookA; webhookB]))))) (sub_type webhookB) =
      clock sample_world 0 + failure_wait (NewQueue [webhookA; webhookB]) (sub_type webhookA) /\
    in_backoff (clock sample_world 1)
      (queue (deliver sample_world sample_event (boot (NewQueue [webhookA; webhookB]))))
      (sub_type webhookB) = true.
Proof.
  apply (shared_health_record sample_world sample_event
           (boot (NewQueue [webhookA; webhookB])) webhookA webhookB).
  - reflexivity.
  - reflexivity.
  - vm_compute. reflexivity.
  - reflexivity.
  - vm_compute. discriminate.
  - vm_compute. reflexivity.
Defined.

(** *** Isolation between destinations *)

Lemma sent_to_app sub a b : sent_to sub (a ++ b) = sent_to sub a ++ sent_to sub b.
Proof. unfold sent_to. apply flat_map_app. Qed.

Lemma sent_to_prints sub tail : Forall is_print tail -> sent_to sub tail = [].
Proof.
  induction 1 as [|o tail Ho _ IH]; [reflexivity|].
  destruct o; cbn in *; try contradiction. exact IH.
Qed.

Lemma sent_to_cons_send sub now sub' event props ok rest :
  sent_to sub (ObsSend now sub' event props ok :: rest) =
  (if Subscriber_eqb sub sub' then [(event, props)] else []) ++ sent_to sub rest.
Proof. reflexivity. Qed.

Lemma Subscriber_eqb_refl sub : Subscriber_eqb sub sub = true.
Proof. unfold Subscriber_eqb. rewrite Nat.eqb_refl, String.eqb_refl. reflexivity. Qed.

Lemma Subscriber_eqb_types a b :
  sub_type a <> sub_type b -> Subscriber_eqb a b = false.
Proof.
  intros H. unfold Subscriber_eqb.
  destruct (String.eqb_spec (sub_type a) (sub_type b)); [contradiction|].
  apply andb_false_r.
Qed.

Lemma reset_ids_nextAllowed_zero ids q id :
  at_key (nextAllowed q) id = 0 -> at_key (nextAllowed (reset_ids ids q)) id = 0.
Proof.
  intros H. induction ids as [|a ids IH]; cbn [reset_ids fold_right]; [exact H|].
  cbn [nextAllowed set_health]. fold (reset_ids ids q).
  destruct (decide (a = id)) as [->|Hne].
  - apply at_key_insert_eq.
  - rewrite at_key_insert_ne by exact Hne. exact IH.
Qed.

Section Isolation.

Variable w : World.
Variables A B : Subscriber.

Hypothesis types_differ : sub_type A <> sub_type B.
Hypothesis B_succeeds : always_succeeds w B.

Lemma B_clear_deliver_to s ev sub :
  B_clear A B s -> In sub (subscribers (queue s)) -> B_clear A B (deliver_to w ev s sub).
Proof.
  intros [Hs Hz] Hin.
  assert (Hsub : sub = A \/ sub = B)
    by (destruct Hs as [Hs|Hs]; rewrite Hs in Hin; cbn in Hin; intuition).
  pose proof (deliver_to_frame w ev s sub) as F. frame_fields F.
  split; [destruct Hs; [left|right]; congruence|].
  destruct (deliver_to_cases w ev s sub) as [[_ ->]|[(_ & _ & ->)|(_ & Hf & tail & _ & ->)]];
    cbn [queue tick_clock].
  - exact Hz.
  - destruct (decide (sub_type sub = sub_type B)) as [E|E].
    + rewrite E. apply record_success_at.
    + destruct (record_success_other (sub_type sub) (sub_type B) (queue s) E) as (_ & R & _).
      rewrite R. exact Hz.
  - destruct Hsub as [-> | ->].
    + destruct (record_failure_other (clock w (readings s)) (sub_type A) (sub_type B)
                  (queue s) types_differ) as (_ & R & _).
      rewrite R. exact Hz.
    + rewrite B_succeeds in Hf. discriminate.
Qed.

Lemma B_clear_run cfg subs ops s :
  subs = [A; B] \/ subs = [B; A] ->
  run w ops (boot (NewQueueWithConfig cfg subs)) = Returned s -> B_clear A B s.
Proof.
  intros Hsubs. apply (inv_run w (B_clear A B)).
  - intros s0 evs H. exact H.
  - intros s0 event H. exact H.
  - apply B_clear_deliver_to.
  - intros s0 [Hs Hz]. pose proof (resetIfNeeded_frame (queue s0)) as F. frame_fields F.
    split; [cbn; destruct Hs; [left|right]; congruence|].
    cbn [queue on_queue]. unfold resetIfNeeded.
    destruct (cbReset (queue s0) <=? 0); [exact Hz|].
    apply reset_ids_nextAllowed_zero, Hz.
  - intros s0 H _. exact H.
  - intros s0 H _. exact H.
  - intros s0 H _. rewrite close_all_eq. exact H.
  - split; [exact Hsubs|reflexivity].
Qed.

Lemma sent_to_B_deliver_to_A s ev :
  sent_to B (observed (deliver_to w ev s A)) = sent_to B (observed s).
Proof.
  pose proof (Subscriber_eqb_types B A (not_eq_sym types_differ)) as Hne.
  destruct (deliver_to_cases w ev s A) as [[_ ->]|[(_ & _ & ->)|(_ & _ & tail & Ht & ->)]];
    cbn [observed tick_clock]; [reflexivity|..];
    rewrite sent_to_app, sent_to_cons_send, Hne.
  - apply app_nil_r.
  - rewrite (sent_to_prints B tail Ht). apply app_nil_r.
Qed.

Lemma sent_to_B_deliver_to_B s ev :
  B_clear A B s ->
  sent_to B (observed (deliver_to w ev s B)) =
  sent_to B (observed s) ++ [(name ev, properties ev)].
Proof.
  intros [_ Hz].
  assert (Hnb : in_backoff (clock w (readings s)) (queue s) (sub_type B) = false).
  { unfold in_backoff. rewrite Hz. reflexivity. }
  destruct (deliver_to_cases w ev s B) as [[E _]|[(_ & _ & ->)|(_ & E & _)]].
  - congruence.
  - cbn [observed]. rewrite sent_to_app, sent_to_cons_send, Subscriber_eqb_refl.
    reflexivity.
  - rewrite B_succeeds in E. discriminate.
Qed.

End Isolation.

(** C4 does not hold of the code.  The health records are keyed by the
    name of the subscriber's dynamic type and not by the subscriber, although
    the package documents a per-subscriber backoff and prints the key as the
    subscriber.  Two webhook subscribers are registered, the first always
    failing and the second always succeeding, and one event is delivered: it
    is sent to the first, whose failure puts the record of the type in
    backoff; the second is looked up under the same key, found in backoff and
    skipped, so it is not sent the event.  The isolation that the claim
    states fails at this input. *)
Theorem isolation_fails_for_one_type :
  always_fails sample_world webhookA /\
  always_succeeds sample_world webhookB /\
  sent_to webhookA
    (observed (deliver sample_world sample_event (boot (NewQueue [webhookA; webhookB])))) =
    [(name sample_event, properties sample_event)] /\
  sent_to webhookB
    (observed (deliver sample_world sample_event (boot (NewQueue [webhookA; webhookB])))) =
    [] /\
  in_backoff (clock sample_world 1)
    (queue (deliver sample_world sample_event (boot (NewQueue [webhookA; webhookB]))))
    (sub_type webhookB) = true /\
  ~ isolation_claim sample_world webhookA webhookB.
Proof.
  assert (HA : always_fails sample_world webhookA) by (intros n e p; reflexivity).
  assert (HB : always_succeeds sample_world webhookB) by (intros n e p; reflexivity).
  split; [exact HA|]. split; [exact HB|].
  split; [vm_compute; reflexivity|].
  split; [vm_compute; reflexivity|].
  split; [vm_compute; reflexivity|].
  intros H.
  destruct (H HA HB default_config [webhookA; webhookB] [] (boot (NewQueue [webhookA; webhookB]))
              sample_event (or_introl eq_refl) eq_refl) as (_ & Hsent & _).
  vm_compute in Hsent. discriminate.
Qed.

(** Where the defect does not show.  When the names of the dynamic types of
    A and B differ, the two subscribers have records of their own: if every
    Send to A fails and every Send to B succeeds, then on the queues that
    register A and B, B's record never enters backoff, every event handed to
    deliver is sent to B exactly once, and an iteration for A that falls
    before A's nextAllowed time sends nothing. *)
Lemma isolation_of_distinct_types (w : World) (A B : Subscriber) :
  sub_type A <> sub_type B -> isolation_claim w A B.
Proof.
  intros Hty HA HB cfg subs ops s ev Hsubs Hrun.
  pose proof (B_clear_run w A B Hty HB cfg subs ops s Hsubs Hrun) as Hclear.
  split; [apply Hclear|]. split.
  - unfold deliver. destruct Hclear as [[Hs|Hs] Hz]; rewrite Hs; cbn [fold_left].
    + rewrite (sent_to_B_deliver_to_B w A B HB), (sent_to_B_deliver_to_A w A B Hty);
        [reflexivity|].
      apply (B_clear_deliver_to w A B Hty HB); [split; auto|].
      rewrite Hs. left. reflexivity.
    + rewrite (sent_to_B_deliver_to_A w A B Hty), (sent_to_B_deliver_to_B w A B HB);
        [reflexivity|].
      split; auto.
  - intros s' Hb.
    destruct (deliver_to_cases w ev s' A) as [[_ ->]|[(E & _)|(E & _)]];
      [reflexivity|congruence..].
Qed.

Lemma isolation_of_distinct_types_witness :
  isolated sample_world webhookA inMemory.
Proof.
  assert (Hty : sub_type webhookA <> sub_type inMemory) by (vm_compute; discriminate).
  assert (HA : always_fails sample_world webhookA) by (intros n e p; reflexivity).
  assert (HB : always_succeeds sample_world inMemory) by (intros n e p; reflexivity).
  exact (isolation_of_distinct_types sample_world webhookA inMemory Hty HA HB).
Defined.

(** *** The circuit reset interval *)

Section ResetInterval.

Variable w : World.
Variable r : Duration.
Hypothesis r_pos : 0 < r.

Notation "[ s ]" := (on_queue (set_cbReset r) s).

Lemma deliver_to_set_cbReset ev s sub :
  deliver_to w ev [s] sub = [deliver_to w ev s sub].
Proof.
  unfold deliver_to. cbn [tick_clock on_queue queue readings observed].
  change (in_backoff (clock w (readings s)) (set_cbReset r (queue s)) (sub_type sub))
    with (in_backoff (clock w (readings s)) (queue s) (sub_type sub)).
  destruct (in_backoff _ _ _); [reflexivity|].
  destruct (send_ok w (readings s) sub (name ev) (properties ev)); [reflexivity|].
  cbn [emit on_queue queue readings observed].
  change (cbThreshold (record_failure (clock w (readings s)) (sub_type sub)
            (set_cbReset r (queue s))))
    with (cbThreshold (record_failure (clock w (readings s)) (sub_type sub) (queue s))).
  change (workerErrs (record_failure (clock w (readings s)) (sub_type sub)
            (set_cbReset r (queue s))))
    with (workerErrs (record_failure (clock w (readings s)) (sub_type sub) (queue s))).
  destruct (_ <=? _); reflexivity.
Qed.

Lemma fold_deliver_to_set_cbReset ev subs : forall s,
  fold_left (deliver_to w ev) subs [s] = [fold_left (deliver_to w ev) subs s].
Proof.
  induction subs as [|sub subs IH]; intros s; cbn [fold_left]; [reflexivity|].
  rewrite deliver_to_set_cbReset. apply IH.
Qed.

Lemma deliver_set_cbReset ev s : deliver w ev [s] = [deliver w ev s].
Proof. unfold deliver. apply fold_deliver_to_set_cbReset. Qed.

Lemma reset_ids_set_cbReset ids q :
  reset_ids ids (set_cbReset r q) = set_cbReset r (reset_ids ids q).
Proof.
  induction ids as [|id ids IH]; cbn [reset_ids fold_right]; [reflexivity|].
  fold (reset_ids ids (set_cbReset r q)). fold (reset_ids ids q).
  rewrite IH. reflexivity.
Qed.

Lemma resetIfNeeded_set_cbReset q :
  0 < cbReset q ->
  resetIfNeeded (set_cbReset r q) = set_cbReset r (resetIfNeeded q).
Proof.
  intros Hq. unfold resetIfNeeded. cbn [cbReset set_cbReset workerErrs].
  destruct (Z.leb_spec r 0); [lia|].
  destruct (Z.leb_spec (cbReset q) 0); [lia|].
  apply reset_ids_set_cbReset.
Qed.

Lemma worker_tick_set_cbReset s :
  0 < cbReset (queue s) -> worker_tick [s] = [worker_tick s].
Proof.
  intros Hq. unfold worker_tick. cbn [on_queue queue wg_done set_cbReset].
  destruct (wg_done (queue s)); [reflexivity|].
  unfold on_queue. cbn [queue readings observed].
  rewrite resetIfNeeded_set_cbReset by exact Hq. reflexivity.
Qed.

Lemma worker_recv_set_cbReset s : worker_recv w [s] = [worker_recv w s].
Proof.
  unfold worker_recv. cbn [on_queue queue wg_done events events_closed set_cbReset].
  destruct (wg_done (queue s)); [reflexivity|].
  destruct (events (queue s)) as [|ev rest].
  - destruct (events_closed (queue s)); reflexivity.
  - apply (deliver_set_cbReset ev (on_queue (set_events rest) s)).
Qed.

Lemma cbReset_worker_tick s : cbReset (queue (worker_tick s)) = cbReset (queue s).
Proof. pose proof (worker_tick_frame s) as F. frame_fields F. assumption. Qed.

Lemma cbReset_deliver ev s : cbReset (queue (deliver w ev s)) = cbReset (queue s).
Proof. pose proof (deliver_frame w ev s) as F. frame_fields F. assumption. Qed.

Lemma drain_set_cbReset evs : forall tick_at s,
  0 < cbReset (queue s) -> drain w evs tick_at [s] = [drain w evs tick_at s].
Proof.
  induction evs as [|ev rest IH]; intros tick_at s Hq; cbn [drain].
  - destruct tick_at as [[|i]|]; [rewrite worker_tick_set_cbReset by exact Hq|..];
      reflexivity.
  - set (s1 := match tick_at with Some O => worker_tick s | _ => s end).
    assert (E1 : match tick_at with Some O => worker_tick [s] | _ => [s] end = [s1]).
    { subst s1. destruct tick_at as [[|i]|];
        [apply worker_tick_set_cbReset, Hq|reflexivity..]. }
    assert (P1 : 0 < cbReset (queue s1)).
    { subst s1. destruct tick_at as [[|i]|]; [rewrite cbReset_worker_tick|..]; exact Hq. }
    rewrite E1.
    change (on_queue (set_events rest) [s1]) with [on_queue (set_events rest) s1].
    rewrite deliver_set_cbReset. apply IH.
    rewrite cbReset_deliver. exact P1.
Qed.

Lemma close_all_set_cbReset subs s : close_all w subs [s] = [close_all w subs s].
Proof. rewrite !close_all_eq. reflexivity. Qed.

Lemma Shutdown_set_cbReset tick_at s :
  0 < cbReset (queue s) ->
  Shutdown w tick_at [s] =
  outcome_map (fun rs => (fst rs, [snd rs])) (Shutdown w tick_at s).
Proof.
  intros Hq. unfold Shutdown.
  cbn [on_queue queue closed events_closed wg_done events subscribers set_cbReset
       set_closed set_events_closed set_flushTick_stopped].
  destruct (closed (queue s)); [reflexivity|].
  destruct (events_closed (queue s)); [reflexivity|].
  destruct (wg_done (queue s)); cbn [outcome_map fst snd].
  - rewrite <- close_all_set_cbReset. reflexivity.
  - rewrite <- close_all_set_cbReset.
    match goal with |- context [[drain w ?e ?t ?x]] =>
      rewrite <- (drain_set_cbReset e t x) by exact Hq;
      destruct (drain_fields w e t x eq_refl) as (_ & _ & _ & _ & D) end.
    cbn [on_queue queue subscribers set_cbReset set_closed set_events_closed
         set_flushTick_stopped] in *.
    match goal with |- context [drain w ?e ?t ?x] =>
      destruct (drain_fields w e t x eq_refl) as (_ & _ & _ & _ & D') end.
    cbn [on_queue queue subscribers set_cbReset set_closed set_events_closed
         set_flushTick_stopped] in *.
    rewrite D, D'. reflexivity.
Qed.

Lemma Track_set_cbReset ctx name properties s :
  Track ctx name properties [s] = outcome_map (on_queue (set_cbReset r)) (Track ctx name properties s).
Proof.
  unfold Track. cbn [on_queue queue events_closed events events_cap set_cbReset].
  destruct (events_closed (queue s)); [reflexivity|].
  destruct (_ <? _); reflexivity.
Qed.

Lemma step_set_cbReset op s :
  0 < cbReset (queue s) ->
  step w op [s] = outcome_map (on_queue (set_cbReset r)) (step w op s).
Proof.
  intros Hq. destruct op as [ctx name props| | |tick_at]; cbn [step].
  - apply Track_set_cbReset.
  - rewrite worker_recv_set_cbReset. reflexivity.
  - rewrite worker_tick_set_cbReset by exact Hq. reflexivity.
  - rewrite Shutdown_set_cbReset by exact Hq.
    destruct (Shutdown w tick_at s) as [[e s1]|msg]; reflexivity.
Qed.

Lemma cbReset_step op s s' :
  step w op s = Returned s' -> cbReset (queue s') = cbReset (queue s).
Proof.
  intros H. set (c := cbReset (queue s)).
  revert H. apply (inv_step w (fun s => cbReset (queue s) = c)).
  - intros s0 evs H. exact H.
  - intros s0 event H. exact H.
  - intros s0 ev sub H _. rewrite <- H.
    pose proof (deliver_to_frame w ev s0 sub) as F. frame_fields F. assumption.
  - intros s0 H. rewrite <- H.
    pose proof (resetIfNeeded_frame (queue s0)) as F. frame_fields F. assumption.
  - intros s0 H _. exact H.
  - intros s0 H _. exact H.
  - intros s0 H _. rewrite close_all_eq. exact H.
  - reflexivity.
Qed.

Lemma run_set_cbReset ops : forall s,
  0 < cbReset (queue s) ->
  run w ops [s] = outcome_map (on_queue (set_cbReset r)) (run w ops s).
Proof.
  induction ops as [|op ops IH]; intros s Hq; cbn [run]; [reflexivity|].
  rewrite step_set_cbReset by exact Hq.
  destruct (step w op s) as [s1|msg] eqn:E; cbn [outcome_map]; [|reflexivity].
  apply IH. rewrite (cbReset_step op s s1 E). exact Hq.
Qed.

End ResetInterval.

Lemma NewQueueWithConfig_cbReset_pos cfg subs :
  0 < cbReset (NewQueueWithConfig cfg subs).
Proof.
  unfold NewQueueWithConfig. cbn [cbReset].
  destruct (Z.leb_spec (CircuitReset cfg) 0); [|assumption].
  unfold Second. lia.
Qed.

Lemma NewQueueWithConfig_with_CircuitReset r cfg subs :
  0 < r ->
  NewQueueWithConfig (with_CircuitReset r cfg) subs =
  set_cbReset r (NewQueueWithConfig cfg subs).
Proof.
  intros Hr. unfold NewQueueWithConfig, with_CircuitReset, set_cbReset.
  cbn [QueueSize FlushInterval CircuitThreshold BackoffMin BackoffMax CircuitReset
       events events_cap events_closed subscribers wg_done closed cbThreshold flushTick
       flushTick_stopped workerErrs nextAllowed backoff backoffMin backoffMax].
  destruct (Z.leb_spec r 0); [lia|]. reflexivity.
Qed.

Lemma cbReset_run w ops : forall s s',
  run w ops s = Returned s' -> cbReset (queue s') = cbReset (queue s).
Proof.
  induction ops as [|op ops IH]; intros s s'; cbn [run].
  - intros [= <-]. reflexivity.
  - destruct (step w op s) as [s1|msg] eqn:E; [|discriminate].
    intros Hr. rewrite (IH s1 s' Hr). apply (cbReset_step w op s s1 E).
Qed.

Lemma reachable_cbReset_pos w s : reachable w s -> 0 < cbReset (queue s).
Proof.
  intros (cfg & subs & ops & Hrun). rewrite (cbReset_run w ops _ _ Hrun).
  apply NewQueueWithConfig_cbReset_pos.
Qed.

Lemma outcome_map_compose {A B C : Type} (f : A -> B) (g : B -> C) (o : Outcome A) :
  outcome_map g (outcome_map f o) = outcome_map (fun a => g (f a)) o.
Proof. destruct o; reflexivity. Qed.

(** C10: the circuit reset interval has no observable effect.  Two queues
    built from configurations that differ only in a positive CircuitReset,
    run through the same calls and consumer turns in the same world, end in
    the same outcome: the same panic, or states that are equal in every
    component (buffer, flags, health maps, clock readings, observed actions)
    except the stored cbReset itself.  The reason is that in every reachable
    state cbReset is positive, so the guard of resetIfNeeded never returns
    early and every tick sweeps all the keys of workerErrs. *)
Theorem CircuitReset_has_no_effect (w : World) (cfg : QueueConfig)
    (subs : list Subscriber) (ops : list Op) (r1 r2 : Duration) :
  0 < r1 -> 0 < r2 ->
  run w ops (boot (NewQueueWithConfig (with_CircuitReset r2 cfg) subs)) =
    outcome_map (on_queue (set_cbReset r2))
      (run w ops (boot (NewQueueWithConfig (with_CircuitReset r1 cfg) subs))) /\
  (forall s, reachable w s ->
     0 < cbReset (queue s) /\
     resetIfNeeded (queue s) =
       reset_ids (map fst (map_to_list (workerErrs (queue s)))) (queue s)).
Proof.
  intros H1 H2. split.
  - rewrite !NewQueueWithConfig_with_CircuitReset by assumption.
    change (boot (set_cbReset r2 (NewQueueWithConfig cfg subs)))
      with (on_queue (set_cbReset r2) (boot (NewQueueWithConfig cfg subs))).
    change (boot (set_cbReset r1 (NewQueueWithConfig cfg subs)))
      with (on_queue (set_cbReset r1) (boot (NewQueueWithConfig cfg subs))).
    rewrite !run_set_cbReset
      by (assumption || apply NewQueueWithConfig_cbReset_pos).
    rewrite outcome_map_compose.
    destruct (run w ops (boot (NewQueueWithConfig cfg subs))) as [s|msg]; reflexivity.
  - intros s Hs. pose proof (reachable_cbReset_pos w s Hs) as Hp.
    split; [exact Hp|]. unfold resetIfNeeded.
    destruct (Z.leb_spec (cbReset (queue s)) 0); [lia|reflexivity].
Qed.

Lemma CircuitReset_has_no_effect_witness :
  run sample_world [OpTrack sample_ctx "order.completed" ∅; OpRecv; OpTick; OpRecv]
    (boot (NewQueueWithConfig (with_CircuitReset (30 * Second) default_config)
             [webhookA; inMemory])) =
  outcome_map (on_queue (set_cbReset (30 * Second)))
    (run sample_world [OpTrack sample_ctx "order.completed" ∅; OpRecv; OpTick; OpRecv]
       (boot (NewQueueWithConfig (with_CircuitReset (1 * Millisecond) default_config)
                [webhookA; inMemory]))).
Proof.
  assert (H1 : 0 < 1 * Millisecond) by reflexivity.
  assert (H2 : 0 < 30 * Second) by reflexivity.
  exact (proj1 (CircuitReset_has_no_effect sample_world default_config
                  [webhookA; inMemory]
                  [OpTrack sample_ctx "order.completed" ∅; OpRecv; OpTick; OpRecv]
                  (1 * Millisecond) (30 * Second) H1 H2)).
Defined.

(** *** Backoff growth *)




Lemma successes_of_prints id tail : Forall is_print tail -> successes_of id tail = [].
Proof.
  induction 1 as [|o tail Ho _ IH]; [reflexivity|].
  destruct o; cbn in *; try contradiction. exact IH.
Qed.





Lemma minDuration_min a b : minDuration a b = Z.min a b.
Proof. unfold minDuration. destruct (Z.ltb_spec a b); lia. Qed.

(** One failure, in the arithmetic of the code: the wait it imposes and the
    backoff it stores. *)
Lemma record_failure_backoff now id q :
  backoff_config_ok q ->
  0 <= at_key (backoff q) id ->
  let cur := if at_key (backoff q) id =? 0 then backoffMin q else at_key (backoff q) id in
  at_key (nextAllowed (record_failure now id q)) id = now + Z.min cur (backoffMax q) /\
  at_key (backoff (record_failure now id q)) id = Z.min (cur * 2) (backoffMax q).
Proof.
  intros (Hmin & Hmax & Hov) Hcur. cbv zeta.
  destruct (record_failure_at now id q) as (_ & -> & ->).
  unfold failure_wait.
  set (cur := if at_key (backoff q) id =? 0 then backoffMin q else at_key (backoff q) id).
  assert (Hpos : 0 < cur).
  { subst cur. destruct (Z.eqb_spec (at_key (backoff q) id) 0); lia. }
  rewrite minDuration_min.
  destruct (Z.ltb_spec (backoffMax q) cur).
  - rewrite wrap64_small by (unfold in_int64, min_int64, max_int64 in *; lia).
    split; lia.
  - rewrite wrap64_small by (unfold in_int64, min_int64, max_int64 in *; lia).
    split; lia.
Qed.




Section BackoffGrowth.

Variable w : World.
Variable id : string.















End BackoffGrowth.



End QueueSpec.

(* ===================================================================== *)
(** ** binary64: digits, shifts and rounding                              *)
(* ===================================================================== *)

Module Binary64Spec.
Import Floats Uint63 Binary64.

(** digits *)
Lemma digits2_pos_log2 (m : positive) :
  Z.pos (digits2_pos m) = Z.log2 (Z.pos m) + 1.
Proof.
  induction m as [m IH|m IH|]; cbn [digits2_pos].
  - rewrite Pos2Z.inj_succ, IH.
    change (Z.pos m~1) with (2 * Z.pos m + 1).
    rewrite Z.log2_succ_double by lia. lia.
  - rewrite Pos2Z.inj_succ, IH.
    change (Z.pos m~0) with (2 * Z.pos m).
    rewrite Z.log2_double by lia. lia.
  - reflexivity.
Qed.

Lemma digits2_pos_bounds (m : positive) :
  2 ^ (Z.pos (digits2_pos m) - 1) <= Z.pos m < 2 ^ Z.pos (digits2_pos m).
Proof.
  rewrite digits2_pos_log2.
  pose proof (Z.log2_spec (Z.pos m) ltac:(lia)) as H.
  replace (Z.log2 (Z.pos m) + 1 - 1) with (Z.log2 (Z.pos m)) by lia.
  replace (Z.log2 (Z.pos m) + 1) with (Z.succ (Z.log2 (Z.pos m))) by lia.
  exact H.
Qed.

(** digits are characterised by the bounds *)
Lemma digits2_pos_unique (m : positive) (d : Z) :
  2 ^ (d - 1) <= Z.pos m < 2 ^ d -> Z.pos (digits2_pos m) = d.
Proof.
  intros H. rewrite digits2_pos_log2.
  assert (0 < d).
  { destruct (Z.ltb_spec 0 d); [assumption|].
    assert (2 ^ d <= 1).
    { destruct (Z.eq_dec d 0) as [->|]; [cbn; lia|].
      rewrite Z.pow_neg_r by lia. lia. }
    lia. }
  assert (Z.log2 (Z.pos m) = d - 1); [|lia].
  apply Z.log2_unique; [lia|]. replace (Z.succ (d - 1)) with d by lia. exact H.
Qed.

(** left shifts *)
Lemma iter_xO (d m : positive) :
  Z.pos (Pos.iter xO m d) = Z.pos m * 2 ^ Z.pos d.
Proof.
  revert m. induction d as [|d IH] using Pos.peano_ind; intros m.
  - cbn. lia.
  - rewrite Pos.iter_succ. change (Z.pos (Pos.iter xO m d)~0) with (2 * Z.pos (Pos.iter xO m d)).
    rewrite IH, Pos2Z.inj_succ, Z.pow_succ_r by lia. lia.
Qed.

(** right shifts *)
Lemma iter_pos_nat {A : Type} (f : A -> A) (p : positive) (x : A) :
  iter_pos f p x = Nat.iter (Pos.to_nat p) f x.
Proof.
  revert x. induction p as [p IH|p IH|]; intros x; cbn [iter_pos].
  - rewrite !IH, Pos2Nat.inj_xI.
    rewrite <- Nat.iter_succ_r, <- Nat.iter_add. f_equal. lia.
  - rewrite !IH, Pos2Nat.inj_xO. rewrite <- Nat.iter_add. f_equal. lia.
  - reflexivity.
Qed.

Lemma shr_1_m (r : shr_record) :
  0 <= shr_m r -> shr_m (shr_1 r) = shr_m r / 2.
Proof.
  destruct r as [m r s]. cbn [shr_m]. intros Hm.
  destruct m as [|p|p]; [reflexivity| |lia].
  destruct p as [p|p|]; cbn [shr_1 shr_m].
  - change (Z.pos p~1) with (2 * Z.pos p + 1).
    apply Z.div_unique with 1; lia.
  - change (Z.pos p~0) with (2 * Z.pos p).
    apply Z.div_unique with 0; lia.
  - reflexivity.
Qed.

Lemma iter_shr_1_m (n : nat) (r : shr_record) :
  0 <= shr_m r -> shr_m (Nat.iter n shr_1 r) = shr_m r / 2 ^ Z.of_nat n.
Proof.
  intros Hm. induction n as [|n IH].
  - cbn. rewrite Z.div_1_r. reflexivity.
  - change (Nat.iter (S n) shr_1 r) with (shr_1 (Nat.iter n shr_1 r)).
    rewrite shr_1_m.
    + rewrite IH, Nat2Z.inj_succ, Z.pow_succ_r by lia.
      rewrite Z.div_div by (try apply Z.pow_pos_nonneg; lia).
      f_equal. lia.
    + rewrite IH. apply Z.div_pos; [lia|]. apply Z.pow_pos_nonneg; lia.
Qed.

Lemma shr_m_spec (r : shr_record) (e n : Z) :
  0 <= shr_m r ->
  shr_m (fst (shr r e n)) = shr_m r / 2 ^ Z.max 0 n /\
  snd (shr r e n) = e + Z.max 0 n.
Proof.
  intros Hm. unfold shr. destruct n as [|p|p]; cbn [fst snd].
  - cbn. rewrite Z.div_1_r. split; lia.
  - rewrite iter_pos_nat, iter_shr_1_m by exact Hm.
    rewrite positive_nat_Z. replace (Z.max 0 (Z.pos p)) with (Z.pos p) by lia. split; reflexivity.
  - cbn. rewrite Z.div_1_r. split; lia.
Qed.



Lemma fexp64_eq (x : Z) : fexp64 x = Z.max (x - 53) emin64.
Proof. reflexivity. Qed.

Lemma shr_nonpos (r : shr_record) (e n : Z) : n <= 0 -> shr r e n = (r, e).
Proof. intros H. destruct n as [|p|p]; [reflexivity|lia|reflexivity]. Qed.

Lemma round_nearest_even_cases (m : Z) (l : location) :
  round_nearest_even m l = m \/ round_nearest_even m l = m + 1.
Proof.
  destruct l as [|[| |]]; cbn; auto. destruct (Z.even m); auto.
Qed.

Lemma Zdigits2_pos (m : Z) : 0 < m -> Zdigits2 m = Z.log2 m + 1.
Proof. destruct m as [|p|p]; try lia. intros _. apply digits2_pos_log2. Qed.

Lemma Zdigits2_le53 (m : Z) : 1 <= m < 2 ^ 53 -> Zdigits2 m <= 53.
Proof.
  intros H. rewrite Zdigits2_pos by lia.
  assert (Z.log2 m < 53) by (apply Z.log2_lt_pow2; lia). lia.
Qed.

(** Rounding a positive integer mantissa that, once shifted to the
    exponent the format asks for, has at most 53 digits. *)
Lemma binary_round_aux_exact (s : bool) (M : positive) (E : Z) :
  let p := Z.max 0 (fexp64 (Z.pos (digits2_pos M) + E) - E) in
  let m' := Z.pos M / 2 ^ p in
  1 <= m' < 2 ^ 53 ->
  emin64 <= E + p ->
  exists mc,
    (mc = m' \/ mc = m' + 1) /\
    (p = 0 -> mc = m') /\
    binary_round_aux prec emax s (Z.pos M) E loc_Exact =
      if mc <? 2 ^ 53
      then (if E + p <=? 971 then S754_finite s (Z.to_pos mc) (E + p)
            else S754_infinity s)
      else (if E + p + 1 <=? 971 then S754_finite s (Z.to_pos (2 ^ 52)) (E + p + 1)
            else S754_infinity s).
Proof.
  intros p m' Hm' HE.
  unfold binary_round_aux, shr_fexp. cbn [Zdigits2 shr_record_of_loc].
  set (n := fexp64 (Z.pos (digits2_pos M) + E) - E) in *.
  set (r0 := {| shr_m := Z.pos M; shr_r := false; shr_s := false |}).
  destruct (shr_m_spec r0 E n ltac:(cbn; lia)) as [Hm He].
  fold p in Hm, He. cbn [shr_m r0] in Hm. fold m' in Hm.
  destruct (shr r0 E n) as [mrs' e'] eqn:E1. cbn [fst snd] in Hm, He. subst e'.
  set (mc := round_nearest_even (shr_m mrs') (loc_of_shr_record mrs')).
  assert (Hmc : mc = m' \/ mc = m' + 1).
  { subst mc. rewrite <- Hm. apply round_nearest_even_cases. }
  assert (Hp0 : p = 0 -> mc = m').
  { intros Hp. assert (n <= 0) by lia.
    rewrite shr_nonpos in E1 by assumption. injection E1 as <- _.
    subst mc. cbn. exact Hm. }
  exists mc. split; [exact Hmc|]. split; [exact Hp0|].
  assert (Hmc1 : 1 <= mc <= 2 ^ 53) by lia.
  destruct (Z.ltb_spec mc (2 ^ 53)) as [Hlt|Hge].
  - (* no carry *)
    assert (Hn2 : fexp64 (Zdigits2 mc + (E + p)) - (E + p) <= 0).
    { pose proof (Zdigits2_le53 mc ltac:(lia)). rewrite fexp64_eq. lia. }
    rewrite shr_nonpos by exact Hn2.
    destruct mc as [|q|q]; try lia. cbn [shr_m shr_record_of_loc].
    reflexivity.
  - assert (mc = 2 ^ 53) by lia.
    assert (Hd : Zdigits2 mc = 54).
    { rewrite H. reflexivity. }
    rewrite Hd.
    assert (Hn2 : fexp64 (54 + (E + p)) - (E + p) = 1) by (rewrite fexp64_eq; lia).
    rewrite Hn2, H. cbn [shr shr_record_of_loc iter_pos shr_1 fst snd shr_m].
    change (2 ^ 53) with 9007199254740992. cbn [shr_1 shr_m].
    reflexivity.
Qed.


Lemma shl_align_spec (M : positive) (E f : Z) :
  Z.pos (fst (shl_align M E f)) = Z.pos M * 2 ^ Z.max 0 (E - f) /\
  snd (shl_align M E f) = Z.min E f.
Proof.
  unfold shl_align. destruct (f - E) as [|d|d] eqn:Hd; cbn [fst snd].
  - replace (Z.max 0 (E - f)) with 0 by lia. cbn. split; lia.
  - replace (Z.max 0 (E - f)) with 0 by lia. cbn. split; lia.
  - rewrite iter_xO. replace (Z.max 0 (E - f)) with (Z.pos d) by lia. split; lia.
Qed.

(** What validity says of a finite binary64 number. *)
Lemma bounded_spec (m : positive) (e : Z) :
  bounded prec emax m e = true ->
  emin64 <= e <= 971 /\
  Z.pos (digits2_pos m) <= 53 /\
  (emin64 < e -> Z.pos (digits2_pos m) = 53).
Proof.
  unfold bounded, canonical_mantissa. intros H.
  apply andb_true_iff in H as [H1 H2].
  apply Z.eqb_eq in H1. apply Z.leb_le in H2. rewrite fexp64_eq in H1.
  change (emax - prec) with 971 in H2. lia.
Qed.


Lemma SFleb_finite (m1 : positive) (e1 : Z) (m2 : positive) (e2 : Z) :
  e1 < e2 \/ (e1 = e2 /\ Z.pos m1 <= Z.pos m2) ->
  SFleb (S754_finite false m1 e1) (S754_finite false m2 e2) = true.
Proof.
  intros H. unfold SFleb, SFcompare.
  destruct (Z.compare_spec e1 e2) as [He|He|He]; [|reflexivity|lia].
  destruct H as [H|[_ H]]; [lia|].
  change (Pos.compare_cont Eq m1 m2) with (Pos.compare m1 m2).
  destruct (Pos.compare_spec m1 m2) as [Hm|Hm|Hm]; try reflexivity. lia.
Qed.

Lemma pow2_pos (x : Z) : 0 <= x -> 0 < 2 ^ x.
Proof. intros. apply Z.pow_pos_nonneg; lia. Qed.

Lemma pow2_split (a b : Z) : 0 <= a -> 0 <= b -> 2 ^ (a + b) = 2 ^ a * 2 ^ b.
Proof. intros. apply Z.pow_add_r; lia. Qed.

(** Rounding is monotone against a representable bound: a positive
    quantity M * 2^E below a valid finite number rounds to a finite number
    that is not above it. *)
Lemma binary_round_le (M : positive) (E : Z) (mt : positive) (et : Z) :
  emin64 <= E ->
  bounded prec emax mt et = true ->
  Z.pos M * 2 ^ (E - emin64) < Z.pos mt * 2 ^ (et - emin64) ->
  exists m e,
    binary_round prec emax false M E = S754_finite false m e /\
    (e < et \/ (e = et /\ Z.pos m <= Z.pos mt)).
Proof.
  intros HE Hb Hlt.
  destruct (bounded_spec mt et Hb) as (Het & Hdt & Hnorm).
  pose proof (digits2_pos_bounds M) as HdM.
  pose proof (digits2_pos_bounds mt) as Hdmt.
  set (d := Z.pos (digits2_pos M)) in *.
  set (dt := Z.pos (digits2_pos mt)) in *.
  assert (Hd1 : 1 <= d) by (subst d; lia).
  assert (Hdt1 : 1 <= dt) by (subst dt; lia).
  (* magnitudes *)
  assert (Hmag : d + E <= dt + et).
  { assert (2 ^ (d - 1) * 2 ^ (E - emin64) < 2 ^ dt * 2 ^ (et - emin64)).
    { pose proof (pow2_pos (E - emin64) ltac:(lia)).
      pose proof (pow2_pos (et - emin64) ltac:(lia)). nia. }
    rewrite <- !pow2_split in H by lia.
    apply Z.pow_lt_mono_r_iff in H; lia. }
  unfold binary_round. fold d.
  set (f0 := fexp64 (d + E)).
  assert (Hf0 : f0 = Z.max (d + E - 53) emin64) by reflexivity.
  assert (Hf0et : f0 <= et) by lia.
  destruct (shl_align_spec M E f0) as [Hmz Hez].
  destruct (shl_align M E f0) as [mz ez] eqn:Esh. cbn [fst snd] in Hmz, Hez.
  assert (Hdz : Z.pos (digits2_pos mz) + ez = d + E).
  { destruct (Z.ltb_spec f0 E) as [Hc|Hc].
    - (* shifted left *)
      replace (Z.max 0 (E - f0)) with (E - f0) in Hmz by lia.
      replace ez with f0 by lia.
      assert (Z.pos (digits2_pos mz) = d + (E - f0)); [|lia].
      apply digits2_pos_unique. rewrite Hmz.
      replace (d + (E - f0) - 1) with ((d - 1) + (E - f0)) by lia.
      rewrite !pow2_split by lia.
      pose proof (pow2_pos (E - f0) ltac:(lia)). nia.
    - replace (Z.max 0 (E - f0)) with 0 in Hmz by lia.
      replace ez with E by lia.
      assert (mz = M) by lia. subst mz. reflexivity. }
  destruct (binary_round_aux_exact false mz ez) as (mc & Hmc & Hp0 & Hres).
  - (* at most 53 digits after the shift *)
    rewrite Hdz. fold f0.
    destruct (Z.ltb_spec f0 E) as [Hc|Hc].
    + replace ez with f0 by lia. replace (Z.max 0 (f0 - f0)) with 0 by lia.
      rewrite Z.pow_0_r, Z.div_1_r.
      replace (Z.max 0 (E - f0)) with (E - f0) in Hmz by lia.
      rewrite Hmz. pose proof (pow2_pos (E - f0) ltac:(lia)).
      split; [nia|].
      assert (Z.pos M * 2 ^ (E - f0) < 2 ^ d * 2 ^ (E - f0)) by nia.
      rewrite <- pow2_split in H0 by lia.
      assert (2 ^ (d + (E - f0)) <= 2 ^ 53) by (apply Z.pow_le_mono_r; lia).
      lia.
    + replace ez with E by lia.
      replace (Z.max 0 (E - f0)) with 0 in Hmz by lia.
      assert (mz = M) by lia. subst mz.
      set (p := Z.max 0 (f0 - E)).
      assert (Hp : 0 <= p <= d - 1) by lia.
      pose proof (pow2_pos p ltac:(lia)).
      split.
      * apply Z.div_le_lower_bound; [lia|].
        assert (2 ^ p <= 2 ^ (d - 1)) by (apply Z.pow_le_mono_r; lia). lia.
      * apply Z.div_lt_upper_bound; [lia|].
        assert (2 ^ d <= 2 ^ p * 2 ^ 53).
        { rewrite <- pow2_split by lia. apply Z.pow_le_mono_r; lia. }
        lia.
  - rewrite Hdz. fold f0. lia.
  - rewrite Hdz in *. fold f0 in Hmc, Hp0, Hres.
    rewrite Hres. clear Hres.
    destruct (Z.ltb_spec f0 E) as [Hc|Hc].
    + (* exact: the mantissa was shifted left to exponent f0 *)
      replace ez with f0 in * by lia.
      replace (Z.max 0 (f0 - f0)) with 0 in * by lia.
      rewrite Z.pow_0_r, Z.div_1_r in Hmc, Hp0.
      specialize (Hp0 eq_refl). subst mc.
      replace (Z.max 0 (E - f0)) with (E - f0) in Hmz by lia.
      assert (Hmz53 : Z.pos mz < 2 ^ 53).
      { rewrite Hmz.
        assert (Z.pos M * 2 ^ (E - f0) < 2 ^ d * 2 ^ (E - f0))
          by (pose proof (pow2_pos (E - f0) ltac:(lia)); nia).
        rewrite <- pow2_split in H by lia.
        assert (2 ^ (d + (E - f0)) <= 2 ^ 53) by (apply Z.pow_le_mono_r; lia).
        lia. }
      destruct (Z.ltb_spec (Z.pos mz) (2 ^ 53)); [|lia].
      replace (f0 + 0) with f0 by lia.
      destruct (Z.leb_spec f0 971); [|lia].
      exists mz, f0. rewrite Pos2Z.id. split; [reflexivity|].
      destruct (Z.eq_dec f0 et) as [Heq|Hne]; [right|left; lia].
      split; [exact Heq|].
      assert (Hv : Z.pos mz * 2 ^ (f0 - emin64) < Z.pos mt * 2 ^ (et - emin64)).
      { rewrite Hmz. replace (E - emin64) with ((E - f0) + (f0 - emin64)) in Hlt by lia.
        rewrite pow2_split in Hlt by lia. lia. }
      rewrite Heq in Hv. pose proof (pow2_pos (et - emin64) ltac:(lia)). nia.
    + (* rounded: the mantissa is shifted right by p *)
      replace ez with E in * by lia.
      replace (Z.max 0 (E - f0)) with 0 in Hmz by lia.
      assert (mz = M) by lia. subst mz.
      replace (Z.max 0 (f0 - E)) with (f0 - E) in * by lia.
      set (p := f0 - E) in *.
      replace (E + p) with f0 by (subst p; lia).
      pose proof (pow2_pos p ltac:(subst p; lia)) as Hpp.
      set (Mt := Z.pos mt * 2 ^ (et - f0)).
      assert (HMt : Z.pos M / 2 ^ p < Mt).
      { apply Z.div_lt_upper_bound; [lia|].
        subst Mt.
        replace (et - emin64) with ((et - f0) + (p + (E - emin64))) in Hlt
          by (subst p; lia).
        rewrite !pow2_split in Hlt by (subst p; lia).
        pose proof (pow2_pos (E - emin64) ltac:(lia)).
        pose proof (pow2_pos (et - f0) ltac:(lia)). nia. }
      assert (Hm'1 : 1 <= Z.pos M / 2 ^ p).
      { apply Z.div_le_lower_bound; [lia|].
        assert (2 ^ p <= 2 ^ (d - 1)) by (apply Z.pow_le_mono_r; subst p; lia). lia. }
      assert (Hmc_le : 1 <= mc <= Mt) by lia.
      destruct (Z.ltb_spec mc (2 ^ 53)) as [Hnc|Hcarry].
      * destruct (Z.leb_spec f0 971); [|lia].
        exists (Z.to_pos mc), f0. split; [reflexivity|].
        rewrite Z2Pos.id by lia.
        destruct (Z.eq_dec f0 et) as [Heq|Hne]; [right|left; lia].
        split; [exact Heq|].
        subst Mt. rewrite Heq in Hmc_le. replace (et - et) with 0 in Hmc_le by lia.
        rewrite Z.pow_0_r in Hmc_le. lia.
      * assert (Hf0lt : f0 < et).
        { destruct (Z.eq_dec f0 et) as [Heq|Hne]; [|lia].
          subst Mt. rewrite Heq in Hmc_le. replace (et - et) with 0 in Hmc_le by lia.
          rewrite Z.pow_0_r in Hmc_le.
          assert (2 ^ dt <= 2 ^ 53) by (apply Z.pow_le_mono_r; lia). lia. }
        destruct (Z.leb_spec (f0 + 1) 971); [|lia].
        exists (Z.to_pos (2 ^ 52)), (f0 + 1). split; [reflexivity|].
        destruct (Z.eq_dec (f0 + 1) et) as [Heq|Hne]; [right|left; lia].
        split; [exact Heq|].
        rewrite Z2Pos.id by (apply pow2_pos; lia).
        assert (dt = 53) by (apply Hnorm; lia).
        replace (dt - 1) with 52 in Hdmt by lia. lia.
Qed.


(** *** Signs *)


Lemma finite_nonneg_nonneg x : finite_nonneg x -> nonneg x.
Proof. destruct x as [s|s| |s m e]; cbn; auto. contradiction. Qed.

Lemma shr_fexp_nonneg (m e : Z) (l : location) :
  0 <= m -> 0 <= shr_m (fst (shr_fexp prec emax m e l)).
Proof.
  intros Hm. unfold shr_fexp.
  assert (H0 : 0 <= shr_m (shr_record_of_loc m l))
    by (destruct l as [|[| |]]; exact Hm).
  destruct (shr_m_spec (shr_record_of_loc m l) e
              (fexp64 (Zdigits2 m + e) - e) H0) as [-> _].
  apply Z.div_pos; [exact H0|]. apply pow2_pos. lia.
Qed.

(** Rounding a non-negative mantissa gives a zero, a finite number or an
    infinity of the sign asked for, never a NaN. *)
Lemma binary_round_aux_sign (m e : Z) (l : location) :
  0 <= m -> nonneg (binary_round_aux prec emax false m e l).
Proof.
  intros Hm. unfold binary_round_aux.
  pose proof (shr_fexp_nonneg m e l Hm) as H1.
  destruct (shr_fexp prec emax m e l) as [mrs' e'] eqn:E1. cbn [fst] in H1.
  set (mc := round_nearest_even (shr_m mrs') (loc_of_shr_record mrs')).
  assert (Hmc : 0 <= mc).
  { subst mc.
    destruct (round_nearest_even_cases (shr_m mrs') (loc_of_shr_record mrs')) as [-> | ->];
      lia. }
  pose proof (shr_fexp_nonneg mc e' loc_Exact Hmc) as H2.
  destruct (shr_fexp prec emax mc e' loc_Exact) as [mrs'' e''] eqn:E2. cbn [fst] in H2.
  destruct (shr_m mrs'') as [|q|q]; [exact I| |lia].
  destruct (e'' <=? emax - prec); exact I.
Qed.

Lemma binary_round_sign (m : positive) (e : Z) :
  nonneg (binary_round prec emax false m e).
Proof.
  unfold binary_round.
  destruct (shl_align m e (fexp64 (Z.pos (digits2_pos m) + e))) as [mz ez].
  apply binary_round_aux_sign. lia.
Qed.

Lemma SFmul_nonneg (x y : spec_float) :
  finite_nonneg x -> finite_nonneg y -> nonneg (SF64mul x y).
Proof.
  destruct x as [sx|sx| |[] mx ex], y as [sy|sy| |[] my ey]; cbn; try contradiction; auto.
  intros _ _. apply (binary_round_aux_sign (Z.pos (mx * my))). lia.
Qed.

Lemma SFadd_nonneg (x y : spec_float) :
  nonneg x -> nonneg y -> nonneg (SF64add x y).
Proof.
  destruct x as [sx|[]| |[] mx ex], y as [sy|[]| |[] my ey]; cbn; try contradiction; auto.
  - intros _ _. destruct sx, sy; exact I.
  - intros _ _. apply binary_round_sign.
Qed.

(** *** The order on non-negative numbers *)

Lemma SFleb_zero_nonneg (x : spec_float) :
  SFleb (S754_zero false) x = true <-> nonneg x.
Proof.
  destruct x as [s|[]| |[] m e]; cbn; intuition discriminate.
Qed.

Lemma SFleb_trans_nonneg (x y z : spec_float) :
  nonneg x -> nonneg y -> nonneg z ->
  SFleb x y = true -> SFleb y z = true -> SFleb x z = true.
Proof.
  destruct x as [sx|[]| |[] mx ex], y as [sy|[]| |[] my ey], z as [sz|[]| |[] mz ez];
    cbn; try contradiction; try discriminate; auto.
  intros _ _ _.
  unfold SFleb, SFcompare.
  change (Pos.compare_cont Eq mx my) with (Pos.compare mx my).
  change (Pos.compare_cont Eq my mz) with (Pos.compare my mz).
  change (Pos.compare_cont Eq mx mz) with (Pos.compare mx mz).
  destruct (Z.compare_spec ex ey), (Z.compare_spec ey ez), (Z.compare_spec ex ez);
    try discriminate; try reflexivity; try lia;
    destruct (Pos.compare_spec mx my), (Pos.compare_spec my mz), (Pos.compare_spec mx mz);
    try discriminate; try reflexivity; lia.
Qed.

Lemma SFleb_refl_nonneg (x : spec_float) : nonneg x -> SFleb x x = true.
Proof.
  destruct x as [sx|[]| |[] mx ex]; cbn; try contradiction; auto.
  intros _. unfold SFleb, SFcompare. rewrite Z.compare_refl.
  change (Pos.compare_cont Eq mx mx) with (Pos.compare mx mx).
  rewrite Pos.compare_refl. reflexivity.
Qed.

Lemma SFltb_false_leb_nonneg (x y : spec_float) :
  nonneg x -> nonneg y -> SFltb x y = false -> SFleb y x = true.
Proof.
  destruct x as [sx|[]| |[] mx ex], y as [sy|[]| |[] my ey];
    cbn; try contradiction; try discriminate; auto.
  intros _ _.
  unfold SFltb, SFleb, SFcompare.
  change (Pos.compare_cont Eq mx my) with (Pos.compare mx my).
  change (Pos.compare_cont Eq my mx) with (Pos.compare my mx).
  rewrite (Z.compare_antisym ex ey), (Pos.compare_antisym mx my).
  destruct (ex ?= ey); cbn; try discriminate; try reflexivity.
  destruct (mx ?= my)%positive; cbn; try discriminate; reflexivity.
Qed.

(** *** Taking one token *)


Lemma SFsub_one (t : spec_float) :
  valid_binary t = true ->
  SFleb one64 t = true ->
  nonneg (SF64sub t one64) /\ SFleb (SF64sub t one64) t = true.
Proof.
  intros Hv H1.
  destruct t as [s|[]| |[] m e]; try discriminate H1.
  - split; reflexivity.
  - cbn [valid_binary] in Hv.
    destruct (bounded_spec m e Hv) as (He & Hd & Hnorm).
    assert (Hexp : -52 <= e).
    { unfold SFleb, one64, SFcompare in H1.
      destruct (Z.compare_spec (-52) e); try lia; try discriminate. }
    pose proof (digits2_pos_bounds m) as Hm.
    rewrite (Hnorm ltac:(lia)) in Hm. change (2 ^ (53 - 1)) with 4503599627370496 in Hm.
    unfold SF64sub, SFsub, one64. cbn [cond_Zopp].
    replace (Z.min e (-52)) with (-52) by lia.
    destruct (shl_align_spec m e (-52)) as [Ha _].
    destruct (shl_align_spec 4503599627370496 (-52) (-52)) as [Hb _].
    replace (Z.max 0 (e - -52)) with (e + 52) in Ha by lia.
    change (Z.max 0 (-52 - -52)) with 0 in Hb. rewrite Z.pow_0_r, Z.mul_1_r in Hb.
    set (a := fst (shl_align m e (-52))) in *.
    set (b := fst (shl_align 4503599627370496 (-52) (-52))) in *.
    pose proof (pow2_pos (e + 52) ltac:(lia)) as Hp.
    destruct (Z.pos a - Z.pos b) as [|D|D] eqn:HD.
    + cbn [binary_normalize]. split; reflexivity.
    + cbn [binary_normalize].
      destruct (binary_round_le D (-52) m e ltac:(lia) Hv) as (m' & e' & Hr & Hle).
      * replace (e - -1074) with ((e + 52) + (-52 - -1074)) by lia.
        rewrite pow2_split by lia.
        pose proof (pow2_pos (-52 - -1074) ltac:(lia)). nia.
      * rewrite Hr. split; [exact I|]. apply SFleb_finite, Hle.
    + exfalso. nia.
Qed.

Lemma exp_le_finite_nonneg K x : exp_le K x -> finite_nonneg x.
Proof. destruct x as [s|s| |[] m e]; cbn; auto. Qed.

Lemma exp_le_mono K K' x : K <= K' -> exp_le K x -> exp_le K' x.
Proof. destruct x as [s|s| |[] m e]; cbn; auto. lia. Qed.

Lemma Zdigits2_lt_pow2 (m k : Z) : 0 <= k -> 0 <= m < 2 ^ k -> Zdigits2 m <= k.
Proof.
  intros Hk Hm. destruct (Z.eq_dec m 0) as [->|Hne]; [cbn; lia|].
  rewrite Zdigits2_pos by lia.
  assert (Z.log2 m < k) by (apply Z.log2_lt_pow2; lia). lia.
Qed.

Lemma Zdigits2_nonneg (m : Z) : 0 <= Zdigits2 m.
Proof. destruct m; cbn; lia. Qed.

Lemma Zdigits2_upper (m : Z) : 0 <= m -> m < 2 ^ Zdigits2 m.
Proof.
  intros Hm. destruct m as [|p|p]; [cbn; lia| |lia].
  apply (digits2_pos_bounds p).
Qed.

(** The exponent of the result of rounding. *)
Lemma binary_round_aux_exp (mz ez : Z) (lz : location) (K : Z) :
  0 <= mz -> emin64 <= K -> K + 1 <= 971 ->
  ez <= K -> Zdigits2 mz + ez <= K + 53 ->
  exp_le (K + 1) (binary_round_aux prec emax false mz ez lz).
Proof.
  intros Hm HK HK1 Hez Hd.
  unfold binary_round_aux, shr_fexp.
  set (d := Zdigits2 mz) in *.
  set (n1 := fexp64 (d + ez) - ez).
  assert (H0 : 0 <= shr_m (shr_record_of_loc mz lz))
    by (destruct lz as [|[| |]]; exact Hm).
  assert (Hrec : shr_m (shr_record_of_loc mz lz) = mz)
    by (destruct lz as [|[| |]]; reflexivity).
  destruct (shr_m_spec (shr_record_of_loc mz lz) ez n1 H0) as [Hm1 He1].
  destruct (shr (shr_record_of_loc mz lz) ez n1) as [mrs' e'] eqn:E1.
  cbn [fst snd] in Hm1, He1. rewrite Hrec in Hm1.
  assert (Hn1 : n1 = Z.max (d + ez - 53) emin64 - ez) by reflexivity.
  assert (He'K : e' <= K) by lia.
  pose proof (Zdigits2_nonneg mz) as Hd0. fold d in Hd0.
  pose proof (Zdigits2_upper mz Hm) as Hup. fold d in Hup.
  assert (Hm'53 : 0 <= shr_m mrs' < 2 ^ 53).
  { rewrite Hm1. pose proof (pow2_pos (Z.max 0 n1) ltac:(lia)) as Hp.
    split; [apply Z.div_pos; lia|].
    apply Z.div_lt_upper_bound; [lia|].
    assert (2 ^ d <= 2 ^ (Z.max 0 n1 + 53)) by (apply Z.pow_le_mono_r; lia).
    rewrite pow2_split in H by lia. lia. }
  set (mc := round_nearest_even (shr_m mrs') (loc_of_shr_record mrs')).
  assert (Hmc : 0 <= mc <= 2 ^ 53).
  { subst mc.
    destruct (round_nearest_even_cases (shr_m mrs') (loc_of_shr_record mrs')) as [-> | ->];
      lia. }
  assert (Hdc : Zdigits2 mc <= 54).
  { apply Zdigits2_lt_pow2; [lia|].
    change (2 ^ 54) with (2 * 2 ^ 53). lia. }
  set (n2 := fexp64 (Zdigits2 mc + e') - e').
  assert (H0c : 0 <= shr_m (shr_record_of_loc mc loc_Exact)) by (cbn; lia).
  destruct (shr_m_spec (shr_record_of_loc mc loc_Exact) e' n2 H0c) as [Hm2 He2].
  destruct (shr (shr_record_of_loc mc loc_Exact) e' n2) as [mrs'' e''] eqn:E2.
  cbn [fst snd] in Hm2, He2.
  assert (Hn2 : n2 = Z.max (Zdigits2 mc + e' - 53) emin64 - e') by reflexivity.
  assert (He'' : e'' <= K + 1) by lia.
  assert (Hm2' : 0 <= shr_m mrs'').
  { rewrite Hm2. apply Z.div_pos; [exact H0c|]. apply pow2_pos. lia. }
  destruct (shr_m mrs'') as [|q|q]; [exact I| |lia].
  change (emax - prec) with 971.
  destruct (Z.leb_spec e'' 971); [exact He''|lia].
Qed.

(** Rounding a positive integer below a power of two. *)
Lemma binary_round_exp (M : positive) (E K : Z) :
  emin64 <= E -> emin64 <= K <= 971 ->
  Z.pos M * 2 ^ (E - emin64) < 2 ^ (K + 52 - emin64) ->
  exp_le K (binary_round prec emax false M E).
Proof.
  intros HE HK Hlt.
  destruct (binary_round_le M E (Z.to_pos (2 ^ 52)) K HE) as (m & e & -> & Hle).
  - unfold bounded, canonical_mantissa. apply andb_true_iff. split.
    + apply Z.eqb_eq. change (Z.pos (digits2_pos (Z.to_pos (2 ^ 52)))) with 53.
      rewrite fexp64_eq. lia.
    + apply Z.leb_le. change (emax - prec) with 971. lia.
  - change (Z.pos (Z.to_pos (2 ^ 52))) with (2 ^ 52).
    rewrite <- pow2_split by lia.
    replace (52 + (K - emin64)) with (K + 52 - emin64) by lia. exact Hlt.
  - cbn. lia.
Qed.

Lemma of_uint63_exp (i : int) : exp_le 12 (Prim2SF (of_uint63 i)).
Proof.
  rewrite of_uint63_spec.
  pose proof (Uint63.to_Z_bounded i) as Hb.
  change wB with (2 ^ 63) in Hb.
  destruct (to_Z i) as [|M|M] eqn:Ei; [exact I| |lia].
  cbn [binary_normalize].
  apply binary_round_exp; [lia|lia|].
  replace (12 + 52 - emin64) with (64 + (0 - emin64)) by lia.
  rewrite pow2_split by lia.
  pose proof (pow2_pos (0 - emin64) ltac:(lia)).
  change (2 ^ 64) with (2 * 2 ^ 63). nia.
Qed.

(** The value of a valid finite number under its exponent. *)
Lemma valid_value_lt (m : positive) (e : Z) :
  bounded prec emax m e = true ->
  emin64 <= e <= 971 /\ Z.pos m < 2 ^ 53.
Proof.
  intros Hb. destruct (bounded_spec m e Hb) as (He & Hd & _).
  split; [exact He|].
  pose proof (digits2_pos_bounds m) as [_ Hu].
  assert (2 ^ Z.pos (digits2_pos m) <= 2 ^ 53) by (apply Z.pow_le_mono_r; lia).
  lia.
Qed.

Lemma SFadd_exp (K : Z) (x y : spec_float) :
  valid_binary x = true -> valid_binary y = true ->
  emin64 <= K -> K + 2 <= 971 ->
  exp_le K x -> exp_le K y -> exp_le (K + 2) (SF64add x y).
Proof.
  intros Hvx Hvy HK HK2.
  destruct x as [sx|[]| |[] mx ex], y as [sy|[]| |[] my ey]; cbn [exp_le];
    try contradiction; intros Hx Hy.
  - cbn. destruct sx, sy; exact I.
  - cbn. lia.
  - cbn. lia.
  - cbn [valid_binary] in Hvx, Hvy.
    destruct (valid_value_lt mx ex Hvx) as [Hex Hmx].
    destruct (valid_value_lt my ey Hvy) as [Hey Hmy].
    unfold SF64add, SFadd. cbn [cond_Zopp].
    set (ez := Z.min ex ey).
    destruct (shl_align_spec mx ex ez) as [Ha _].
    destruct (shl_align_spec my ey ez) as [Hb _].
    set (a := fst (shl_align mx ex ez)) in *.
    set (b := fst (shl_align my ey ez)) in *.
    change (Z.pos a + Z.pos b) with (Z.pos (a + b)).
    cbn [binary_normalize].
    apply binary_round_exp; [subst ez; lia|lia|].
    rewrite Pos2Z.inj_add, Ha, Hb.
    replace (Z.max 0 (ex - ez)) with (ex - ez) by (subst ez; lia).
    replace (Z.max 0 (ey - ez)) with (ey - ez) by (subst ez; lia).
    rewrite Z.mul_add_distr_r, <- !Z.mul_assoc, <- !pow2_split by (subst ez; lia).
    replace (ex - ez + (ez - emin64)) with (ex - emin64) by lia.
    replace (ey - ez + (ez - emin64)) with (ey - emin64) by lia.
    assert (H1 : Z.pos mx * 2 ^ (ex - emin64) < 2 ^ 53 * 2 ^ (K - emin64)).
    { assert (2 ^ (ex - emin64) <= 2 ^ (K - emin64)) by (apply Z.pow_le_mono_r; lia).
      pose proof (pow2_pos (ex - emin64) ltac:(lia)). nia. }
    assert (H2 : Z.pos my * 2 ^ (ey - emin64) < 2 ^ 53 * 2 ^ (K - emin64)).
    { assert (2 ^ (ey - emin64) <= 2 ^ (K - emin64)) by (apply Z.pow_le_mono_r; lia).
      pose proof (pow2_pos (ey - emin64) ltac:(lia)). nia. }
    replace (K + 2 + 52 - emin64) with (1 + (53 + (K - emin64))) by lia.
    rewrite (pow2_split 1), (pow2_split 53) by lia.
    change (2 ^ 1) with 2. lia.
Qed.


Lemma SFdiv_billion_exp (x : spec_float) :
  valid_binary x = true -> finite_nonneg x ->
  exp_le 961 (SF64div x billion64).
Proof.
  intros Hv Hx.
  destruct x as [sx|[]| |[] mx ex]; cbn [finite_nonneg] in Hx; try contradiction.
  - exact I.
  - cbn [valid_binary] in Hv.
    destruct (valid_value_lt mx ex Hv) as [Hex Hmx].
    unfold SF64div, SFdiv, billion64, SFdiv_core_binary.
    change (Zdigits2 8388608000000000) with 53.
    set (d1 := Zdigits2 (Z.pos mx)).
    assert (Hd1 : 1 <= d1 <= 53).
    { subst d1. split; [cbn; lia|]. apply Zdigits2_le53. lia. }
    set (e' := Z.min (fexp64 (d1 + ex - (53 + -23))) (ex - -23)).
    assert (He' : emin64 <= e' <= 941 /\ e' <= ex + 23).
    { subst e'. rewrite fexp64_eq. lia. }
    set (s := ex - -23 - e').
    assert (Hs : 0 <= s) by (subst s; lia).
    set (m' := match s with Z.pos _ => Z.shiftl (Z.pos mx) s | 0 => Z.pos mx | Z.neg _ => 0 end).
    assert (Hm' : m' = Z.pos mx * 2 ^ s).
    { subst m'. destruct s as [|p|p] eqn:Es; [cbn; lia| |lia].
      rewrite Z.shiftl_mul_pow2 by lia. reflexivity. }
    pose proof (Z.div_eucl_eq m' 8388608000000000 ltac:(lia)) as Hdiv.
    pose proof (Z.mod_pos_bound m' 8388608000000000 ltac:(lia)) as Hmod.
    unfold Z.modulo in Hmod.
    destruct (Z.div_eucl m' 8388608000000000) as [q r] eqn:Eq.
    cbn [xorb].
    pose proof (pow2_pos s Hs) as Hps.
    assert (Hq : 0 <= q < 2 ^ (1 + s)).
    { rewrite pow2_split by lia. change (2 ^ 1) with 2.
      assert (m' < 2 ^ 53 * 2 ^ s) by (rewrite Hm'; nia).
      assert (0 <= m') by (rewrite Hm'; nia).
      change (2 ^ 53) with 9007199254740992 in *.
      split; nia. }
    change (exp_le (960 + 1) (binary_round_aux prec emax false q e' (new_location 8388608000000000 r))).
    apply binary_round_aux_exp; try lia.
    pose proof (Zdigits2_lt_pow2 q (1 + s) ltac:(lia) Hq). subst s. lia.
Qed.

End Binary64Spec.

(* ===================================================================== *)
(** ** package ratelimit: the bounds of the token bucket                  *)
(* ===================================================================== *)

Module TokenBucketSpec.
Import GoInt GoTime Floats Uint63 Binary64 Binary64Spec TokenBucket TokenBucketObs.

Lemma Prim2SF_zero : Prim2SF 0 = S754_zero false.
Proof. reflexivity. Qed.
Lemma Prim2SF_one : Prim2SF 1 = one64.
Proof. reflexivity. Qed.
Lemma Prim2SF_infinity : Prim2SF infinity = S754_infinity false.
Proof. reflexivity. Qed.
Lemma Prim2SF_billion : Prim2SF 1000000000 = billion64.
Proof. reflexivity. Qed.

Lemma finite_nonneg_float_spec (x : float) :
  finite_nonneg_float x <-> finite_nonneg (Prim2SF x).
Proof.
  unfold finite_nonneg_float.
  rewrite FloatAxioms.leb_spec, FloatAxioms.ltb_spec, Prim2SF_zero, Prim2SF_infinity.
  destruct (Prim2SF x) as [s|[]| |[] m e]; cbn; intuition discriminate.
Qed.

Lemma nonneg_float (x : float) :
  (0 <=? x)%float = true <-> nonneg (Prim2SF x).
Proof. rewrite FloatAxioms.leb_spec, Prim2SF_zero. apply SFleb_zero_nonneg. Qed.

Lemma float64_of_int_nonneg (z : Z) :
  0 <= z -> exp_le 12 (Prim2SF (float64_of_int z)).
Proof.
  intros Hz. destruct z as [|p|p]; [exact I| |lia].
  apply of_uint63_exp.
Qed.

(** A non-negative duration is a finite, non-negative number of seconds. *)
Lemma Seconds_finite_nonneg (d : Duration) :
  0 <= d -> finite_nonneg_float (Seconds d).
Proof.
  intros Hd. apply finite_nonneg_float_spec. unfold Seconds.
  assert (Hq : 0 <= Z.quot d Second) by (apply Z.quot_pos; unfold Second; lia).
  assert (Hr : 0 <= Z.rem d Second) by (apply Z.rem_nonneg; unfold Second; lia).
  rewrite FloatAxioms.add_spec.
  apply (exp_le_finite_nonneg (961 + 2)).
  apply SFadd_exp; try apply Prim2SF_valid; try lia.
  - apply (exp_le_mono 12); [lia|]. apply float64_of_int_nonneg, Hq.
  - rewrite FloatAxioms.div_spec, Prim2SF_billion.
    apply SFdiv_billion_exp; [apply Prim2SF_valid|].
    apply (exp_le_finite_nonneg 12), float64_of_int_nonneg, Hr.
Qed.

Lemma Sub_nonneg (now t : Time) : t <= now -> 0 <= Sub now t.
Proof.
  intros H. unfold Sub, sat64, min_int64, max_int64.
  destruct (Z.ltb_spec (now - t) (- 2 ^ 63)); [lia|].
  destruct (Z.ltb_spec (2 ^ 63 - 1) (now - t)); lia.
Qed.

Lemma SFleb_false_ltb_nonneg (x y : spec_float) :
  nonneg x -> nonneg y -> SFleb x y = false -> SFltb y x = true.
Proof.
  destruct x as [sx|[]| |[] mx ex], y as [sy|[]| |[] my ey];
    cbn; try contradiction; try discriminate; auto.
  intros _ _.
  unfold SFltb, SFleb, SFcompare.
  change (Pos.compare_cont Eq mx my) with (Pos.compare mx my).
  change (Pos.compare_cont Eq my mx) with (Pos.compare my mx).
  rewrite (Z.compare_antisym ex ey), (Pos.compare_antisym mx my).
  destruct (ex ?= ey); cbn; try discriminate; try reflexivity.
  destruct (mx ?= my)%positive; cbn; try discriminate; reflexivity.
Qed.

(** The refilled amount is a number between zero and the capacity. *)
Lemma refilled_bounds (now : Time) (tb : TokenBucket) :
  finite_nonneg_float (rate tb) ->
  lastUpdate tb <= now ->
  within_bounds tb ->
  nonneg (Prim2SF (refilled now tb)) /\
  nonneg (Prim2SF (float64_of_int (burst tb))) /\
  SFleb (Prim2SF (refilled now tb)) (Prim2SF (float64_of_int (burst tb))) = true.
Proof.
  intros Hrate Hel [Hlo Hhi].
  apply finite_nonneg_float_spec in Hrate.
  pose proof (Seconds_finite_nonneg _ (Sub_nonneg _ _ Hel)) as Hsec.
  apply finite_nonneg_float_spec in Hsec.
  unfold refilled.
  set (elapsed := Seconds (Sub now (lastUpdate tb))) in *.
  set (B := float64_of_int (burst tb)) in *.
  set (y := (tokens tb + elapsed * rate tb)%float).
  assert (Ht : nonneg (Prim2SF (tokens tb))) by (apply nonneg_float, Hlo).
  assert (Hy : nonneg (Prim2SF y)).
  { subst y. rewrite FloatAxioms.add_spec, FloatAxioms.mul_spec.
    apply SFadd_nonneg; [exact Ht|apply SFmul_nonneg; assumption]. }
  assert (HB : nonneg (Prim2SF B)).
  { rewrite FloatAxioms.leb_spec in Hhi.
    destruct (Prim2SF B) as [s|[]| |[] m e]; try exact I;
      destruct (Prim2SF (tokens tb)) as [s'|[]| |[] m' e']; cbn in *;
      try contradiction; discriminate. }
  unfold min. destruct (B <? y)%float eqn:E.
  - repeat split; [exact HB|exact HB|apply SFleb_refl_nonneg, HB].
  - repeat split; [exact Hy|exact HB|]. rewrite FloatAxioms.ltb_spec in E.
    apply SFltb_false_leb_nonneg; assumption.
Qed.

(** C8, as stated, fails for a bucket whose rate is negative:
    [NewTokenBucket(-1, 5)] holds 5 tokens, within its bounds, and a call of
    [Allow] ten seconds later leaves it with -5 tokens. *)
Lemma negative_rate_breaks_invariant :
  within_bounds (NewTokenBucket (-1) 5 0) /\
  tokens (snd (Allow 10000000000 (NewTokenBucket (-1) 5 0))) = (-5)%float /\
  ~ invariant_preserved 10000000000 (NewTokenBucket (-1) 5 0).
Proof.
  split; [split; reflexivity|]. split; [reflexivity|].
  intros H.
  assert (Hb : within_bounds (snd (Allow 10000000000 (NewTokenBucket (-1) 5 0)))).
  { apply H; [cbn; lia|]. split; reflexivity. }
  destruct Hb as [Hlo _]. vm_compute in Hlo. discriminate Hlo.
Qed.

(** C8, amended: the rate is a finite number that is not negative.  Then
    a call of [Allow] made no earlier than the last update of a bucket with
    [0 <= tokens <= burst] leaves a bucket with [0 <= tokens <= burst].
    With [refilled] the tokens held plus the elapsed seconds times the rate,
    clamped to the capacity: when [refilled >= 1] the call returns true and
    leaves [refilled - 1] tokens; otherwise [refilled < 1], the call returns
    false and leaves [refilled] tokens.  In both cases the time of the last
    update becomes [now], and the rate and the capacity are unchanged. *)
Theorem Allow_within_bounds (now : Time) (tb : TokenBucket) :
  finite_nonneg_float (rate tb) ->
  lastUpdate tb <= now ->
  within_bounds tb ->
  within_bounds (snd (Allow now tb)) /\
  ((1 <=? refilled now tb)%float = true ->
     Allow now tb =
       (true, mkTokenBucket (rate tb) (burst tb) (refilled now tb - 1)%float now)) /\
  ((1 <=? refilled now tb)%float = false ->
     (refilled now tb <? 1)%float = true /\
     Allow now tb =
       (false, mkTokenBucket (rate tb) (burst tb) (refilled now tb) now)).
Proof.
  intros Hrate Hel Hinv.
  destruct (refilled_bounds now tb Hrate Hel Hinv) as (Hn & HB & Hle).
  unfold Allow. change (min _ _) with (refilled now tb).
  set (t' := refilled now tb) in *.
  set (B := float64_of_int (burst tb)) in *.
  destruct (1 <=? t')%float eqn:E1.
  - split; [|split; [reflexivity|discriminate]].
    unfold within_bounds. cbn [snd tokens burst]. fold B.
    rewrite FloatAxioms.leb_spec, Prim2SF_one in E1.
    destruct (SFsub_one (Prim2SF t') (Prim2SF_valid t') E1) as [Hr Hrt].
    rewrite !FloatAxioms.leb_spec, FloatAxioms.sub_spec, Prim2SF_zero, Prim2SF_one.
    split; [apply SFleb_zero_nonneg, Hr|].
    apply (SFleb_trans_nonneg _ (Prim2SF t')); assumption.
  - split; [|split; [discriminate|]].
    + unfold within_bounds. cbn [snd tokens burst]. fold B.
      rewrite !FloatAxioms.leb_spec, Prim2SF_zero.
      split; [apply SFleb_zero_nonneg, Hn|exact Hle].
    + intros _. split; [|reflexivity].
      rewrite FloatAxioms.leb_spec in E1. rewrite FloatAxioms.ltb_spec.
      apply SFleb_false_ltb_nonneg; [exact I|exact Hn|exact E1].
Qed.

(** The amended C8 at rate 5, capacity 5, on a fresh bucket 1.1 s after
    its creation: the call is allowed and 4 tokens are left. *)
Lemma Allow_within_bounds_witness :
  within_bounds (snd (Allow 1100000000 (NewTokenBucket 5 5 0))) /\
  Allow 1100000000 (NewTokenBucket 5 5 0) =
    (true, mkTokenBucket 5 5 4 1100000000).
Proof.
  destruct (Allow_within_bounds 1100000000 (NewTokenBucket 5 5 0)) as (Hb & Ht & _).
  - split; reflexivity.
  - cbn. lia.
  - split; reflexivity.
  - split; [exact Hb|]. rewrite Ht by reflexivity. reflexivity.
Defined.

End TokenBucketSpec.

(* ===================================================================== *)
(** ** package circuitbreaker: sequences of calls                         *)
(* ===================================================================== *)

Module CircuitBreakerRunsSpec.
Import GoInt GoTime GoIntSpec CircuitBreaker CircuitBreakerRuns.

Lemma failures_app ts ts' cb : failures (ts ++ ts') cb = failures ts' (failures ts cb).
Proof. apply fold_left_app. Qed.

Lemma successes_app ts ts' cb : successes (ts ++ ts') cb = successes ts' (successes ts cb).
Proof. apply fold_left_app. Qed.

(** Failures short of the threshold leave a closed breaker closed and are
    counted one by one. *)
Lemma failures_below_threshold (ts : list Time) : forall cb,
  state cb = StateClosed ->
  0 <= failureCount cb ->
  failureCount cb + Z.of_nat (length ts) < failureThreshold cb ->
  failureThreshold cb <= max_int64 ->
  state (failures ts cb) = StateClosed /\
  failureCount (failures ts cb) = failureCount cb + Z.of_nat (length ts) /\
  failureThreshold (failures ts cb) = failureThreshold cb /\
  lastStateChange (failures ts cb) = lastStateChange cb.
Proof.
  induction ts as [|t ts IH]; intros cb Hst Hfc Hlt Hmax.
  - cbn. repeat split; try assumption; lia.
  - cbn [failures fold_left length] in *. fold (failures ts (RecordFailure t cb)).
    rewrite Nat2Z.inj_succ in Hlt.
    assert (Hw : wrap64 (failureCount cb + 1) = failureCount cb + 1).
    { apply wrap64_small. unfold in_int64, min_int64, max_int64 in *. lia. }
    assert (HR : RecordFailure t cb =
                 set_successCount 0 (set_failureCount (failureCount cb + 1) cb)).
    { unfold RecordFailure. cbn [failureThreshold failureCount set_successCount set_failureCount].
      rewrite Hw. destruct (Z.leb_spec (failureThreshold cb) (failureCount cb + 1)); [lia|reflexivity]. }
    rewrite HR.
    destruct (IH (set_successCount 0 (set_failureCount (failureCount cb + 1) cb)))
      as (H1 & H2 & H3 & H4); cbn; try assumption; try lia.
    cbn in H2, H3, H4. rewrite H1, H2, H3, H4, Nat2Z.inj_succ. repeat split; lia.
Qed.

(** X1: With a threshold of [n >= 1], a closed breaker that has no failure on
    its count stays closed through [n - 1] failures in a row, which it counts,
    and the [n]-th opens it, at the clock reading of that failure. *)
Theorem consecutive_failures_trip (cb : CircuitBreaker) (ts : list Time) (t : Time) :
  state cb = StateClosed ->
  failureCount cb = 0 ->
  failureThreshold cb <= max_int64 ->
  Z.of_nat (length ts) + 1 = failureThreshold cb ->
  (forall k, (k <= length ts)%nat ->
     state (failures (firstn k ts) cb) = StateClosed /\
     failureCount (failures (firstn k ts) cb) = Z.of_nat k) /\
  state (failures (ts ++ [t]) cb) = StateOpen /\
  lastStateChange (failures (ts ++ [t]) cb) = t /\
  failureCount (failures (ts ++ [t]) cb) = failureThreshold cb.
Proof.
  intros Hst Hfc Hmax Hlen. split.
  - intros k Hk.
    destruct (failures_below_threshold (firstn k ts) cb) as (H1 & H2 & _); try assumption.
    + lia.
    + rewrite length_firstn. lia.
    + rewrite length_firstn in H2. split; [exact H1|]. rewrite H2, Hfc. lia.
  - destruct (failures_below_threshold ts cb) as (H1 & H2 & H3 & _); try assumption; try lia.
    rewrite failures_app. cbn [failures fold_left].
    set (cb1 := failures ts cb) in *.
    assert (Hw : wrap64 (failureCount cb1 + 1) = failureCount cb1 + 1).
    { apply wrap64_small. unfold in_int64, min_int64, max_int64 in *. lia. }
    unfold RecordFailure.
    cbn [failureThreshold failureCount set_successCount set_failureCount].
    rewrite Hw, H3.
    destruct (Z.leb_spec (failureThreshold cb) (failureCount cb1 + 1)); [|lia].
    cbn. repeat split; lia.
Qed.

Lemma consecutive_failures_trip_witness :
  (forall k, (k <= 2)%nat ->
     state (failures (firstn k [10; 20]) (NewCircuitBreaker 3 2 (100 * Millisecond) 0)) = StateClosed /\
     failureCount (failures (firstn k [10; 20]) (NewCircuitBreaker 3 2 (100 * Millisecond) 0)) = Z.of_nat k) /\
  state (failures ([10; 20] ++ [30]) (NewCircuitBreaker 3 2 (100 * Millisecond) 0)) = StateOpen /\
  lastStateChange (failures ([10; 20] ++ [30]) (NewCircuitBreaker 3 2 (100 * Millisecond) 0)) = 30 /\
  failureCount (failures ([10; 20] ++ [30]) (NewCircuitBreaker 3 2 (100 * Millisecond) 0)) = 3.
Proof.
  apply (consecutive_failures_trip (NewCircuitBreaker 3 2 (100 * Millisecond) 0) [10; 20] 30).
  - reflexivity.
  - reflexivity.
  - vm_compute. discriminate.
  - reflexivity.
Defined.

(** Successes short of the threshold leave a half-open breaker half-open. *)
Lemma successes_below_threshold (ts : list Time) : forall cb,
  state cb = StateHalfOpen ->
  0 <= successCount cb ->
  successCount cb + Z.of_nat (length ts) < successThreshold cb ->
  successThreshold cb <= max_int64 ->
  state (successes ts cb) = StateHalfOpen /\
  successCount (successes ts cb) = successCount cb + Z.of_nat (length ts) /\
  successThreshold (successes ts cb) = successThreshold cb /\
  failureCount (successes ts cb) = failureCount cb /\
  lastStateChange (successes ts cb) = lastStateChange cb.
Proof.
  induction ts as [|t ts IH]; intros cb Hst Hsc Hlt Hmax.
  - cbn. repeat split; try assumption; lia.
  - cbn [successes fold_left length] in *. fold (successes ts (RecordSuccess t cb)).
    rewrite Nat2Z.inj_succ in Hlt.
    assert (Hw : wrap64 (successCount cb + 1) = successCount cb + 1).
    { apply wrap64_small. unfold in_int64, min_int64, max_int64 in *. lia. }
    assert (HR : RecordSuccess t cb = set_successCount (successCount cb + 1) cb).
    { unfold RecordSuccess. rewrite Hst.
      cbn [successThreshold successCount set_successCount].
      rewrite Hw. destruct (Z.leb_spec (successThreshold cb) (successCount cb + 1)); [lia|reflexivity]. }
    rewrite HR.
    destruct (IH (set_successCount (successCount cb + 1) cb))
      as (H1 & H2 & H3 & H4 & H5); cbn; try assumption; try lia.
    cbn in H2, H3, H4, H5. rewrite H1, H2, H3, H4, H5, Nat2Z.inj_succ. repeat split; lia.
Qed.

(** X2: With a success threshold of [n >= 1], a half-open breaker that has no
    success on its count stays half-open through [n - 1] successes in a row
    and the [n]-th closes it, with both counts back at zero. *)
Theorem consecutive_successes_close (cb : CircuitBreaker) (ts : list Time) (t : Time) :
  state cb = StateHalfOpen ->
  successCount cb = 0 ->
  successThreshold cb <= max_int64 ->
  Z.of_nat (length ts) + 1 = successThreshold cb ->
  (forall k, (k <= length ts)%nat ->
     state (successes (firstn k ts) cb) = StateHalfOpen /\
     successCount (successes (firstn k ts) cb) = Z.of_nat k) /\
  state (successes (ts ++ [t]) cb) = StateClosed /\
  lastStateChange (successes (ts ++ [t]) cb) = t /\
  successCount (successes (ts ++ [t]) cb) = 0 /\
  failureCount (successes (ts ++ [t]) cb) = 0.
Proof.
  intros Hst Hsc Hmax Hlen. split.
  - intros k Hk.
    destruct (successes_below_threshold (firstn k ts) cb) as (H1 & H2 & _); try assumption.
    + lia.
    + rewrite length_firstn. lia.
    + rewrite length_firstn in H2. split; [exact H1|]. rewrite H2, Hsc. lia.
  - destruct (successes_below_threshold ts cb) as (H1 & H2 & H3 & _); try assumption; try lia.
    rewrite successes_app. cbn [successes fold_left].
    set (cb1 := successes ts cb) in *.
    assert (Hw : wrap64 (successCount cb1 + 1) = successCount cb1 + 1).
    { apply wrap64_small. unfold in_int64, min_int64, max_int64 in *. lia. }
    unfold RecordSuccess. rewrite H1.
    cbn [successThreshold successCount set_successCount].
    rewrite Hw, H3.
    destruct (Z.leb_spec (successThreshold cb) (successCount cb1 + 1)); [|lia].
    cbn. repeat split; reflexivity.
Qed.

Lemma consecutive_successes_close_witness :
  (forall k, (k <= 1)%nat ->
     state (successes (firstn k [10])
              (setState 5 StateHalfOpen (NewCircuitBreaker 3 2 (100 * Millisecond) 0))) = StateHalfOpen /\
     successCount (successes (firstn k [10])
              (setState 5 StateHalfOpen (NewCircuitBreaker 3 2 (100 * Millisecond) 0))) = Z.of_nat k) /\
  state (successes ([10] ++ [20])
           (setState 5 StateHalfOpen (NewCircuitBreaker 3 2 (100 * Millisecond) 0))) = StateClosed /\
  lastStateChange (successes ([10] ++ [20])
           (setState 5 StateHalfOpen (NewCircuitBreaker 3 2 (100 * Millisecond) 0))) = 20 /\
  successCount (successes ([10] ++ [20])
           (setState 5 StateHalfOpen (NewCircuitBreaker 3 2 (100 * Millisecond) 0))) = 0 /\
  failureCount (successes ([10] ++ [20])
           (setState 5 StateHalfOpen (NewCircuitBreaker 3 2 (100 * Millisecond) 0))) = 0.
Proof.
  apply (consecutive_successes_close
           (setState 5 StateHalfOpen (NewCircuitBreaker 3 2 (100 * Millisecond) 0)) [10] 20).
  - reflexivity.
  - reflexivity.
  - vm_compute. discriminate.
  - reflexivity.
Defined.

(** X3: A failure recorded while the breaker is open, with its count at or
    over the threshold, opens it anew: the time of the last state change
    becomes the time of that failure, and [Allow] refuses until the timeout
    has passed since then, however long the breaker had been open before. *)
Theorem failure_while_open_restarts_timeout (cb : CircuitBreaker) (t now now' : Time) :
  state cb = StateOpen ->
  failureThreshold cb <= failureCount cb + 1 ->
  failureCount cb + 1 <= max_int64 ->
  min_int64 <= failureCount cb ->
  in_int64 (timeout cb) ->
  now - t <= timeout cb ->
  state (RecordFailure t cb) = StateOpen /\
  lastStateChange (RecordFailure t cb) = t /\
  Allow now now' (RecordFailure t cb) = (false, RecordFailure t cb).
Proof.
  intros Hst Hft Hmax Hmin Hto Hnow.
  assert (Hw : wrap64 (failureCount cb + 1) = failureCount cb + 1).
  { apply wrap64_small. unfold in_int64, min_int64, max_int64 in *. lia. }
  assert (HR : RecordFailure t cb =
               setState t StateOpen
                 (set_successCount 0 (set_failureCount (failureCount cb + 1) cb))).
  { unfold RecordFailure. cbn [failureThreshold failureCount set_successCount set_failureCount].
    rewrite Hw. destruct (Z.leb_spec (failureThreshold cb) (failureCount cb + 1)); [reflexivity|lia]. }
  rewrite HR. split; [reflexivity|]. split; [reflexivity|].
  unfold Allow.
  cbn [state setState timeout lastStateChange set_successCount set_failureCount].
  unfold Since, Sub, sat64.
  unfold in_int64, min_int64, max_int64 in *.
  destruct (Z.ltb_spec (now - t) (- 2 ^ 63)).
  - destruct (Z.ltb_spec (timeout cb) (- 2 ^ 63)); [lia|reflexivity].
  - destruct (Z.ltb_spec (2 ^ 63 - 1) (now - t)); [lia|].
    destruct (Z.ltb_spec (timeout cb) (now - t)); [lia|reflexivity].
Qed.

Lemma failure_while_open_restarts_timeout_witness :
  state (RecordFailure 500 (failures [10; 20; 30] (NewCircuitBreaker 3 2 100 0))) = StateOpen /\
  lastStateChange (RecordFailure 500 (failures [10; 20; 30] (NewCircuitBreaker 3 2 100 0))) = 500 /\
  Allow 600 601 (RecordFailure 500 (failures [10; 20; 30] (NewCircuitBreaker 3 2 100 0))) =
    (false, RecordFailure 500 (failures [10; 20; 30] (NewCircuitBreaker 3 2 100 0))).
Proof.
  apply (failure_while_open_restarts_timeout
           (failures [10; 20; 30] (NewCircuitBreaker 3 2 100 0)) 500 600 601).
  - reflexivity.
  - vm_compute. discriminate.
  - vm_compute. discriminate.
  - vm_compute. discriminate.
  - split; vm_compute; discriminate.
  - vm_compute. discriminate.
Defined.

Lemma call_counters_ok (c : Call) (cb : CircuitBreaker) :
  1 <= failureThreshold cb <= max_int64 ->
  1 <= successThreshold cb <= max_int64 ->
  counters_ok cb ->
  counters_ok (call c cb) /\
  failureThreshold (call c cb) = failureThreshold cb /\
  successThreshold (call c cb) = successThreshold cb /\
  timeout (call c cb) = timeout cb.
Proof.
  intros Hft Hst Hok. unfold counters_ok in *.
  destruct c as [now now'|now|now]; cbn [call].
  - unfold Allow. destruct (state cb) eqn:E; cbn [snd]; try rewrite E; auto.
    destruct (timeout cb <? Since now (lastStateChange cb)); cbn [snd].
    + cbn. repeat split; lia.
    + rewrite E. auto.
  - unfold RecordSuccess. destruct (state cb) eqn:E.
    + cbn. rewrite E. repeat split; lia.
    + cbn. rewrite E. repeat split; lia.
    + assert (Hw : wrap64 (successCount cb + 1) = successCount cb + 1).
      { apply wrap64_small. unfold in_int64, min_int64, max_int64 in *. lia. }
      cbn [successThreshold successCount set_successCount]. rewrite Hw.
      destruct (Z.leb_spec (successThreshold cb) (successCount cb + 1)).
      * cbn. repeat split; lia.
      * cbn. rewrite E. repeat split; lia.
  - unfold RecordFailure.
    cbn [failureThreshold failureCount set_successCount set_failureCount].
    destruct (Z.leb_spec (failureThreshold cb) (wrap64 (failureCount cb + 1))).
    + cbn. repeat split; lia.
    + cbn. destruct (state cb) eqn:E.
      * assert (Hw : wrap64 (failureCount cb + 1) = failureCount cb + 1).
        { apply wrap64_small. unfold in_int64, min_int64, max_int64 in *. lia. }
        rewrite Hw in *. repeat split; lia.
      * repeat split; lia.
      * repeat split; lia.
Qed.

(** X4: Whatever calls are made on a breaker built with thresholds of at least
    one: while it is closed its failure count is below the failure
    threshold; it counts successes only while half-open, and there the count
    is below the success threshold; the thresholds and the timeout never
    change. *)
Theorem counters_ok_calls (ft st : Z) (timeout0 : Duration) (t0 : Time) (cs : list Call) :
  1 <= ft <= max_int64 ->
  1 <= st <= max_int64 ->
  counters_ok (calls cs (NewCircuitBreaker ft st timeout0 t0)) /\
  failureThreshold (calls cs (NewCircuitBreaker ft st timeout0 t0)) = ft /\
  successThreshold (calls cs (NewCircuitBreaker ft st timeout0 t0)) = st /\
  timeout (calls cs (NewCircuitBreaker ft st timeout0 t0)) = timeout0.
Proof.
  intros Hft Hst.
  assert (H0 : counters_ok (NewCircuitBreaker ft st timeout0 t0) /\
               failureThreshold (NewCircuitBreaker ft st timeout0 t0) = ft /\
               successThreshold (NewCircuitBreaker ft st timeout0 t0) = st /\
               timeout (NewCircuitBreaker ft st timeout0 t0) = timeout0).
  { unfold counters_ok. cbn. repeat split; lia. }
  revert H0. generalize (NewCircuitBreaker ft st timeout0 t0).
  induction cs as [|c cs IH]; intros cb H0; [exact H0|].
  cbn [calls fold_left]. apply IH.
  destruct H0 as (Hok & H1 & H2 & H3).
  destruct (call_counters_ok c cb) as (Hok' & H1' & H2' & H3'); try lia; try assumption.
  repeat split; try assumption; congruence.
Qed.

Lemma counters_ok_calls_witness :
  counters_ok (calls [CallRecordFailure 1; CallRecordFailure 2; CallAllow 200 201;
                      CallRecordSuccess 202]
                 (NewCircuitBreaker 2 2 100 0)) /\
  failureThreshold (calls [CallRecordFailure 1; CallRecordFailure 2; CallAllow 200 201;
                      CallRecordSuccess 202]
                 (NewCircuitBreaker 2 2 100 0)) = 2 /\
  successThreshold (calls [CallRecordFailure 1; CallRecordFailure 2; CallAllow 200 201;
                      CallRecordSuccess 202]
                 (NewCircuitBreaker 2 2 100 0)) = 2 /\
  timeout (calls [CallRecordFailure 1; CallRecordFailure 2; CallAllow 200 201;
                      CallRecordSuccess 202]
                 (NewCircuitBreaker 2 2 100 0)) = 100.
Proof.
  apply (counters_ok_calls 2 2 100 0).
  - split; [lia|vm_compute; discriminate].
  - split; [lia|vm_compute; discriminate].
Defined.

End CircuitBreakerRunsSpec.
(* ===================================================================== *)
(** ** binary64: numbers that round to themselves                         *)
(* ===================================================================== *)

Module Binary64ExactSpec.
Import Floats Uint63 Binary64 Binary64Spec.

Lemma iter_shr_1_exact (n : nat) : forall m : positive,
  Nat.iter n shr_1 (Build_shr_record (Z.pos m * 2 ^ Z.of_nat n) false false) =
  Build_shr_record (Z.pos m) false false.
Proof.
  induction n as [|n IH]; intros m.
  - cbn [Nat.iter Z.of_nat]. rewrite Z.pow_0_r, Z.mul_1_r. reflexivity.
  - rewrite Nat.iter_succ_r.
    rewrite Nat2Z.inj_succ, Z.pow_succ_r by lia.
    pose proof (pow2_pos (Z.of_nat n) ltac:(lia)) as Hp.
    assert (Hr : exists r, Z.pos m * 2 ^ Z.of_nat n = Z.pos r).
    { exists (Z.to_pos (Z.pos m * 2 ^ Z.of_nat n)). rewrite Z2Pos.id; nia. }
    destruct Hr as [r Hr].
    replace (Z.pos m * (2 * 2 ^ Z.of_nat n)) with (Z.pos r~0)
      by (change (Z.pos r~0) with (2 * Z.pos r); lia).
    cbn [shr_1 orb]. rewrite <- Hr. apply IH.
Qed.

(** Shifting out zeros loses nothing. *)
Lemma shr_exact (m : positive) (e p : Z) :
  0 <= p ->
  shr (Build_shr_record (Z.pos m * 2 ^ p) false false) e p =
  (Build_shr_record (Z.pos m) false false, e + p).
Proof.
  intros Hp. unfold shr. destruct p as [|q|q]; [|clear Hp|lia].
  - rewrite Z.pow_0_r, Z.mul_1_r, Z.add_0_r. reflexivity.
  - rewrite iter_pos_nat. f_equal.
    rewrite <- (positive_nat_Z q) at 1. apply iter_shr_1_exact.
Qed.

Lemma Zdigits2_shift (m : positive) (p : Z) :
  0 <= p -> Zdigits2 (Z.pos m * 2 ^ p) = Z.pos (digits2_pos m) + p.
Proof.
  intros Hp. pose proof (pow2_pos p Hp).
  rewrite Zdigits2_pos by lia.
  rewrite Z.log2_mul_pow2 by lia.
  rewrite digits2_pos_log2. lia.
Qed.

(** A 53-digit mantissa followed by zeros is rounded to itself. *)
Lemma binary_round_aux_shift_exact (m : positive) (E p : Z) :
  Z.pos (digits2_pos m) = 53 ->
  0 <= p -> emin64 <= E + p <= 971 ->
  binary_round_aux prec emax false (Z.pos m * 2 ^ p) E loc_Exact =
  S754_finite false m (E + p).
Proof.
  intros Hd Hp HE.
  unfold binary_round_aux, shr_fexp.
  rewrite Zdigits2_shift, Hd by exact Hp.
  replace (fexp64 (53 + p + E) - E) with p by (rewrite fexp64_eq; lia).
  cbn [shr_record_of_loc]. rewrite shr_exact by exact Hp.
  cbn [shr_m loc_of_shr_record round_nearest_even Zdigits2]. rewrite Hd.
  replace (fexp64 (53 + (E + p)) - (E + p)) with 0 by (rewrite fexp64_eq; lia).
  cbn [shr shr_m]. change (emax - prec) with 971.
  destruct (Z.leb_spec (E + p) 971); [reflexivity|lia].
Qed.

(** A number with at most 53 significant digits, in the normal range, is
    rounded to itself: to the 53-digit mantissa that writes it. *)
Lemma binary_round_exact (M m0 : positive) (E s : Z) :
  Z.pos M = Z.pos m0 * 2 ^ s -> 0 <= s ->
  Z.pos (digits2_pos m0) <= 53 ->
  emin64 <= E + s + Z.pos (digits2_pos m0) - 53 <= 971 ->
  exists m,
    binary_round prec emax false M E =
      S754_finite false m (E + s + Z.pos (digits2_pos m0) - 53) /\
    Z.pos m = Z.pos m0 * 2 ^ (53 - Z.pos (digits2_pos m0)).
Proof.
  intros HM Hs Hd0 HE.
  set (d0 := Z.pos (digits2_pos m0)) in *.
  pose proof (digits2_pos_bounds m0) as Hb0. fold d0 in Hb0.
  assert (Hd01 : 1 <= d0) by (subst d0; lia).
  pose proof (pow2_pos (53 - d0) ltac:(lia)) as Hp53.
  set (mn := Z.to_pos (Z.pos m0 * 2 ^ (53 - d0))).
  assert (Hmn : Z.pos mn = Z.pos m0 * 2 ^ (53 - d0)) by (subst mn; rewrite Z2Pos.id; nia).
  assert (Hdn : Z.pos (digits2_pos mn) = 53).
  { apply digits2_pos_unique. rewrite Hmn.
    assert (H52 : 2 ^ (53 - 1) = 2 ^ (d0 - 1) * 2 ^ (53 - d0)).
    { rewrite <- pow2_split by lia. f_equal. lia. }
    assert (H53 : 2 ^ 53 = 2 ^ d0 * 2 ^ (53 - d0)).
    { rewrite <- pow2_split by lia. f_equal. lia. }
    rewrite H52, H53. nia. }
  exists mn. split; [|exact Hmn].
  assert (HdM : Z.pos (digits2_pos M) = d0 + s).
  { change (Z.pos (digits2_pos M)) with (Zdigits2 (Z.pos M)).
    rewrite HM, Zdigits2_shift by exact Hs. reflexivity. }
  unfold binary_round. rewrite HdM.
  set (f := fexp64 (d0 + s + E)).
  assert (Hf : f = E + s + d0 - 53) by (subst f; rewrite fexp64_eq; lia).
  destruct (shl_align_spec M E f) as [Hmz Hez].
  destruct (shl_align M E f) as [mz ez]. cbn [fst snd] in Hmz, Hez.
  destruct (Z.ltb_spec f E) as [Hc|Hc].
  - (* shifted left *)
    replace (Z.max 0 (E - f)) with (E - f) in Hmz by lia.
    replace ez with f by lia.
    assert (Hmzn : mz = mn).
    { apply Pos2Z.inj. rewrite Hmz, Hmn, HM, <- Z.mul_assoc, <- pow2_split by lia.
      f_equal. f_equal. lia. }
    rewrite Hmzn.
    pose proof (binary_round_aux_shift_exact mn f 0 Hdn ltac:(lia) ltac:(lia)) as H.
    rewrite Z.pow_0_r, Z.mul_1_r, Z.add_0_r in H. rewrite H, Hf. reflexivity.
  - (* shifted right *)
    replace (Z.max 0 (E - f)) with 0 in Hmz by lia.
    rewrite Z.pow_0_r, Z.mul_1_r in Hmz.
    replace ez with E by lia.
    assert (HMn : Z.pos mz = Z.pos mn * 2 ^ (f - E)).
    { rewrite Hmz, HM, Hmn, <- Z.mul_assoc, <- pow2_split by lia.
      f_equal. f_equal. lia. }
    rewrite HMn.
    rewrite (binary_round_aux_shift_exact mn E (f - E) Hdn) by lia.
    f_equal. lia.
Qed.

End Binary64ExactSpec.
(* ===================================================================== *)
(** ** package ratelimit: sequences of calls                              *)
(* ===================================================================== *)

Module TokenBucketRunsSpec.
Import GoInt GoTime Floats Uint63 Binary64 Binary64Spec Binary64ExactSpec.
Import TokenBucket TokenBucketObs TokenBucketSpec TokenBucketRuns.

(** *** Integers as binary64 numbers *)

Lemma to_Z_of_Z_small (z : Z) : 0 <= z < 2 ^ 63 -> to_Z (of_Z z) = z.
Proof.
  intros Hz. rewrite of_Z_spec. change wB with (2 ^ 63). apply Z.mod_small, Hz.
Qed.

Lemma of_uint63_positive (p : positive) :
  Z.pos p < 2 ^ 63 ->
  exists m e, Prim2SF (of_uint63 (of_Z (Z.pos p))) = S754_finite false m e.
Proof.
  intros Hp. rewrite of_uint63_spec, to_Z_of_Z_small by lia.
  cbn [binary_normalize].
  destruct (binary_round_le p 0 (Z.to_pos (2 ^ 52)) 12) as (m & e & H & _).
  - lia.
  - reflexivity.
  - change (Z.pos (Z.to_pos (2 ^ 52))) with (2 ^ 52).
    change (0 - emin64) with 1074. change (12 - emin64) with (11 + 1 + 1074).
    rewrite !pow2_split by lia.
    pose proof (pow2_pos 1074 ltac:(lia)).
    change (2 ^ 52 * (2 ^ 11 * 2 ^ 1 * 2 ^ 1074)) with (2 ^ 64 * 2 ^ 1074).
    change (2 ^ 64) with (2 * 2 ^ 63). nia.
  - exists m, e. exact H.
Qed.

Lemma float64_of_int_holds_int (k : Z) :
  0 <= k <= 2 ^ 53 -> holds_int k (Prim2SF (float64_of_int k)).
Proof.
  intros Hk. destruct k as [|p|p]; [reflexivity| |lia].
  destruct (Z.eq_dec (Z.pos p) (2 ^ 53)) as [->|Hne].
  { vm_compute. split; [discriminate|reflexivity]. }
  unfold float64_of_int.
  rewrite of_uint63_spec, to_Z_of_Z_small by lia.
  cbn [binary_normalize].
  assert (Hd : Z.pos (digits2_pos p) <= 53).
  { change (Z.pos (digits2_pos p)) with (Zdigits2 (Z.pos p)). apply Zdigits2_le53. lia. }
  pose proof (digits2_pos_bounds p) as Hb.
  destruct (binary_round_exact p p 0 0) as (m & -> & Hm); try lia.
  cbn [holds_int]. split; [lia|].
  rewrite Hm, <- Z.mul_assoc, <- pow2_split by lia.
  f_equal. f_equal. lia.
Qed.

(** What validity says of a number that holds a positive integer. *)
Lemma holds_int_normal (k : Z) (m : positive) (e : Z) :
  bounded prec emax m e = true ->
  holds_int k (S754_finite false m e) ->
  2 ^ 52 <= Z.pos m < 2 ^ 53 /\ 1 <= k.
Proof.
  intros Hv [He Hk].
  destruct (bounded_spec m e Hv) as (_ & _ & Hnorm).
  pose proof (digits2_pos_bounds m) as Hb.
  rewrite (Hnorm ltac:(lia)) in Hb. change (53 - 1) with 52 in Hb.
  split; [exact Hb|].
  pose proof (pow2_pos (e + 52) ltac:(lia)).
  change (2 ^ 52) with 4503599627370496 in *. nia.
Qed.

Lemma holds_int_leb (a b : Z) (x y : spec_float) :
  valid_binary x = true -> valid_binary y = true ->
  holds_int a x -> holds_int b y -> a <= b ->
  SFleb x y = true.
Proof.
  intros Hvx Hvy Ha Hb Hab.
  destruct x as [[]|[]| |[] mx ex]; cbn [holds_int] in Ha; try contradiction;
    destruct y as [[]|[]| |[] my ey]; cbn [holds_int] in Hb; try contradiction;
    try reflexivity.
  - cbn [valid_binary] in Hvx.
    destruct (holds_int_normal a mx ex Hvx Ha). lia.
  - cbn [valid_binary] in Hvx, Hvy.
    destruct (holds_int_normal a mx ex Hvx Ha) as [Hmx _].
    destruct (holds_int_normal b my ey Hvy Hb) as [Hmy _].
    destruct Ha as [Hex Ha], Hb as [Hey Hb].
    apply SFleb_finite.
    assert (Hle : Z.pos mx * 2 ^ (ex + 52) <= Z.pos my * 2 ^ (ey + 52)).
    { rewrite Ha, Hb. change (2 ^ 52) with 4503599627370496. lia. }
    destruct (Z.compare_spec ex ey) as [Heq|Hlt|Hgt].
    + right. split; [exact Heq|]. subst ey.
      pose proof (pow2_pos (ex + 52) ltac:(lia)). nia.
    + left. exact Hlt.
    + exfalso.
      assert (H2 : 2 * 2 ^ (ey + 52) <= 2 ^ (ex + 52)).
      { replace (ex + 52) with ((ex - ey - 1) + (1 + (ey + 52))) by lia.
        rewrite (pow2_split (ex - ey - 1)), (pow2_split 1) by lia.
        pose proof (pow2_pos (ex - ey - 1) ltac:(lia)).
        pose proof (pow2_pos (ey + 52) ltac:(lia)).
        change (2 ^ 1) with 2. nia. }
      pose proof (pow2_pos (ey + 52) ltac:(lia)).
      change (2 ^ 52) with 4503599627370496 in *.
      change (2 ^ 53) with 9007199254740992 in *. nia.
Qed.

Lemma holds_int_one : holds_int 1 one64.
Proof. split; [lia|reflexivity]. Qed.

Lemma holds_int_leb_one (k : Z) (x : spec_float) :
  valid_binary x = true -> holds_int k x ->
  SFleb one64 x = (1 <=? k).
Proof.
  intros Hv Hk.
  destruct x as [[]|[]| |[] m e]; cbn [holds_int] in Hk; try contradiction.
  - subst k. reflexivity.
  - cbn [valid_binary] in Hv.
    destruct (holds_int_normal k m e Hv Hk) as [_ H1].
    rewrite (holds_int_leb 1 k one64 (S754_finite false m e)); auto using holds_int_one.
    symmetry. apply Z.leb_le, H1.
Qed.

Lemma holds_int_sub_one (k : Z) (x : spec_float) :
  holds_int k x -> 1 <= k <= 2 ^ 53 ->
  holds_int (k - 1) (SF64sub x one64).
Proof.
  intros Hk Hr.
  destruct x as [[]|[]| |[] m e]; cbn [holds_int] in Hk; try contradiction; [lia|].
  destruct Hk as [He Hk].
  unfold SF64sub, SFsub, one64. cbn [cond_Zopp].
  replace (Z.min e (-52)) with (-52) by lia.
  destruct (shl_align_spec m e (-52)) as [Ha _].
  destruct (shl_align_spec 4503599627370496 (-52) (-52)) as [Hb _].
  replace (Z.max 0 (e - -52)) with (e + 52) in Ha by lia.
  change (Z.max 0 (-52 - -52)) with 0 in Hb. rewrite Z.pow_0_r, Z.mul_1_r in Hb.
  set (a := fst (shl_align m e (-52))) in *.
  set (b := fst (shl_align 4503599627370496 (-52) (-52))) in *.
  assert (HD : Z.pos a - Z.pos b = (k - 1) * 2 ^ 52).
  { rewrite Ha, Hb, Hk. change (2 ^ 52) with 4503599627370496. lia. }
  destruct (Z.eq_dec k 1) as [->|Hk1].
  - rewrite HD. reflexivity.
  - destruct (Z.pos a - Z.pos b) as [|D|D] eqn:ED;
      [change (2 ^ 52) with 4503599627370496 in HD; lia| |
       change (2 ^ 52) with 4503599627370496 in HD; lia].
    cbn [binary_normalize].
    set (m0 := Z.to_pos (k - 1)).
    assert (Hm0 : Z.pos m0 = k - 1) by (subst m0; rewrite Z2Pos.id; lia).
    assert (Hd0 : Z.pos (digits2_pos m0) <= 53).
    { change (Z.pos (digits2_pos m0)) with (Zdigits2 (Z.pos m0)).
      apply Zdigits2_le53. lia. }
    pose proof (digits2_pos_bounds m0) as Hb0.
    destruct (binary_round_exact D m0 (-52) 52) as (mr & -> & Hmr); try lia.
    cbn [holds_int]. split; [lia|].
    rewrite Hmr, Hm0, <- Z.mul_assoc, <- pow2_split by lia.
    f_equal. f_equal. lia.
Qed.

(** *** One call *)

Lemma Allow_fields (now : Time) (tb : TokenBucket) :
  rate (snd (Allow now tb)) = rate tb /\
  burst (snd (Allow now tb)) = burst tb /\
  lastUpdate (snd (Allow now tb)) = now.
Proof.
  unfold Allow. destruct (1 <=? _)%float; cbn; auto.
Qed.

Lemma Allow_keeps_bounds (now : Time) (tb : TokenBucket) :
  finite_nonneg_float (rate tb) ->
  lastUpdate tb <= now ->
  within_bounds tb ->
  within_bounds (snd (Allow now tb)).
Proof.
  intros Hrate Hel Hinv.
  destruct (refilled_bounds now tb Hrate Hel Hinv) as (Hn & HB & Hle).
  unfold Allow. change (min _ _) with (refilled now tb).
  set (t' := refilled now tb) in *.
  set (B := float64_of_int (burst tb)) in *.
  unfold within_bounds.
  destruct (1 <=? t')%float eqn:E1; cbn [snd tokens burst]; fold B.
  - rewrite FloatAxioms.leb_spec, Prim2SF_one in E1.
    destruct (SFsub_one (Prim2SF t') (Prim2SF_valid t') E1) as [Hr Hrt].
    rewrite !FloatAxioms.leb_spec, FloatAxioms.sub_spec, Prim2SF_zero, Prim2SF_one.
    split; [apply SFleb_zero_nonneg, Hr|].
    apply (SFleb_trans_nonneg _ (Prim2SF t')); assumption.
  - rewrite !FloatAxioms.leb_spec, Prim2SF_zero.
    split; [apply SFleb_zero_nonneg, Hn|exact Hle].
Qed.

Lemma float64_of_int_nonneg_float (z : Z) :
  0 <= z -> nonneg (Prim2SF (float64_of_int z)).
Proof.
  intros Hz. apply finite_nonneg_nonneg, (exp_le_finite_nonneg 12).
  apply float64_of_int_nonneg, Hz.
Qed.

Lemma NewTokenBucket_bounds (r : float) (b : Z) (now : Time) :
  0 <= b -> within_bounds (NewTokenBucket r b now).
Proof.
  intros Hb. unfold within_bounds, NewTokenBucket. cbn [tokens burst].
  pose proof (float64_of_int_nonneg_float b Hb) as Hn.
  split.
  - apply nonneg_float, Hn.
  - rewrite FloatAxioms.leb_spec. apply SFleb_refl_nonneg, Hn.
Qed.

(** X5: A fresh bucket is within its bounds exactly when its capacity is not
    negative. *)
Theorem NewTokenBucket_within_bounds_iff (r : float) (b : Z) (now : Time) :
  in_int64 b ->
  within_bounds (NewTokenBucket r b now) <-> 0 <= b.
Proof.
  intros Hb. split; [|apply NewTokenBucket_bounds].
  intros [Hlo _]. cbn [NewTokenBucket tokens] in Hlo.
  destruct b as [|p|p]; [lia|lia|exfalso].
  unfold float64_of_int in Hlo.
  destruct (Z.eqb_spec (Z.neg p) min_int64) as [E|E].
  - vm_compute in Hlo. discriminate Hlo.
  - unfold in_int64, min_int64, max_int64 in *.
    destruct (of_uint63_positive p ltac:(lia)) as (m & e & Hp).
    rewrite FloatAxioms.leb_spec, FloatAxioms.opp_spec, Hp in Hlo.
    discriminate Hlo.
Qed.

Lemma NewTokenBucket_within_bounds_iff_witness :
  within_bounds (NewTokenBucket 5 (-3) 0) <-> 0 <= -3.
Proof.
  apply (NewTokenBucket_within_bounds_iff 5 (-3) 0).
  split; vm_compute; discriminate.
Defined.

(** *** Many calls *)

Lemma Allows_cons (now : Time) (rest : list Time) (tb : TokenBucket) :
  Allows (now :: rest) tb =
  (fst (Allow now tb) :: fst (Allows rest (snd (Allow now tb))),
   snd (Allows rest (snd (Allow now tb)))).
Proof.
  cbn [Allows]. destruct (Allow now tb) as [ok tb1]. cbn [fst snd].
  destruct (Allows rest tb1) as [oks tb2]. reflexivity.
Qed.

(** X6: Whatever calls of [Allow] are made on a bucket built with a capacity
    that is not negative and a rate that is a finite number and not
    negative, at clock readings that never go back: the tokens stay between
    zero and the capacity. *)
Theorem Allows_within_bounds (r : float) (b : Z) (t0 : Time) (nows : list Time) :
  finite_nonneg_float r ->
  0 <= b <= max_int64 ->
  from_time t0 nows ->
  within_bounds (snd (Allows nows (NewTokenBucket r b t0))).
Proof.
  intros Hr Hb Hnows.
  assert (H0 : within_bounds (NewTokenBucket r b t0) /\
               rate (NewTokenBucket r b t0) = r /\
               lastUpdate (NewTokenBucket r b t0) = t0).
  { split; [apply NewTokenBucket_bounds; lia|split; reflexivity]. }
  revert H0. generalize (NewTokenBucket r b t0). revert t0 Hnows.
  induction nows as [|now rest IH]; intros t0 Hnows tb (Hin & Hrate & Hlast).
  - exact Hin.
  - destruct Hnows as [Ht0 Hrest].
    rewrite Allows_cons. cbn [snd].
    destruct (Allow_fields now tb) as (F1 & F2 & F3).
    apply (IH now Hrest). split; [|split].
    + apply Allow_keeps_bounds; [rewrite Hrate; exact Hr|lia|exact Hin].
    + congruence.
    + exact F3.
Qed.

Lemma Allows_within_bounds_witness :
  within_bounds (snd (Allows [0; 0; 100000000; 1100000000] (NewTokenBucket 5 2 0))).
Proof.
  apply (Allows_within_bounds 5 2 0 [0; 0; 100000000; 1100000000]).
  - split; reflexivity.
  - split; [lia|vm_compute; discriminate].
  - cbn. lia.
Defined.

(** *** Calls made at the instant of the last update *)

Lemma Seconds_zero : Seconds 0 = 0%float.
Proof. reflexivity. Qed.

Lemma SFleb_true_ltb_false (x y : spec_float) :
  SFleb x y = true -> SFltb y x = false.
Proof.
  unfold SFleb, SFltb.
  destruct x as [sx|sx| |sx mx ex], y as [sy|sy| |sy my ey]; cbn;
    try destruct sx; try destruct sy; try discriminate; try reflexivity;
    unfold SFcompare;
    change (Pos.compare_cont Eq mx my) with (Pos.compare mx my);
    change (Pos.compare_cont Eq my mx) with (Pos.compare my mx);
    rewrite (Z.compare_antisym ex ey), (Pos.compare_antisym mx my);
    destruct (ex ?= ey); cbn; try discriminate; try reflexivity;
    destruct (mx ?= my)%positive; cbn; try discriminate; reflexivity.
Qed.

(** With no time elapsed the refill adds nothing. *)
Lemma refilled_at_last_update (tb : TokenBucket) (k b : Z) :
  finite_nonneg_float (rate tb) ->
  holds_int k (Prim2SF (tokens tb)) ->
  holds_int b (Prim2SF (float64_of_int (burst tb))) ->
  k <= b ->
  Prim2SF (refilled (lastUpdate tb) tb) = Prim2SF (tokens tb).
Proof.
  intros Hrate Hk Hb Hkb.
  apply finite_nonneg_float_spec in Hrate.
  unfold refilled, Sub. rewrite Z.sub_diag.
  change (sat64 0) with 0. rewrite Seconds_zero.
  set (sum := (tokens tb + 0 * rate tb)%float).
  assert (Hsum : Prim2SF sum = Prim2SF (tokens tb)).
  { subst sum. rewrite FloatAxioms.add_spec, FloatAxioms.mul_spec, Prim2SF_zero.
    destruct (Prim2SF (rate tb)) as [s|s| |[] mr er]; cbn [finite_nonneg] in Hrate;
      try contradiction;
      destruct (Prim2SF (tokens tb)) as [[]|[]| |[] m e]; cbn [holds_int] in Hk;
      try contradiction; try reflexivity.
    destruct s; reflexivity. }
  unfold min.
  assert (Hlt : (float64_of_int (burst tb) <? sum)%float = false).
  { rewrite FloatAxioms.ltb_spec, Hsum. apply SFleb_true_ltb_false.
    apply (holds_int_leb k b); auto using Prim2SF_valid. }
  rewrite Hlt. exact Hsum.
Qed.

Lemma Allows_at_last_update (j : nat) : forall (tb : TokenBucket) (b : Z),
  finite_nonneg_float (rate tb) ->
  holds_int (Z.of_nat j) (Prim2SF (tokens tb)) ->
  holds_int b (Prim2SF (float64_of_int (burst tb))) ->
  Z.of_nat j <= b <= 2 ^ 53 ->
  fst (Allows (repeat (lastUpdate tb) (S j)) tb) = repeat true j ++ [false].
Proof.
  induction j as [|j IH]; intros tb b Hrate Hk Hb Hr.
  - cbn [repeat]. rewrite Allows_cons. cbn [Allows fst app]. f_equal.
    pose proof (refilled_at_last_update tb 0 b Hrate Hk Hb ltac:(lia)) as Hre.
    unfold Allow. change (min _ _) with (refilled (lastUpdate tb) tb).
    assert (E : (1 <=? refilled (lastUpdate tb) tb)%float = false).
    { rewrite FloatAxioms.leb_spec, Prim2SF_one, Hre.
      rewrite (holds_int_leb_one 0) by auto using Prim2SF_valid. reflexivity. }
    rewrite E. reflexivity.
  - change (repeat (lastUpdate tb) (S (S j)))
      with (lastUpdate tb :: repeat (lastUpdate tb) (S j)).
    rewrite Allows_cons. cbn [fst].
    pose proof (refilled_at_last_update tb (Z.of_nat (S j)) b Hrate Hk Hb ltac:(lia)) as Hre.
    assert (E : (1 <=? refilled (lastUpdate tb) tb)%float = true).
    { rewrite FloatAxioms.leb_spec, Prim2SF_one, Hre.
      rewrite (holds_int_leb_one (Z.of_nat (S j))) by auto using Prim2SF_valid.
      apply Z.leb_le. lia. }
    assert (HA : Allow (lastUpdate tb) tb =
                 (true, mkTokenBucket (rate tb) (burst tb)
                          (refilled (lastUpdate tb) tb - 1)%float (lastUpdate tb))).
    { unfold Allow. change (min _ _) with (refilled (lastUpdate tb) tb).
      rewrite E. reflexivity. }
    rewrite HA. cbn [fst snd].
    set (tb1 := mkTokenBucket (rate tb) (burst tb)
                  (refilled (lastUpdate tb) tb - 1)%float (lastUpdate tb)).
    change (repeat true (S j) ++ [false]) with (true :: (repeat true j ++ [false])).
    f_equal.
    change (lastUpdate tb) with (lastUpdate tb1).
    apply (IH tb1 b).
    + exact Hrate.
    + cbn [tb1 tokens].
      rewrite FloatAxioms.sub_spec, Prim2SF_one, Hre.
      replace (Z.of_nat j) with (Z.of_nat (S j) - 1) by lia.
      apply holds_int_sub_one; [exact Hk|lia].
    + exact Hb.
    + lia.
Qed.

(** X7: A fresh bucket of capacity [n] (up to [2^53]) allows exactly [n] calls
    made at the instant of its creation and refuses the next, whatever its
    rate (a finite number that is not negative). *)
Theorem burst_allowed_then_refused (r : float) (n : nat) (now : Time) :
  finite_nonneg_float r ->
  Z.of_nat n <= 2 ^ 53 ->
  fst (Allows (repeat now (S n)) (NewTokenBucket r (Z.of_nat n) now)) =
    repeat true n ++ [false].
Proof.
  intros Hr Hn.
  pose proof (float64_of_int_holds_int (Z.of_nat n) ltac:(lia)) as Hb.
  apply (Allows_at_last_update n (NewTokenBucket r (Z.of_nat n) now) (Z.of_nat n)).
  - exact Hr.
  - exact Hb.
  - exact Hb.
  - lia.
Qed.

Lemma burst_allowed_then_refused_witness :
  fst (Allows (repeat 0 (S 10)) (NewTokenBucket 1 (Z.of_nat 10) 0)) =
    repeat true 10 ++ [false].
Proof.
  apply (burst_allowed_then_refused 1 10 0).
  - split; reflexivity.
  - vm_compute. discriminate.
Defined.

End TokenBucketRunsSpec.
(* ===================================================================== *)
(** ** package subscribers: what holds in every state a queue reaches     *)
(* ===================================================================== *)

Module QueueRunsSpec.
Import GoInt GoTime GoFmt Trace Subscribers QueueObs GoIntSpec QueueSpec QueueRuns.

(** *** The tuning *)

Lemma same_tuning_refl q : same_tuning q q.
Proof. repeat split. Qed.

Lemma same_tuning_trans q1 q2 q3 :
  same_tuning q1 q2 -> same_tuning q2 q3 -> same_tuning q1 q3.
Proof. unfold same_tuning. intuition congruence. Qed.

Lemma same_but_health_tuning q q' : same_but_health q q' -> same_tuning q q'.
Proof.
  intros H. apply same_but_health_fields in H. unfold same_tuning. intuition.
Qed.

Lemma same_tuning_run w ops s s' :
  run w ops s = Returned s' -> same_tuning (queue s) (queue s').
Proof.
  intros Hrun.
  apply (inv_run w (fun x => same_tuning (queue s) (queue x))) with (ops := ops) (s := s);
    try exact Hrun; try apply same_tuning_refl.
  - intros s0 evs H. exact H.
  - intros s0 event H. exact H.
  - intros s0 ev sub H _. eapply same_tuning_trans; [exact H|].
    apply same_but_health_tuning, deliver_to_frame.
  - intros s0 H. eapply same_tuning_trans; [exact H|].
    apply same_but_health_tuning. cbn [on_queue queue]. apply resetIfNeeded_frame.
  - intros s0 H _. exact H.
  - intros s0 H _. exact H.
  - intros s0 H _. rewrite close_all_eq. exact H.
Qed.

Lemma NewQueueWithConfig_positive cfg subs :
  0 < events_cap (NewQueueWithConfig cfg subs) /\
  0 < flushTick (NewQueueWithConfig cfg subs) /\
  0 < cbThreshold (NewQueueWithConfig cfg subs) /\
  0 < backoffMin (NewQueueWithConfig cfg subs) /\
  0 < backoffMax (NewQueueWithConfig cfg subs) /\
  0 < cbReset (NewQueueWithConfig cfg subs).
Proof.
  unfold NewQueueWithConfig, Second, Millisecond.
  cbn [events_cap flushTick cbThreshold backoffMin backoffMax cbReset].
  repeat split;
    match goal with |- 0 < (if ?x <=? 0 then _ else _) =>
      destruct (Z.leb_spec x 0); lia end.
Qed.

(** X8: Whatever calls are made on a queue and whatever its consumer does, the
    queue keeps the subscribers and the tuning it was built with, and each
    of the six tuning parameters is positive: a parameter of the
    configuration that is zero or negative was replaced by its default when
    the queue was built. *)
Theorem tuning_never_changes (w : World) (cfg : QueueConfig) (subs : list Subscriber)
    (ops : list Op) (s : Sys) :
  run w ops (boot (NewQueueWithConfig cfg subs)) = Returned s ->
  subscribers (queue s) = subs /\
  events_cap (queue s) = (if QueueSize cfg <=? 0 then 1000 else QueueSize cfg) /\
  flushTick (queue s) = (if FlushInterval cfg <=? 0 then Second else FlushInterval cfg) /\
  cbThreshold (queue s) = (if CircuitThreshold cfg <=? 0 then 5 else CircuitThreshold cfg) /\
  backoffMin (queue s) = (if BackoffMin cfg <=? 0 then 100 * Millisecond else BackoffMin cfg) /\
  backoffMax (queue s) = (if BackoffMax cfg <=? 0 then 5 * Second else BackoffMax cfg) /\
  cbReset (queue s) = (if CircuitReset cfg <=? 0 then 10 * Second else CircuitReset cfg) /\
  0 < events_cap (queue s) /\ 0 < flushTick (queue s) /\ 0 < cbThreshold (queue s) /\
  0 < backoffMin (queue s) /\ 0 < backoffMax (queue s) /\ 0 < cbReset (queue s).
Proof.
  intros Hrun.
  destruct (same_tuning_run w ops _ s Hrun) as (T1 & T2 & T3 & T4 & T5 & T6 & T7).
  cbn [boot queue] in *.
  destruct (NewQueueWithConfig_positive cfg subs) as (P1 & P2 & P3 & P4 & P5 & P6).
  rewrite T1, T2, T3, T4, T5, T6, T7.
  repeat split; assumption.
Qed.

Lemma tuning_never_changes_witness :
  subscribers (queue two_buffered) = [webhookA] /\
  events_cap (queue two_buffered) = 1000 /\
  cbThreshold (queue two_buffered) = 5 /\
  0 < cbReset (queue two_buffered).
Proof.
  assert (Hrun : run slow_world
                   [OpTrack Background "order.completed" {[ "amount" := AInt 42 ]};
                    OpTrack Background "order.completed" {[ "amount" := AInt 42 ]}]
                   (boot (NewQueueWithConfig default_config [webhookA])) =
                 Returned two_buffered) by reflexivity.
  destruct (tuning_never_changes slow_world default_config [webhookA] _ two_buffered Hrun)
    as (H1 & H2 & _ & H4 & _ & _ & _ & _ & _ & _ & _ & _ & H13).
  repeat split; assumption.
Defined.

(** *** The buffer *)

Lemma within_capacity_step w op s s' :
  lifecycle_ok s -> within_capacity s ->
  step w op s = Returned s' -> within_capacity s'.
Proof.
  intros Hl Hc Hstep.
  pose proof (same_tuning_run w [op] s s') as Ht.
  cbn [run] in Ht. rewrite Hstep in Ht. specialize (Ht eq_refl).
  destruct Ht as (Hcap & _).
  unfold within_capacity in *. rewrite Hcap.
  destruct op as [ctx name props| | |tick_at]; cbn [step] in Hstep.
  - unfold Track in Hstep.
    destruct (events_closed (queue s)); [discriminate|].
    destruct (Z.ltb_spec (Z.of_nat (length (events (queue s)))) (events_cap (queue s)));
      injection Hstep as <-; cbn [queue on_queue emit events set_events].
    + rewrite length_app. cbn [length]. lia.
    + exact Hc.
  - injection Hstep as <-. unfold worker_recv.
    destruct (wg_done (queue s)); [exact Hc|].
    destruct (events (queue s)) as [|ev rest] eqn:E.
    + destruct (events_closed (queue s)); cbn [queue on_queue events set_wg_done];
        rewrite ?E; cbn; lia.
    + pose proof (deliver_frame w ev (on_queue (set_events rest) s)) as F.
      apply same_but_health_fields in F. destruct F as (F & _).
      rewrite F. cbn [queue on_queue events set_events]. cbn [length] in Hc. lia.
  - injection Hstep as <-.
    pose proof (worker_tick_frame s) as F.
    apply same_but_health_fields in F. destruct F as (F & _).
    rewrite F. exact Hc.
  - destruct (closed (queue s)) eqn:Ecl.
    + unfold Shutdown in Hstep. rewrite Ecl in Hstep. injection Hstep as <-. exact Hc.
    + destruct (Shutdown_first w tick_at s Hl Ecl) as (s1 & d & HS & _ & _ & He & _).
      rewrite HS in Hstep. injection Hstep as <-. rewrite He. cbn [length]. lia.
Qed.

Lemma within_capacity_run w ops : forall s s',
  lifecycle_ok s -> within_capacity s ->
  run w ops s = Returned s' -> within_capacity s'.
Proof.
  induction ops as [|op ops IH]; intros s s' Hl Hc; cbn [run].
  - intros [= <-]. exact Hc.
  - destruct (step w op s) as [s1|msg] eqn:E; [|discriminate].
    apply IH.
    + apply (lifecycle_ok_run w [op] s s1 Hl). cbn [run]. rewrite E. reflexivity.
    + eapply within_capacity_step; eauto.
Qed.

(** X9: In every state a queue reaches, the events buffered are no more than
    the queue size it was built with (1000 when the configuration gives
    none): [Track] drops an event rather than exceed it. *)
Theorem buffer_within_capacity (w : World) (cfg : QueueConfig) (subs : list Subscriber)
    (ops : list Op) (s : Sys) :
  run w ops (boot (NewQueueWithConfig cfg subs)) = Returned s ->
  Z.of_nat (length (events (queue s))) <=
    (if QueueSize cfg <=? 0 then 1000 else QueueSize cfg).
Proof.
  intros Hrun.
  pose proof (within_capacity_run w ops _ s (lifecycle_ok_boot cfg subs)) as Hc.
  unfold within_capacity in Hc at 2.
  destruct (same_tuning_run w ops _ s Hrun) as (T1 & _).
  rewrite T1 in Hc. apply Hc; [|exact Hrun].
  unfold within_capacity. cbn.
  destruct (Z.leb_spec (QueueSize cfg) 0); lia.
Qed.

Lemma buffer_within_capacity_witness :
  Z.of_nat (length (events (queue
     (mkSys (set_events [mkQueuedEvent "a" ∅ ""]
               (NewQueueWithConfig (mkQueueConfig 1 0 0 0 0 0) [webhookA])) 0
            [ObsPrint (QueueFull "b")])))) <=
    (if QueueSize (mkQueueConfig 1 0 0 0 0 0) <=? 0 then 1000
     else QueueSize (mkQueueConfig 1 0 0 0 0 0)).
Proof.
  apply (buffer_within_capacity sample_world (mkQueueConfig 1 0 0 0 0 0) [webhookA]
           [OpTrack Background "a" ∅; OpTrack Background "b" ∅]).
  reflexivity.
Defined.

(** *** The keys of the health maps *)

Lemma health_keys_ok_insert id (e : Z) (n : Time) (b : Duration) q :
  health_keys_ok q ->
  health_keys_ok (set_health (<[id := e]> (workerErrs q)) (<[id := n]> (nextAllowed q))
                    (<[id := b]> (backoff q)) q).
Proof.
  intros H id'. cbn [workerErrs nextAllowed backoff set_health].
  destruct (decide (id = id')) as [->|Hne].
  - rewrite lookup_insert_eq. discriminate.
  - rewrite !lookup_insert_ne by exact Hne. apply H.
Qed.

Lemma health_keys_ok_reset_ids ids q :
  health_keys_ok q -> health_keys_ok (reset_ids ids q).
Proof.
  intros H. induction ids as [|id ids IH]; cbn [reset_ids fold_right]; [exact H|].
  fold (reset_ids ids q). apply health_keys_ok_insert, IH.
Qed.

Lemma health_keys_ok_run w ops s s' :
  health_keys_ok (queue s) -> run w ops s = Returned s' -> health_keys_ok (queue s').
Proof.
  apply (inv_run w (fun x => health_keys_ok (queue x))).
  - intros s0 evs H. exact H.
  - intros s0 event H. exact H.
  - intros s0 ev sub H _.
    destruct (deliver_to_cases w ev s0 sub) as [[_ ->]|[(_ & _ & ->)|(_ & _ & tail & _ & ->)]];
      cbn [queue tick_clock].
    + exact H.
    + apply health_keys_ok_insert, H.
    + apply health_keys_ok_insert, H.
  - intros s0 H. cbn [on_queue queue]. unfold resetIfNeeded.
    destruct (cbReset (queue s0) <=? 0); [exact H|].
    apply health_keys_ok_reset_ids, H.
  - intros s0 H _. exact H.
  - intros s0 H _. exact H.
  - intros s0 H _. rewrite close_all_eq. exact H.
Qed.

Lemma reset_ids_at ids q id :
  In id ids ->
  at_key (workerErrs (reset_ids ids q)) id = 0 /\
  at_key (nextAllowed (reset_ids ids q)) id = 0 /\
  at_key (backoff (reset_ids ids q)) id = backoffMin q.
Proof.
  assert (Hmin : forall l, backoffMin (reset_ids l q) = backoffMin q).
  { intros l. pose proof (reset_ids_frame l q) as F.
    apply same_but_health_fields in F. intuition. }
  induction ids as [|a ids IH]; intros Hin; [destruct Hin|].
  cbn [reset_ids fold_right]. fold (reset_ids ids q).
  cbn [workerErrs nextAllowed backoff set_health].
  destruct (decide (a = id)) as [->|Hne].
  - rewrite !at_key_insert_eq. rewrite Hmin. auto.
  - rewrite !at_key_insert_ne by exact Hne. apply IH.
    destruct Hin as [Hin|Hin]; [contradiction|exact Hin].
Qed.

Lemma reset_ids_workerErrs_zero ids q id :
  at_key (workerErrs q) id = 0 -> at_key (workerErrs (reset_ids ids q)) id = 0.
Proof.
  intros H. induction ids as [|a ids IH]; cbn [reset_ids fold_right]; [exact H|].
  cbn [workerErrs set_health]. fold (reset_ids ids q).
  destruct (decide (a = id)) as [->|Hne].
  - apply at_key_insert_eq.
  - rewrite at_key_insert_ne by exact Hne. exact IH.
Qed.

(** X10: When the consumer of a queue receives a tick of the flush ticker, it
    clears the health record of every destination, whatever the circuit
    reset interval: every error count is zero and no destination is in
    backoff, at any clock reading; the backoff of a destination that had a
    record is [backoffMin] again. *)
Theorem tick_clears_every_record (w : World) (cfg : QueueConfig) (subs : list Subscriber)
    (ops : list Op) (s : Sys) (id : string) :
  run w ops (boot (NewQueueWithConfig cfg subs)) = Returned s ->
  wg_done (queue s) = false ->
  at_key (workerErrs (queue (worker_tick s))) id = 0 /\
  at_key (nextAllowed (queue (worker_tick s))) id = 0 /\
  (forall now, in_backoff now (queue (worker_tick s)) id = false) /\
  (is_Some (workerErrs (queue s) !! id) ->
   at_key (backoff (queue (worker_tick s))) id = backoffMin (queue s)).
Proof.
  intros Hrun Hwg.
  assert (Hpos : 0 < cbReset (queue s)).
  { apply (reachable_cbReset_pos w). exists cfg, subs, ops. exact Hrun. }
  assert (Hkeys : health_keys_ok (queue s)).
  { apply (health_keys_ok_run w ops (boot (NewQueueWithConfig cfg subs)) s); [|exact Hrun].
    intros id' _. cbn. split; apply lookup_empty. }
  unfold worker_tick. rewrite Hwg. cbn [on_queue queue]. unfold resetIfNeeded.
  destruct (Z.leb_spec (cbReset (queue s)) 0); [lia|].
  set (ids := map fst (map_to_list (workerErrs (queue s)))).
  assert (Hin : is_Some (workerErrs (queue s) !! id) -> In id ids).
  { intros [v Hv]. subst ids. apply in_map_iff. exists (id, v). split; [reflexivity|].
    apply list_elem_of_In, elem_of_map_to_list, Hv. }
  assert (H3 : at_key (workerErrs (reset_ids ids (queue s))) id = 0 /\
               at_key (nextAllowed (reset_ids ids (queue s))) id = 0).
  { destruct (workerErrs (queue s) !! id) as [v|] eqn:E.
    - destruct (reset_ids_at ids (queue s) id (Hin (ex_intro _ v eq_refl))) as (A & B & _).
      auto.
    - destruct (Hkeys id E) as [Hn _]. split.
      + apply reset_ids_workerErrs_zero. unfold at_key. rewrite E. reflexivity.
      + apply reset_ids_nextAllowed_zero. unfold at_key.
        unfold Time in Hn. rewrite Hn. reflexivity. }
  destruct H3 as [A B]. repeat split; try assumption.
  - intros now. unfold in_backoff, IsZero. rewrite B. reflexivity.
  - intros Hs. apply reset_ids_at, Hin, Hs.
Qed.

Lemma tick_clears_every_record_witness :
  at_key (workerErrs (queue (worker_recv slow_world two_buffered)))
    "*subscribers.WebhookSubscriber" = 1 /\
  at_key (nextAllowed (queue (worker_recv slow_world two_buffered)))
    "*subscribers.WebhookSubscriber" = 1700000000 * Second + 100 * Millisecond /\
  at_key (workerErrs (queue (worker_tick (worker_recv slow_world two_buffered))))
    "*subscribers.WebhookSubscriber" = 0 /\
  at_key (nextAllowed (queue (worker_tick (worker_recv slow_world two_buffered))))
    "*subscribers.WebhookSubscriber" = 0 /\
  (forall now,
     in_backoff now (queue (worker_tick (worker_recv slow_world two_buffered)))
       "*subscribers.WebhookSubscriber" = false) /\
  (is_Some (workerErrs (queue (worker_recv slow_world two_buffered))
              !! "*subscribers.WebhookSubscriber") ->
   at_key (backoff (queue (worker_tick (worker_recv slow_world two_buffered))))
     "*subscribers.WebhookSubscriber" =
     backoffMin (queue (worker_recv slow_world two_buffered))).
Proof.
  assert (Hrun : run slow_world
                   [OpTrack Background "order.completed" {[ "amount" := AInt 42 ]};
                    OpTrack Background "order.completed" {[ "amount" := AInt 42 ]};
                    OpRecv]
                   (boot (NewQueueWithConfig default_config [webhookA])) =
                 Returned (worker_recv slow_world two_buffered)) by reflexivity.
  assert (Hwg : wg_done (queue (worker_recv slow_world two_buffered)) = false)
    by reflexivity.
  split; [vm_compute; reflexivity|]. split; [vm_compute; reflexivity|].
  exact (tick_clears_every_record slow_world default_config [webhookA] _
           (worker_recv slow_world two_buffered) "*subscribers.WebhookSubscriber"
           Hrun Hwg).
Defined.

End QueueRunsSpec.
(* ===================================================================== *)
(** ** package subscribers: the circuit threshold                         *)
(* ===================================================================== *)

Module QueueThresholdSpec.
Import GoInt GoTime GoFmt Trace Subscribers QueueObs GoIntSpec QueueSpec QueueRuns.

Lemma actions_app a b : actions (a ++ b) = actions a ++ actions b.
Proof. apply List.filter_app. Qed.

Lemma actions_print a d : actions (a ++ [ObsPrint d]) = actions a.
Proof. rewrite actions_app. cbn. apply app_nil_r. Qed.

Lemma same_but_threshold_refl s : same_but_threshold s s.
Proof.
  split; [|split; reflexivity]. exists (cbThreshold (queue s)).
  destruct s as [[] n o]. reflexivity.
Qed.

Ltac related :=
  split; [eexists; reflexivity|split; [reflexivity|]];
  cbn [observed tick_clock emit on_queue queue readings];
  rewrite ?actions_print, ?actions_app; try congruence.

Lemma deliver_to_threshold w ev sub s s' :
  same_but_threshold s s' ->
  same_but_threshold (deliver_to w ev s sub) (deliver_to w ev s' sub).
Proof.
  destruct s as [q n o], s' as [q' n' o']. intros ([t Hq] & Hn & Ho).
  cbn [queue readings observed] in Hq, Hn, Ho. subst q' n'.
  unfold deliver_to. cbn [tick_clock queue readings observed].
  change (in_backoff (clock w n) (set_cbThreshold t q) (sub_type sub))
    with (in_backoff (clock w n) q (sub_type sub)).
  destruct (in_backoff (clock w n) q (sub_type sub)); [related|].
  destruct (send_ok w n sub (name ev) (properties ev)).
  - cbn [emit on_queue queue readings observed]. related.
  - cbn [emit on_queue queue readings observed].
    change (cbThreshold (record_failure (clock w n) (sub_type sub) (set_cbThreshold t q)))
      with t.
    change (workerErrs (record_failure (clock w n) (sub_type sub) (set_cbThreshold t q)))
      with (workerErrs (record_failure (clock w n) (sub_type sub) q)).
    destruct (_ <=? _), (_ <=? _); cbn [emit queue readings observed]; related.
Qed.

Lemma fold_deliver_to_threshold w ev subs : forall s s',
  same_but_threshold s s' ->
  same_but_threshold (fold_left (deliver_to w ev) subs s)
    (fold_left (deliver_to w ev) subs s').
Proof.
  induction subs as [|sub subs IH]; intros s s' H; cbn [fold_left]; [exact H|].
  apply IH, deliver_to_threshold, H.
Qed.

Lemma same_but_threshold_subscribers s s' :
  same_but_threshold s s' -> subscribers (queue s') = subscribers (queue s).
Proof. intros ([t ->] & _). reflexivity. Qed.

Lemma deliver_threshold w ev s s' :
  same_but_threshold s s' ->
  same_but_threshold (deliver w ev s) (deliver w ev s').
Proof.
  intros H. unfold deliver. rewrite (same_but_threshold_subscribers s s' H).
  apply fold_deliver_to_threshold, H.
Qed.

Lemma reset_ids_set_cbThreshold t ids q :
  reset_ids ids (set_cbThreshold t q) = set_cbThreshold t (reset_ids ids q).
Proof.
  induction ids as [|id ids IH]; cbn [reset_ids fold_right]; [reflexivity|].
  fold (reset_ids ids (set_cbThreshold t q)). fold (reset_ids ids q).
  rewrite IH. reflexivity.
Qed.

Lemma resetIfNeeded_set_cbThreshold t q :
  resetIfNeeded (set_cbThreshold t q) = set_cbThreshold t (resetIfNeeded q).
Proof.
  unfold resetIfNeeded. cbn [cbReset set_cbThreshold workerErrs].
  destruct (cbReset q <=? 0); [reflexivity|]. apply reset_ids_set_cbThreshold.
Qed.

Lemma on_queue_threshold (f : Queue -> Queue) s s' :
  (forall t q, f (set_cbThreshold t q) = set_cbThreshold t (f q)) ->
  same_but_threshold s s' ->
  same_but_threshold (on_queue f s) (on_queue f s').
Proof.
  intros Hf ([t Hq] & Hn & Ho). split; [|split; assumption].
  exists t. cbn [on_queue queue]. rewrite Hq. apply Hf.
Qed.

Lemma worker_tick_threshold s s' :
  same_but_threshold s s' ->
  same_but_threshold (worker_tick s) (worker_tick s').
Proof.
  intros H. unfold worker_tick.
  assert (E : wg_done (queue s') = wg_done (queue s))
    by (destruct H as ([t ->] & _); reflexivity).
  rewrite E. destruct (wg_done (queue s)); [exact H|].
  apply on_queue_threshold; [|exact H].
  intros t q. apply resetIfNeeded_set_cbThreshold.
Qed.

Lemma worker_recv_threshold w s s' :
  same_but_threshold s s' ->
  same_but_threshold (worker_recv w s) (worker_recv w s').
Proof.
  intros H. unfold worker_recv.
  assert (E : wg_done (queue s') = wg_done (queue s) /\
              events (queue s') = events (queue s) /\
              events_closed (queue s') = events_closed (queue s))
    by (destruct H as ([t ->] & _); repeat split; reflexivity).
  destruct E as (-> & -> & ->).
  destruct (wg_done (queue s)); [exact H|].
  destruct (events (queue s)) as [|ev rest].
  - destruct (events_closed (queue s)); [|exact H].
    apply on_queue_threshold; [reflexivity|exact H].
  - apply deliver_threshold, on_queue_threshold; [reflexivity|exact H].
Qed.

Lemma drain_threshold w evs : forall tick_at s s',
  same_but_threshold s s' ->
  same_but_threshold (drain w evs tick_at s) (drain w evs tick_at s').
Proof.
  induction evs as [|ev rest IH]; intros tick_at s s' H; cbn [drain].
  - apply on_queue_threshold; [reflexivity|].
    destruct tick_at as [[|i]|]; auto using worker_tick_threshold.
  - apply IH, deliver_threshold, on_queue_threshold; [reflexivity|].
    destruct tick_at as [[|i]|]; auto using worker_tick_threshold.
Qed.

Lemma close_all_threshold w subs s s' :
  same_but_threshold s s' ->
  same_but_threshold (close_all w subs s) (close_all w subs s').
Proof.
  intros ([t Hq] & Hn & Ho). rewrite !close_all_eq.
  split; [exists t; exact Hq|split; [exact Hn|]].
  cbn [observed]. rewrite !actions_app. congruence.
Qed.

Lemma step_threshold w op s s' :
  same_but_threshold s s' -> same_outcome (step w op s) (step w op s').
Proof.
  intros H.
  assert (E : closed (queue s') = closed (queue s) /\
              events (queue s') = events (queue s) /\
              events_closed (queue s') = events_closed (queue s) /\
              events_cap (queue s') = events_cap (queue s) /\
              wg_done (queue s') = wg_done (queue s) /\
              subscribers (queue s') = subscribers (queue s))
    by (destruct H as ([t ->] & _); repeat split; reflexivity).
  destruct E as (E1 & E2 & E3 & E4 & E5 & E6).
  destruct op as [ctx name props| | |tick_at]; cbn [step].
  - unfold Track. rewrite E2, E3, E4.
    destruct (events_closed (queue s)); [reflexivity|].
    destruct (_ <? _); cbn [same_outcome].
    + apply on_queue_threshold; [reflexivity|exact H].
    + destruct H as (Hq & Hn & Ho). split; [exact Hq|split; [exact Hn|]].
      cbn [emit observed]. rewrite !actions_print. exact Ho.
  - apply worker_recv_threshold, H.
  - apply worker_tick_threshold, H.
  - unfold Shutdown. rewrite E1.
    destruct (closed (queue s)); [exact H|].
    cbn [on_queue queue events_closed set_closed]. rewrite E3.
    destruct (events_closed (queue s)); [reflexivity|].
    cbn [on_queue queue wg_done set_flushTick_stopped set_events_closed set_closed events].
    rewrite E5, E2.
    assert (H1 : same_but_threshold
              (on_queue (set_flushTick_stopped true)
                 (on_queue (set_events_closed true) (on_queue (set_closed true) s)))
              (on_queue (set_flushTick_stopped true)
                 (on_queue (set_events_closed true) (on_queue (set_closed true) s')))).
    { repeat (apply on_queue_threshold; [reflexivity|]). exact H. }
    destruct (wg_done (queue s)); cbn [same_outcome].
    + cbn [queue on_queue subscribers set_flushTick_stopped set_events_closed set_closed].
      rewrite E6. apply close_all_threshold, H1.
    + pose proof (drain_threshold w (events (queue s)) tick_at _ _ H1) as H2.
      rewrite (same_but_threshold_subscribers _ _ H2).
      apply close_all_threshold, H2.
Qed.

Lemma run_threshold w ops : forall s s',
  same_but_threshold s s' -> same_outcome (run w ops s) (run w ops s').
Proof.
  induction ops as [|op ops IH]; intros s s' H; cbn [run]; [exact H|].
  pose proof (step_threshold w op s s' H) as Hs.
  destruct (step w op s) as [s1|m1], (step w op s') as [s1'|m1'];
    cbn [same_outcome] in Hs; try contradiction.
  - apply IH, Hs.
  - exact Hs.
Qed.

(** X11: The circuit threshold of a queue changes nothing but the diagnostics
    printed.  Two queues built from configurations that differ in
    CircuitThreshold only, run through the same calls and consumer turns in
    the same world, end in the same outcome: the same panic, or states with
    the same buffer, flags and health maps, the same clock readings made and
    the same calls of [Send] and [Close], with the same results, in the same
    order.  A destination over the threshold is treated like any other
    destination that failed: it waits out its backoff and is tried again. *)
Theorem threshold_only_changes_diagnostics (w : World) (cfg : QueueConfig)
    (subs : list Subscriber) (ops : list Op) (t1 t2 : Z) :
  same_outcome
    (run w ops (boot (NewQueueWithConfig (with_CircuitThreshold t1 cfg) subs)))
    (run w ops (boot (NewQueueWithConfig (with_CircuitThreshold t2 cfg) subs))).
Proof.
  apply run_threshold. split; [|split; reflexivity].
  exists (if t2 <=? 0 then 5 else t2). reflexivity.
Qed.

End QueueThresholdSpec.

(* ===================================================================== *)
(** ** package subscribers: what is sent when no [Send] fails             *)
(* ===================================================================== *)

Module QueueFlushSpec.
Import GoInt GoTime GoFmt Trace Subscribers QueueObs GoIntSpec QueueSpec QueueRuns.

Lemma none_waiting_not_in_backoff s now id :
  none_waiting s -> in_backoff now (queue s) id = false.
Proof. intros H. unfold in_backoff, IsZero. rewrite (H id). reflexivity. Qed.

Lemma none_waiting_record_success id s :
  none_waiting s -> none_waiting (on_queue (record_success id) s).
Proof.
  intros H id'. cbn [on_queue queue record_success nextAllowed set_health].
  destruct (decide (id = id')) as [->|Hne].
  - apply at_key_insert_eq.
  - rewrite at_key_insert_ne by exact Hne. apply H.
Qed.

(** With no destination waiting and no [Send] failing, an iteration of the
    loop of [deliver] sends the event and clears the record. *)
Lemma deliver_to_sends w ev s sub :
  all_succeed w -> none_waiting s ->
  deliver_to w ev s sub =
    mkSys (record_success (sub_type sub) (queue s)) (S (readings s))
      (observed s ++ [ObsSend (clock w (readings s)) sub (name ev) (properties ev) true]).
Proof.
  intros Hw Hs.
  destruct (deliver_to_cases w ev s sub) as [[Hb _]|[(_ & _ & E)|(_ & Hf & _)]].
  - rewrite none_waiting_not_in_backoff in Hb by exact Hs. discriminate.
  - exact E.
  - rewrite Hw in Hf. discriminate.
Qed.

Lemma none_waiting_deliver_to w ev s sub :
  all_succeed w -> none_waiting s -> none_waiting (deliver_to w ev s sub).
Proof.
  intros Hw Hs. rewrite deliver_to_sends by assumption.
  intros id. apply (none_waiting_record_success (sub_type sub) s Hs id).
Qed.

Lemma none_waiting_run w ops s s' :
  all_succeed w -> none_waiting s -> run w ops s = Returned s' -> none_waiting s'.
Proof.
  intros Hw.
  apply (inv_run w none_waiting).
  - intros s0 evs H. exact H.
  - intros s0 event H. exact H.
  - intros s0 ev sub H _. apply none_waiting_deliver_to; assumption.
  - intros s0 H id. cbn [on_queue queue]. unfold resetIfNeeded.
    destruct (cbReset (queue s0) <=? 0); [apply H|].
    apply reset_ids_nextAllowed_zero, H.
  - intros s0 H _. exact H.
  - intros s0 H _. exact H.
  - intros s0 H _. rewrite close_all_eq. exact H.
Qed.

Lemma Subscriber_eqb_eq a b : Subscriber_eqb a b = true -> a = b.
Proof.
  destruct a as [a1 a2], b as [b1 b2]. unfold Subscriber_eqb. cbn.
  intros H. apply andb_true_iff in H as [H1 H2].
  apply Nat.eqb_eq in H1. apply String.eqb_eq in H2. congruence.
Qed.

(** The copies of the event that one pass over [subs] hands to [sub]. *)
Lemma sent_to_once sub (x : string * gmap string any) subs :
  NoDup subs -> In sub subs ->
  flat_map (fun sub' => if Subscriber_eqb sub sub' then [x] else []) subs = [x].
Proof.
  intros Hnd. induction Hnd as [|a subs Ha Hnd IH]; intros Hin; [destruct Hin|].
  cbn [flat_map].
  assert (Hnone : ~ sub ∈ subs ->
            flat_map (fun sub' => if Subscriber_eqb sub sub' then [x] else []) subs = []).
  { clear. intros Hn. induction subs as [|b subs IH]; [reflexivity|]. cbn [flat_map].
    destruct (Subscriber_eqb sub b) eqn:E.
    - apply Subscriber_eqb_eq in E. subst b. exfalso. apply Hn. left.
    - apply IH. intros H. apply Hn. right. exact H. }
  destruct (Subscriber_eqb sub a) eqn:E.
  - apply Subscriber_eqb_eq in E. subst a. rewrite Hnone by exact Ha. reflexivity.
  - destruct Hin as [->|Hin]; [rewrite Subscriber_eqb_refl in E; discriminate|].
    rewrite IH by exact Hin. reflexivity.
Qed.

Lemma fold_deliver_to_sends w ev sub subs : forall s,
  all_succeed w -> none_waiting s ->
  none_waiting (fold_left (deliver_to w ev) subs s) /\
  sent_to sub (observed (fold_left (deliver_to w ev) subs s)) =
    sent_to sub (observed s) ++
    flat_map (fun sub' => if Subscriber_eqb sub sub' then [payload ev] else []) subs.
Proof.
  induction subs as [|a subs IH]; intros s Hw Hs; cbn [fold_left flat_map].
  - rewrite app_nil_r. split; [exact Hs|reflexivity].
  - destruct (IH (deliver_to w ev s a) Hw (none_waiting_deliver_to w ev s a Hw Hs))
      as [H1 H2].
    split; [exact H1|]. rewrite H2.
    rewrite deliver_to_sends by assumption. cbn [observed].
    rewrite sent_to_app, <- app_assoc. f_equal. f_equal.
    cbn [sent_to flat_map]. rewrite app_nil_r. reflexivity.
Qed.

Lemma deliver_sends w ev sub s :
  all_succeed w -> none_waiting s ->
  NoDup (subscribers (queue s)) -> In sub (subscribers (queue s)) ->
  none_waiting (deliver w ev s) /\
  sent_to sub (observed (deliver w ev s)) = sent_to sub (observed s) ++ [payload ev].
Proof.
  intros Hw Hs Hnd Hin. unfold deliver.
  destruct (fold_deliver_to_sends w ev sub (subscribers (queue s)) s Hw Hs) as [H1 H2].
  split; [exact H1|]. rewrite H2, sent_to_once by assumption. reflexivity.
Qed.

Lemma none_waiting_worker_tick s : none_waiting s -> none_waiting (worker_tick s).
Proof.
  intros H id. unfold worker_tick. destruct (wg_done (queue s)); [apply H|].
  cbn [on_queue queue]. unfold resetIfNeeded.
  destruct (cbReset (queue s) <=? 0); [apply H|].
  apply reset_ids_nextAllowed_zero, H.
Qed.

Lemma drain_sends w sub evs : forall tick_at s,
  all_succeed w -> none_waiting s ->
  NoDup (subscribers (queue s)) -> In sub (subscribers (queue s)) ->
  sent_to sub (observed (drain w evs tick_at s)) =
    sent_to sub (observed s) ++ map payload evs.
Proof.
  induction evs as [|ev rest IH]; intros tick_at s Hw Hs Hnd Hin; cbn [drain map].
  - rewrite app_nil_r. cbn [on_queue observed].
    destruct tick_at as [[|i]|]; rewrite ?worker_tick_obs; reflexivity.
  - set (s1 := match tick_at with Some O => worker_tick s | _ => s end).
    assert (H1 : none_waiting s1 /\ observed s1 = observed s /\
                 subscribers (queue s1) = subscribers (queue s)).
    { subst s1. destruct tick_at as [[|i]|]; try (repeat split; assumption).
      split; [apply none_waiting_worker_tick, Hs|].
      split; [apply worker_tick_obs|].
      pose proof (worker_tick_frame s) as F. apply same_but_health_fields in F.
      intuition. }
    destruct H1 as (Hs1 & Ho1 & Hsub1).
    set (s2 := on_queue (set_events rest) s1).
    assert (Hs2 : none_waiting s2) by exact Hs1.
    assert (Hsub2 : subscribers (queue s2) = subscribers (queue s)) by exact Hsub1.
    destruct (deliver_sends w ev sub s2 Hw Hs2) as [Hs3 Hsent];
      try (rewrite Hsub2; assumption).
    pose proof (deliver_frame w ev s2) as F. apply same_but_health_fields in F.
    destruct F as (_ & _ & _ & Fsub & _).
    rewrite IH; try assumption; try (rewrite Fsub, Hsub2; assumption).
    rewrite Hsent. subst s2. cbn [on_queue observed]. rewrite Ho1, <- app_assoc.
    reflexivity.
Qed.

Lemma sent_to_closes sub subs : sent_to sub (map ObsClose subs) = [].
Proof. induction subs as [|a subs IH]; [reflexivity|exact IH]. Qed.

(** X12: [Shutdown] flushes the buffer.  In a world where no [Send] fails, the
    first [Shutdown] of a queue hands every event still buffered to each
    registered subscriber (registered once), oldest first, before it
    returns, and leaves the buffer empty. *)
Theorem Shutdown_flushes_in_order (w : World) (cfg : QueueConfig)
    (subs : list Subscriber) (ops : list Op) (s : Sys) (tick_at : option nat)
    (sub : Subscriber) :
  all_succeed w -> NoDup subs -> In sub subs ->
  run w ops (boot (NewQueueWithConfig cfg subs)) = Returned s ->
  closed (queue s) = false ->
  exists s1,
    Shutdown w tick_at s = Returned (None, s1) /\
    sent_to sub (observed s1) = sent_to sub (observed s) ++ map payload (events (queue s)) /\
    events (queue s1) = [].
Proof.
  intros Hw Hnd Hin Hrun Hcl.
  assert (Hl : lifecycle_ok s).
  { apply (lifecycle_ok_run w ops _ s (lifecycle_ok_boot cfg subs) Hrun). }
  assert (Hs : none_waiting s).
  { apply (none_waiting_run w ops (boot (NewQueueWithConfig cfg subs)) s Hw); [|exact Hrun].
    intros id. reflexivity. }
  assert (Hsubs : subscribers (queue s) = subs).
  { pose proof (same_but_health_refl (queue s)) as _.
    apply (inv_run w (fun x => subscribers (queue x) = subs)) with (ops := ops)
      (s := boot (NewQueueWithConfig cfg subs)); try exact Hrun; try reflexivity.
    - intros s0 evs H. exact H.
    - intros s0 event H. exact H.
    - intros s0 ev a H _. pose proof (deliver_to_frame w ev s0 a) as F.
      apply same_but_health_fields in F. destruct F as (_ & _ & _ & F & _). congruence.
    - intros s0 H. pose proof (resetIfNeeded_frame (queue s0)) as F.
      apply same_but_health_fields in F. destruct F as (_ & _ & _ & F & _).
      cbn [on_queue queue]. congruence.
    - intros s0 H _. exact H.
    - intros s0 H _. exact H.
    - intros s0 H _. rewrite close_all_eq. exact H. }
  destruct Hl as (L1 & L2 & L3).
  assert (Hwg : wg_done (queue s) = false).
  { destruct (wg_done (queue s)); [specialize (L2 eq_refl); congruence|reflexivity]. }
  unfold Shutdown. rewrite Hcl.
  cbn [on_queue queue events_closed set_closed]. rewrite L1, Hcl.
  cbn [wg_done queue on_queue set_flushTick_stopped set_events_closed set_closed events].
  rewrite Hwg.
  match goal with |- context [drain w ?e ?t ?x] =>
    destruct (drain_fields w e t x eq_refl) as (D1 & _ & _ & _ & D5);
    pose proof (drain_sends w sub e t x Hw Hs) as Hd;
    set (s2 := drain w e t x) in * end.
  eexists. split; [reflexivity|].
  rewrite close_all_eq. cbn [queue observed].
  split; [|exact D1].
  rewrite sent_to_app, sent_to_closes, app_nil_r.
  apply Hd; cbn [on_queue queue subscribers set_flushTick_stopped set_events_closed set_closed];
    rewrite Hsubs; assumption.
Qed.

Lemma Shutdown_flushes_in_order_witness :
  exists s1,
    Shutdown calm_world None
      (mkSys (set_events [sample_event; sample_event] (NewQueue [inMemory])) 0 []) =
      Returned (None, s1) /\
    sent_to inMemory (observed s1) =
      sent_to inMemory [] ++ map payload [sample_event; sample_event] /\
    events (queue s1) = [].
Proof.
  apply (Shutdown_flushes_in_order calm_world default_config [inMemory]
           [OpTrack Background "order.completed" {[ "amount" := AInt 42 ]};
            OpTrack Background "order.completed" {[ "amount" := AInt 42 ]}]
           (mkSys (set_events [sample_event; sample_event] (NewQueue [inMemory])) 0 [])
           None inMemory).
  - intros n sub event props. reflexivity.
  - repeat constructor. intros H. inversion H.
  - left. reflexivity.
  - reflexivity.
  - reflexivity.
Defined.

(** X13: [Track] copies the properties of the caller and writes three keys at
    most.  When the queue is open and its buffer has room, the event it
    buffers carries the name given and the operation name of the context;
    every property of the caller under another key than [trace_id],
    [span_id] and [operation.name] is carried as it is; [operation.name] is
    the operation name of the context when that is not empty, and the
    property of the caller otherwise. *)
Theorem Track_keeps_caller_properties (ctx : Context) (event : string)
    (props : gmap string any) (s : Sys) :
  events_closed (queue s) = false ->
  Z.of_nat (length (events (queue s))) < events_cap (queue s) ->
  exists s' ev,
    Track ctx event props s = Returned s' /\
    events (queue s') = events (queue s) ++ [ev] /\
    name ev = event /\
    operation ev = GetOperationName ctx /\
    (forall k, k <> "trace_id" -> k <> "span_id" -> k <> "operation.name" ->
       properties ev !! k = props !! k) /\
    (GetOperationName ctx <> "" ->
       properties ev !! "operation.name" = Some (AString (GetOperationName ctx))) /\
    (GetOperationName ctx = "" ->
       properties ev !! "operation.name" = props !! "operation.name").
Proof.
  intros Hc Hroom. unfold Track. rewrite Hc.
  destruct (Z.ltb_spec (Z.of_nat (length (events (queue s)))) (events_cap (queue s)));
    [|lia].
  eexists. eexists. split; [reflexivity|].
  cbn [on_queue queue events set_events name operation properties].
  split; [reflexivity|]. split; [reflexivity|]. split; [reflexivity|].
  unfold enrich.
  set (base :=
    if IsRecording (SpanFromContext ctx)
    then if SpanContext_IsValid (GetSpanContext (SpanFromContext ctx))
         then <["span_id" := AString (Sprintf_0x_Stringer 16
                   (ID_String (sc_SpanID (GetSpanContext (SpanFromContext ctx)))))]>
                (<["trace_id" := AString (Sprintf_0x_Stringer 32
                   (ID_String (sc_TraceID (GetSpanContext (SpanFromContext ctx)))))]> props)
         else props
    else props).
  assert (Hbase : forall k, k <> "trace_id" -> k <> "span_id" -> base !! k = props !! k).
  { intros k H1 H2. subst base.
    destruct (IsRecording _); [|reflexivity].
    destruct (SpanContext_IsValid _); [|reflexivity].
    rewrite !lookup_insert_ne by congruence. reflexivity. }
  destruct (String.eqb_spec (GetOperationName ctx) "") as [E|E]; cbv iota; cbn [properties].
  - split; [|split].
    + intros k H1 H2 _. apply Hbase; assumption.
    + intros Hne. contradiction.
    + intros _. apply Hbase; discriminate.
  - split; [|split].
    + intros k H1 H2 H3. rewrite lookup_insert_ne by congruence. apply Hbase; assumption.
    + intros _. apply lookup_insert_eq.
    + intros He. contradiction.
Qed.

Lemma Track_keeps_caller_properties_witness :
  exists s' ev,
    Track sample_ctx "order.completed" {[ "amount" := AInt 42 ]}
      (boot (NewQueue [inMemory])) = Returned s' /\
    events (queue s') = events (queue (boot (NewQueue [inMemory]))) ++ [ev] /\
    name ev = "order.completed" /\
    operation ev = GetOperationName sample_ctx /\
    (forall k, k <> "trace_id" -> k <> "span_id" -> k <> "operation.name" ->
       properties ev !! k = ({[ "amount" := AInt 42 ]} : gmap string any) !! k) /\
    (GetOperationName sample_ctx <> "" ->
       properties ev !! "operation.name" = Some (AString (GetOperationName sample_ctx))) /\
    (GetOperationName sample_ctx = "" ->
       properties ev !! "operation.name" =
         ({[ "amount" := AInt 42 ]} : gmap string any) !! "operation.name").
Proof.
  apply (Track_keeps_caller_properties sample_ctx "order.completed"
           {[ "amount" := AInt 42 ]} (boot (NewQueue [inMemory]))).
  - reflexivity.
  - reflexivity.
Defined.

End QueueFlushSpec.
(* ===================================================================== *)
(** ** package subscribers: how long a failure suspends a destination     *)
(* ===================================================================== *)

Module QueueWaitSpec.
Import GoInt GoTime GoFmt Trace Subscribers QueueObs GoIntSpec QueueSpec.
Import QueueRuns QueueRunsSpec.

Lemma backoff_config_ok_same_tuning q q' :
  same_tuning q q' -> backoff_config_ok q -> backoff_config_ok q'.
Proof.
  unfold same_tuning, backoff_config_ok. intros (_ & _ & _ & _ & -> & -> & _). auto.
Qed.

Lemma backoffs_nonneg_insert id (e : gmap string Z) (n : gmap string Time)
    (b : Duration) q :
  0 <= b -> backoffs_nonneg q ->
  backoffs_nonneg (set_health e n (<[id := b]> (backoff q)) q).
Proof.
  intros Hb H id'. cbn [backoff set_health].
  destruct (decide (id = id')) as [->|Hne].
  - rewrite at_key_insert_eq. exact Hb.
  - rewrite at_key_insert_ne by exact Hne. apply H.
Qed.

Lemma backoffs_nonneg_reset_ids ids q :
  0 < backoffMin q -> backoffs_nonneg q -> backoffs_nonneg (reset_ids ids q).
Proof.
  intros Hmin H. induction ids as [|id ids IH]; cbn [reset_ids fold_right]; [exact H|].
  fold (reset_ids ids q).
  pose proof (reset_ids_frame ids q) as F. apply same_but_health_fields in F.
  destruct F as (_ & _ & _ & _ & _ & _ & _ & _ & _ & Fmin & _).
  apply backoffs_nonneg_insert; [lia|exact IH].
Qed.

Lemma backoffs_nonneg_run w ops s s' :
  backoff_config_ok (queue s) -> backoffs_nonneg (queue s) ->
  run w ops s = Returned s' ->
  backoff_config_ok (queue s') /\ backoffs_nonneg (queue s').
Proof.
  intros Hok Hnn.
  apply (inv_run w (fun x => backoff_config_ok (queue x) /\ backoffs_nonneg (queue x)));
    [| | | | | | |split; assumption].
  - intros s0 evs H. exact H.
  - intros s0 event H. exact H.
  - intros s0 ev sub [H1 H2]. intros _.
    destruct (deliver_to_cases w ev s0 sub) as [[_ ->]|[(_ & _ & ->)|(_ & _ & tail & _ & ->)]];
      cbn [queue tick_clock].
    + split; assumption.
    + split; [exact H1|]. unfold record_success.
      apply backoffs_nonneg_insert; [destruct H1; lia|exact H2].
    + split; [exact H1|]. unfold record_failure.
      apply backoffs_nonneg_insert; [|exact H2].
      destruct (record_failure_backoff (clock w (readings s0)) (sub_type sub) (queue s0)
                  H1 (H2 _)) as [_ Hb].
      destruct (record_failure_at (clock w (readings s0)) (sub_type sub) (queue s0))
        as (_ & _ & Hb').
      rewrite <- Hb', Hb. destruct H1 as (Hmin & Hmax & _).
      specialize (H2 (sub_type sub)).
      destruct (Z.eqb_spec (at_key (backoff (queue s0)) (sub_type sub)) 0); lia.
  - intros s0 [H1 H2]. cbn [on_queue queue].
    pose proof (resetIfNeeded_frame (queue s0)) as F.
    split.
    + apply (backoff_config_ok_same_tuning (queue s0)); [|exact H1].
      apply same_but_health_tuning, F.
    + unfold resetIfNeeded. destruct (cbReset (queue s0) <=? 0); [exact H2|].
      apply backoffs_nonneg_reset_ids; [destruct H1; assumption|exact H2].
  - intros s0 H _. exact H.
  - intros s0 H _. exact H.
  - intros s0 H _. rewrite close_all_eq. exact H.
Qed.

(** X14: A failed [Send] suspends its destination for a positive time that is
    at most [backoffMax], in every state a queue reaches (the maximum being
    small enough to be doubled): the destination is due again later than the
    clock reading of the failed call, and no later than that reading plus
    [backoffMax]; until then, when that reading is not before the zero time,
    [deliver] skips it. *)
Theorem failed_Send_wait_bounds (w : World) (cfg : QueueConfig) (subs : list Subscriber)
    (ops : list Op) (s : Sys) (ev : queuedEvent) (sub : Subscriber) :
  run w ops (boot (NewQueueWithConfig cfg subs)) = Returned s ->
  2 * BackoffMax cfg <= max_int64 ->
  in_backoff (clock w (readings s)) (queue s) (sub_type sub) = false ->
  send_ok w (readings s) sub (name ev) (properties ev) = false ->
  clock w (readings s) <
    at_key (nextAllowed (queue (deliver_to w ev s sub))) (sub_type sub) /\
  at_key (nextAllowed (queue (deliver_to w ev s sub))) (sub_type sub) <=
    clock w (readings s) + backoffMax (queue s) /\
  (forall t, 0 <= clock w (readings s) <= t ->
     t < at_key (nextAllowed (queue (deliver_to w ev s sub))) (sub_type sub) ->
     in_backoff t (queue (deliver_to w ev s sub)) (sub_type sub) = true).
Proof.
  intros Hrun Hcfg Hnb Hfail.
  assert (Hok0 : backoff_config_ok (NewQueueWithConfig cfg subs)).
  { destruct (NewQueueWithConfig_positive cfg subs) as (_ & _ & _ & Pmin & Pmax & _).
    split; [exact Pmin|]. split; [exact Pmax|].
    unfold NewQueueWithConfig, Second, max_int64 in *. cbn [backoffMax].
    destruct (Z.leb_spec (BackoffMax cfg) 0); lia. }
  destruct (backoffs_nonneg_run w ops (boot (NewQueueWithConfig cfg subs)) s Hok0)
    as [Hok Hnn]; [intros id; reflexivity|exact Hrun|].
  destruct (deliver_to_cases w ev s sub) as [[Hb _]|[(_ & Ht & _)|(_ & _ & tail & _ & ->)]];
    [congruence|congruence|].
  cbn [queue].
  destruct (record_failure_backoff (clock w (readings s)) (sub_type sub) (queue s)
              Hok (Hnn _)) as [Hnext _].
  rewrite Hnext.
  destruct Hok as (Hmin & Hmax & _). specialize (Hnn (sub_type sub)).
  set (cur := if at_key (backoff (queue s)) (sub_type sub) =? 0
              then backoffMin (queue s) else at_key (backoff (queue s)) (sub_type sub)) in *.
  assert (Hcur : 0 < cur).
  { subst cur. destruct (Z.eqb_spec (at_key (backoff (queue s)) (sub_type sub)) 0); lia. }
  split; [lia|]. split; [lia|].
  intros t Ht Hlt.
  unfold in_backoff, IsZero, Before. rewrite Hnext.
  apply andb_true_iff. split.
  - apply negb_true_iff, Z.eqb_neq. lia.
  - apply Z.ltb_lt. exact Hlt.
Qed.

Lemma failed_Send_wait_bounds_witness :
  clock slow_world (readings two_buffered) <
    at_key (nextAllowed (queue (deliver_to slow_world sample_event two_buffered webhookA)))
      (sub_type webhookA) /\
  at_key (nextAllowed (queue (deliver_to slow_world sample_event two_buffered webhookA)))
      (sub_type webhookA) <=
    clock slow_world (readings two_buffered) + backoffMax (queue two_buffered) /\
  (forall t, 0 <= clock slow_world (readings two_buffered) <= t ->
     t < at_key (nextAllowed (queue (deliver_to slow_world sample_event two_buffered webhookA)))
           (sub_type webhookA) ->
     in_backoff t (queue (deliver_to slow_world sample_event two_buffered webhookA))
       (sub_type webhookA) = true).
Proof.
  apply (failed_Send_wait_bounds slow_world default_config [webhookA]
           [OpTrack Background "order.completed" {[ "amount" := AInt 42 ]};
            OpTrack Background "order.completed" {[ "amount" := AInt 42 ]}]
           two_buffered sample_event webhookA).
  - reflexivity.
  - vm_compute. discriminate.
  - reflexivity.
  - reflexivity.
Defined.

End QueueWaitSpec.
(* ===================================================================== *)
(** ** package autolemetry: trace identifiers and the gate of [Start]     *)
(* ===================================================================== *)

Module AutolemetrySpec.
Import GoInt GoTime GoFmt Trace Subscribers QueueObs GoIntSpec QueueSpec Autolemetry.
Import Floats.

(** X15: For a context that carries a recording span with a valid span context,
    a 16-byte trace id and an 8-byte span id, [GetTraceID] returns 64
    characters and [GetSpanID] 32 (each byte of the identifier gives two hex
    digits, and each of these digits is written as the two hex digits of its
    character code), and they are the [trace_id] and [span_id] that [Track]
    attaches to an event tracked under that context. *)
Theorem GetTraceID_GetSpanID_lengths (ctx : Context) (sp : Span)
    (props : gmap string any) :
  ctx_span ctx = Some sp ->
  IsRecording sp = true ->
  SpanContext_IsValid (GetSpanContext sp) = true ->
  length (sc_TraceID (GetSpanContext sp)) = 16%nat ->
  length (sc_SpanID (GetSpanContext sp)) = 8%nat ->
  String.length (GetTraceID ctx) = 64%nat /\
  String.length (GetSpanID ctx) = 32%nat /\
  enrich ctx props !! "trace_id" = Some (AString (GetTraceID ctx)) /\
  enrich ctx props !! "span_id" = Some (AString (GetSpanID ctx)).
Proof.
  intros Hsp Hrec Hval Ht Hs.
  destruct (enrich_recording ctx props sp Hsp Hrec Hval) as [E1 E2].
  unfold GetTraceID, GetSpanID, SpanFromContext. rewrite Hsp, Hrec, Hval.
  rewrite !Sprintf_0x_Stringer_length, Ht, Hs.
  repeat split; [exact E1|exact E2].
Qed.

Lemma GetTraceID_GetSpanID_lengths_witness :
  String.length (GetTraceID sample_ctx) = 64%nat /\
  String.length (GetSpanID sample_ctx) = 32%nat /\
  enrich sample_ctx ∅ !! "trace_id" = Some (AString (GetTraceID sample_ctx)) /\
  enrich sample_ctx ∅ !! "span_id" = Some (AString (GetSpanID sample_ctx)).
Proof.
  apply (GetTraceID_GetSpanID_lengths sample_ctx
           (mkSpan true (mkSpanContext sample_trace_id sample_span_id)) ∅);
    reflexivity.
Defined.

Lemma Start_breaker_not_open tracer clk g ctx name cb :
  globalCircuitBreaker g = Some cb ->
  CircuitBreaker.state cb <> CircuitBreaker.StateOpen ->
  globalCircuitBreaker (fst (fst (Start tracer clk g ctx name))) = Some cb /\
  Forall (fun d => ~ is_DebugCircuitOpen d) (snd (fst (Start tracer clk g ctx name))).
Proof.
  intros Hcb Hst. unfold Start. rewrite Hcb.
  destruct (negb (fst _)); cbn [fst snd globalCircuitBreaker].
  - split; [reflexivity|]. repeat constructor. intros [].
  - assert (HA : CircuitBreaker.Allow (now_breaker clk) (now_breaker' clk) cb = (true, cb)).
    { unfold CircuitBreaker.Allow. destruct (CircuitBreaker.state cb); congruence. }
    rewrite HA. cbn [fst snd negb globalCircuitBreaker].
    split; [reflexivity|].
    destruct (IsRecording (tracer ctx name)); repeat constructor. intros [].
Qed.

(** X16: [Start] alone never trips the breaker.  Whatever calls of [Start] are
    made, a breaker that is not open is left exactly as it was, counts and
    time of last change included, and refuses none of them: nothing in
    [Start] records a failure or a success. *)
Theorem Start_keeps_breaker_that_is_not_open (tracer : Context -> string -> Span)
    (calls : list (StartClock * Context * string)) (g : Globals)
    (cb : CircuitBreaker.CircuitBreaker) :
  globalCircuitBreaker g = Some cb ->
  CircuitBreaker.state cb <> CircuitBreaker.StateOpen ->
  globalCircuitBreaker (fst (Starts tracer calls g)) = Some cb /\
  Forall (fun d => ~ is_DebugCircuitOpen d) (snd (Starts tracer calls g)).
Proof.
  intros Hcb Hst. unfold Starts.
  assert (H0 : globalCircuitBreaker (fst (g, @nil StartDebug)) = Some cb /\
               Forall (fun d => ~ is_DebugCircuitOpen d) (snd (g, @nil StartDebug))).
  { split; [exact Hcb|constructor]. }
  revert H0. generalize (g, @nil StartDebug).
  induction calls as [|[[clk ctx] name] calls IH]; intros acc H0; cbn [fold_left].
  - exact H0.
  - apply IH. destruct H0 as [H1 H2]. cbn [fst snd].
    destruct (Start_breaker_not_open tracer clk (fst acc) ctx name cb H1 Hst) as [H3 H4].
    split; [exact H3|]. apply Forall_app. split; assumption.
Qed.

Lemma Start_keeps_breaker_that_is_not_open_witness :
  globalCircuitBreaker
    (fst (Starts (fun _ _ => noopSpan)
            [(mkStartClock 1 1 1, Background, "a"); (mkStartClock 2 2 2, Background, "b")]
            (mkGlobals None (Some (CircuitBreaker.NewCircuitBreaker 3 2 100 0))))) =
    Some (CircuitBreaker.NewCircuitBreaker 3 2 100 0) /\
  Forall (fun d => ~ is_DebugCircuitOpen d)
    (snd (Starts (fun _ _ => noopSpan)
            [(mkStartClock 1 1 1, Background, "a"); (mkStartClock 2 2 2, Background, "b")]
            (mkGlobals None (Some (CircuitBreaker.NewCircuitBreaker 3 2 100 0))))).
Proof.
  apply (Start_keeps_breaker_that_is_not_open (fun _ _ => noopSpan)
           [(mkStartClock 1 1 1, Background, "a"); (mkStartClock 2 2 2, Background, "b")]
           (mkGlobals None (Some (CircuitBreaker.NewCircuitBreaker 3 2 100 0)))
           (CircuitBreaker.NewCircuitBreaker 3 2 100 0)).
  - reflexivity.
  - discriminate.
Defined.

(** X17: The limiter is asked before the breaker.  A call of [Start] that the
    limiter allows and that an open breaker, still within its timeout,
    refuses has taken its token all the same: it returns the context it was
    given with a no-op span, leaves the breaker as it was, and leaves the
    limiter with the tokens of the refill less one. *)
Theorem Start_refused_by_breaker_spends_token (tracer : Context -> string -> Span)
    (clk : StartClock) (g : Globals) (ctx : Context) (name : string)
    (tb : TokenBucket.TokenBucket) (cb : CircuitBreaker.CircuitBreaker) :
  globalRateLimiter g = Some tb ->
  globalCircuitBreaker g = Some cb ->
  fst (TokenBucket.Allow (now_limiter clk) tb) = true ->
  CircuitBreaker.state cb = CircuitBreaker.StateOpen ->
  in_int64 (CircuitBreaker.timeout cb) ->
  now_breaker clk - CircuitBreaker.lastStateChange cb <= CircuitBreaker.timeout cb ->
  Start tracer clk g ctx name =
    (mkGlobals (Some (snd (TokenBucket.Allow (now_limiter clk) tb))) (Some cb),
     [DebugCircuitOpen name], (ctx, NoopSpan)) /\
  TokenBucket.tokens (snd (TokenBucket.Allow (now_limiter clk) tb)) =
    (TokenBucketObs.refilled (now_limiter clk) tb - 1)%float.
Proof.
  intros Hrl Hcb Hok Hst Hto Hnow.
  assert (HA : CircuitBreaker.Allow (now_breaker clk) (now_breaker' clk) cb = (false, cb)).
  { unfold CircuitBreaker.Allow. rewrite Hst.
    unfold Since, Sub, sat64. unfold in_int64, min_int64, max_int64 in *.
    destruct (Z.ltb_spec (now_breaker clk - CircuitBreaker.lastStateChange cb) (- 2 ^ 63)).
    - destruct (Z.ltb_spec (CircuitBreaker.timeout cb) (- 2 ^ 63)); [lia|reflexivity].
    - destruct (Z.ltb_spec (2 ^ 63 - 1)
                  (now_breaker clk - CircuitBreaker.lastStateChange cb)); [lia|].
      destruct (Z.ltb_spec (CircuitBreaker.timeout cb)
                  (now_breaker clk - CircuitBreaker.lastStateChange cb)); [lia|reflexivity]. }
  split.
  - unfold Start. rewrite Hrl, Hcb. cbn [fst snd]. rewrite Hok, HA. reflexivity.
  - revert Hok. unfold TokenBucket.Allow, TokenBucketObs.refilled.
    destruct (1 <=? _)%float; [reflexivity|discriminate].
Qed.

Lemma Start_refused_by_breaker_spends_token_witness :
  Start (fun _ _ => noopSpan) (mkStartClock 0 50 50)
    (mkGlobals (Some (TokenBucket.NewTokenBucket 5 5 0))
       (Some (CircuitBreaker.mkCircuitBreaker CircuitBreaker.StateOpen 3 0 3 2 100 0)))
    Background "checkout" =
    (mkGlobals (Some (snd (TokenBucket.Allow 0 (TokenBucket.NewTokenBucket 5 5 0))))
       (Some (CircuitBreaker.mkCircuitBreaker CircuitBreaker.StateOpen 3 0 3 2 100 0)),
     [DebugCircuitOpen "checkout"], (Background, NoopSpan)) /\
  TokenBucket.tokens (snd (TokenBucket.Allow 0 (TokenBucket.NewTokenBucket 5 5 0))) =
    (TokenBucketObs.refilled 0%Z (TokenBucket.NewTokenBucket 5 5 0%Z) - 1)%float.
Proof.
  apply (Start_refused_by_breaker_spends_token (fun _ _ => noopSpan) (mkStartClock 0 50 50)
           (mkGlobals (Some (TokenBucket.NewTokenBucket 5 5 0))
              (Some (CircuitBreaker.mkCircuitBreaker CircuitBreaker.StateOpen 3 0 3 2 100 0)))
           Background "checkout" (TokenBucket.NewTokenBucket 5 5 0)
           (CircuitBreaker.mkCircuitBreaker CircuitBreaker.StateOpen 3 0 3 2 100 0)).
  - reflexivity.
  - reflexivity.
  - reflexivity.
  - reflexivity.
  - split; vm_compute; discriminate.
  - vm_compute. discriminate.
Defined.

(** X18: The operation name an event carries is that of the last [Start] that
    was let through.  When [Start] returns a span of the tracer, an event
    tracked under the context it returns carries the name given to [Start]
    as its operation, and as its [operation.name] property when the name is
    not empty; when [Start] returns a no-op span, refused by the limiter or
    by the breaker, the context is the one it was given and the event
    carries the operation name of that context. *)
Theorem Start_then_Track_operation_name (tracer : Context -> string -> Span)
    (clk : StartClock) (g : Globals) (ctx : Context) (name event : string)
    (props : gmap string any) (s : Sys) :
  events_closed (queue s) = false ->
  Z.of_nat (length (events (queue s))) < events_cap (queue s) ->
  exists s' ev,
    Track (fst (snd (Start tracer clk g ctx name))) event props s = Returned s' /\
    events (queue s') = events (queue s) ++ [ev] /\
    match snd (snd (Start tracer clk g ctx name)) with
    | SpanImpl span =>
        span = tracer ctx name /\
        operation ev = name /\
        (name <> "" -> properties ev !! "operation.name" = Some (AString name))
    | NoopSpan =>
        fst (snd (Start tracer clk g ctx name)) = ctx /\
        operation ev = GetOperationName ctx
    end.
Proof.
  intros Hc Hroom.
  set (r := Start tracer clk g ctx name).
  unfold Track. rewrite Hc.
  destruct (Z.ltb_spec (Z.of_nat (length (events (queue s)))) (events_cap (queue s)));
    [|lia].
  eexists. eexists. split; [reflexivity|].
  cbn [on_queue queue events set_events]. split; [reflexivity|].
  cbn [operation properties].
  subst r. unfold Start.
  destruct (negb (fst _)); cbn [fst snd]; [split; reflexivity|].
  destruct (negb (fst _)); cbn [fst snd]; [split; reflexivity|].
  split; [reflexivity|]. split; [reflexivity|].
  intros Hne. unfold enrich. cbn [GetOperationName ctx_operationName].
  destruct (String.eqb_spec name "") as [E|E]; [contradiction|].
  apply lookup_insert_eq.
Qed.

Lemma Start_then_Track_operation_name_witness :
  exists s' ev,
    Track (fst (snd (Start (fun _ _ => noopSpan) (mkStartClock 0 0 0)
                       (mkGlobals None None) Background "checkout")))
      "order.completed" ∅ (boot (NewQueue [inMemory])) = Returned s' /\
    events (queue s') = events (queue (boot (NewQueue [inMemory]))) ++ [ev] /\
    match snd (snd (Start (fun _ _ => noopSpan) (mkStartClock 0 0 0)
                      (mkGlobals None None) Background "checkout")) with
    | SpanImpl span =>
        span = noopSpan /\
        operation ev = "checkout" /\
        ("checkout" <> "" -> properties ev !! "operation.name" = Some (AString "checkout"))
    | NoopSpan =>
        fst (snd (Start (fun _ _ => noopSpan) (mkStartClock 0 0 0)
                    (mkGlobals None None) Background "checkout")) = Background /\
        operation ev = GetOperationName Background
    end.
Proof.
  apply (Start_then_Track_operation_name (fun _ _ => noopSpan) (mkStartClock 0 0 0)
           (mkGlobals None None) Background "checkout" "order.completed" ∅
           (boot (NewQueue [inMemory]))).
  - reflexivity.
  - reflexivity.
Defined.

(** X19: [IsTracingEnabled] goes through [Start]: with a limiter installed,
    every call runs the limiter's [Allow], so that asking takes a token like
    starting a span does, and a call that the limiter refuses answers false
    whatever the tracer would have done. *)
Theorem IsTracingEnabled_draws_on_limiter (tracer : Context -> string -> Span)
    (clk : StartClock) (g : Globals) (ctx : Context) (tb : TokenBucket.TokenBucket) :
  globalRateLimiter g = Some tb ->
  globalRateLimiter (fst (fst (IsTracingEnabled tracer clk g ctx))) =
    Some (snd (TokenBucket.Allow (now_limiter clk) tb)) /\
  (fst (TokenBucket.Allow (now_limiter clk) tb) = false ->
   snd (IsTracingEnabled tracer clk g ctx) = false /\
   globalCircuitBreaker (fst (fst (IsTracingEnabled tracer clk g ctx))) =
     globalCircuitBreaker g).
Proof.
  intros Hrl. unfold IsTracingEnabled, Start. rewrite Hrl. cbn [fst snd].
  destruct (fst (TokenBucket.Allow (now_limiter clk) tb)) eqn:E; cbn [negb fst snd].
  - split; [|discriminate].
    destruct (negb (fst _)); reflexivity.
  - split; [reflexivity|]. intros _. split; reflexivity.
Qed.

Lemma IsTracingEnabled_draws_on_limiter_witness :
  globalRateLimiter
    (fst (fst (IsTracingEnabled (fun _ _ => mkSpan true (mkSpanContext sample_trace_id sample_span_id))
                 (mkStartClock 0 0 0)
                 (mkGlobals (Some (TokenBucket.NewTokenBucket 5 0 0)) None) Background))) =
    Some (snd (TokenBucket.Allow 0 (TokenBucket.NewTokenBucket 5 0 0))) /\
  (fst (TokenBucket.Allow 0 (TokenBucket.NewTokenBucket 5 0 0)) = false ->
   snd (IsTracingEnabled (fun _ _ => mkSpan true (mkSpanContext sample_trace_id sample_span_id))
          (mkStartClock 0 0 0)
          (mkGlobals (Some (TokenBucket.NewTokenBucket 5 0 0)) None) Background) = false /\
   globalCircuitBreaker
     (fst (fst (IsTracingEnabled (fun _ _ => mkSpan true (mkSpanContext sample_trace_id sample_span_id))
                  (mkStartClock 0 0 0)
                  (mkGlobals (Some (TokenBucket.NewTokenBucket 5 0 0)) None) Background))) =
     globalCircuitBreaker (mkGlobals (Some (TokenBucket.NewTokenBucket 5 0 0)) None)).
Proof.
  apply (IsTracingEnabled_draws_on_limiter
           (fun _ _ => mkSpan true (mkSpanContext sample_trace_id sample_span_id))
           (mkStartClock 0 0 0)
           (mkGlobals (Some (TokenBucket.NewTokenBucket 5 0 0)) None) Background
           (TokenBucket.NewTokenBucket 5 0 0)).
  reflexivity.
Defined.

End AutolemetrySpec.
(* ===================================================================== *)
(** ** package autolemetry: the global event tracker                      *)
(* ===================================================================== *)

Module AutolemetryEventsSpec.
Import GoInt GoTime GoFmt Trace Subscribers QueueObs GoIntSpec QueueSpec.

(** X20: The cleanup function of [Init] shuts the global queue down and clears
    the global tracker: every registered subscriber is closed, once and in
    the order of registration, and from then on [autolemetry.Track] returns
    without doing anything and another cleanup finds nothing to shut down.
    (A [Track] on the queue itself would not return, once it is shut
    down.) *)
Theorem cleanup_then_Track_is_silent (w : World) (cfg : QueueConfig)
    (subs : list Subscriber) (ops : list Op) (s : Sys)
    (tick_at tick_at' : option nat) (ctx : Context) (event : string)
    (props : gmap string any) :
  run w ops (boot (NewQueueWithConfig cfg subs)) = Returned s ->
  closed (queue s) = false ->
  exists s1,
    AutolemetryEvents.cleanup w tick_at (Some s) = Returned (None, Some s1) /\
    closes (observed s1) = subs /\
    events (queue s1) = [] /\
    AutolemetryEvents.Track ctx event props None = Returned None /\
    AutolemetryEvents.cleanup w tick_at' None = Returned (None, None) /\
    Subscribers.Track ctx event props s1 = Panicked "send on closed channel".
Proof.
  intros Hrun Hcl.
  assert (Hl : lifecycle_ok s).
  { apply (lifecycle_ok_run w ops _ s (lifecycle_ok_boot cfg subs) Hrun). }
  assert (Hsubs : subscribers (queue s) = subs).
  { apply (inv_run w (fun x => subscribers (queue x) = subs)) with (ops := ops)
      (s := boot (NewQueueWithConfig cfg subs)); try exact Hrun; try reflexivity.
    - intros s0 evs H. exact H.
    - intros s0 ev H. exact H.
    - intros s0 ev a H _. pose proof (deliver_to_frame w ev s0 a) as F.
      apply same_but_health_fields in F. destruct F as (_ & _ & _ & F & _). congruence.
    - intros s0 H. pose proof (resetIfNeeded_frame (queue s0)) as F.
      apply same_but_health_fields in F. destruct F as (_ & _ & _ & F & _).
      cbn [on_queue queue]. congruence.
    - intros s0 H _. exact H.
    - intros s0 H _. exact H.
    - intros s0 H _. rewrite close_all_eq. exact H. }
  destruct (Shutdown_first w tick_at s Hl Hcl)
    as (s1 & d & HS & Hobs & Hd & Hev & _ & _ & Hec & _).
  exists s1. unfold AutolemetryEvents.cleanup. rewrite HS.
  split; [reflexivity|]. split; [|split; [exact Hev|]].
  - destruct Hl as (_ & _ & L3).
    rewrite Hobs, !closes_app, (L3 Hcl), Hd, closes_map_ObsClose. exact Hsubs.
  - split; [reflexivity|]. split; [reflexivity|].
    unfold Subscribers.Track. rewrite Hec. reflexivity.
Qed.

Lemma cleanup_then_Track_is_silent_witness :
  exists s1,
    AutolemetryEvents.cleanup sample_world None (Some two_buffered) =
      Returned (None, Some s1) /\
    closes (observed s1) = [webhookA] /\
    events (queue s1) = [] /\
    AutolemetryEvents.Track sample_ctx "order.completed" ∅ None = Returned None /\
    AutolemetryEvents.cleanup sample_world None None = Returned (None, None) /\
    Subscribers.Track sample_ctx "order.completed" ∅ s1 = Panicked "send on closed channel".
Proof.
  apply (cleanup_then_Track_is_silent sample_world default_config [webhookA]
           [OpTrack Background "order.completed" {[ "amount" := AInt 42 ]};
            OpTrack Background "order.completed" {[ "amount" := AInt 42 ]}]
           two_buffered None None sample_ctx "order.completed" ∅).
  - reflexivity.
  - reflexivity.
Defined.

End AutolemetryEventsSpec.
